(** * Land-cover classifier: a shallow embedding of [models/predictor.py]
      and of the series analysis of [app.py].

    Conventions of the embedding.
    - Python floats (and numpy float32/float64 samples) are modelled by exact
      rationals [Q]; comparisons of finite floats are comparisons of their
      rational values.  The one place where the code truncates a float64
      expression whose last bit decides the integer, the colour ramp of
      [generate_heatmap], is computed in IEEE binary64 ([spec_float] with
      53 bits of precision); the float32 quantisation that feeds it is
      numpy's and belongs to the world.
    - Python dicts keep insertion order: they are association lists that are
      only ever updated through [dict_set].
    - A Python exception is a value of [exn]; code that may raise returns a
      [result].
    - PIL decoding and resampling, the file system and the Keras networks are
      not part of the repository: they are the variables of [Section World]. *)

From Stdlib Require Import List String Ascii ZArith QArith Qabs Qround Qminmax.
From Stdlib Require Import Lia Lqa Bool Permutation Sorted PeanoNat.
From Stdlib Require Import SpecFloat Zpower.
From Stdlib Require DecimalString DecimalNat.
Import ListNotations.

Open Scope string_scope.
Open Scope Z_scope.
Open Scope Q_scope.
Open Scope list_scope.

Infix "+++" := String.append (at level 60, right associativity).

(** ** Exceptions and results *)

Inductive exn : Type :=
| KeyError (key : string)
| IndexError (msg : string)
| ValueError (msg : string)
| OSError (msg : string)
| OverflowError (msg : string)
| BackendError (msg : string).

(** [str(e)]: a [KeyError] prints its key quoted, the others their message. *)
Definition str (e : exn) : string :=
  match e with
  | KeyError k => "'" +++ k +++ "'"
  | IndexError m | ValueError m | OSError m | OverflowError m
  | BackendError m => m
  end.

Inductive result (A : Type) : Type :=
| Ok (a : A)
| Raise (e : exn).
Arguments Ok {A} a.
Arguments Raise {A} e.

Definition bind {A B} (r : result A) (k : A -> result B) : result B :=
  match r with
  | Ok a => k a
  | Raise e => Raise e
  end.

Notation "x <- r ;; k" := (bind r (fun x => k))
  (at level 61, r at next level, right associativity).

(** ** Ordered dictionaries *)

Section Dict.
Context {V : Type}.

Definition dict := list (string * V).

Fixpoint dict_get (k : string) (d : dict) : option V :=
  match d with
  | [] => None
  | (k', v) :: d' => if String.eqb k k' then Some v else dict_get k d'
  end.

(** [d[k] = v]: an existing key keeps its position, a new one goes last. *)
Fixpoint dict_set (k : string) (v : V) (d : dict) : dict :=
  match d with
  | [] => [(k, v)]
  | (k', v') :: d' =>
      if String.eqb k k' then (k', v) :: d' else (k', v') :: dict_set k v d'
  end.

Definition dict_mem (k : string) (d : dict) : bool :=
  match dict_get k d with Some _ => true | None => false end.

Definition keys (d : dict) : list string := map fst d.
Definition values (d : dict) : list V := map snd d.

(** [dict(items)] *)
Definition dict_of_items (items : list (string * V)) : dict :=
  fold_left (fun d kv => dict_set (fst kv) (snd kv) d) items [].
End Dict.
Arguments dict V : clear implicits.

(** ** Python numerics on rationals *)

(** [int(x)]: truncation toward zero. *)
Definition py_int (x : Q) : Z := Z.quot (Qnum x) (Z.pos (Qden x)).

(** Nearest integer, ties to even: what [round] does on the exact value. *)
Definition round_half_even (x : Q) : Z :=
  let f := Qfloor x in
  match ((x - inject_Z f) ?= (1 # 2))%Q with
  | Lt => f
  | Gt => (f + 1)%Z
  | Eq => if Z.even f then f else (f + 1)%Z
  end.

(** Nearest integer, ties upward: the schoolbook reading of "round". *)
Definition round_half_up (x : Q) : Z := Qfloor (x + (1 # 2)).

Definition pow10 (n : nat) : Q := inject_Z (10 ^ Z.of_nat n).

(** [round(x, ndigits)] *)
Definition py_round (x : Q) (ndigits : nat) : Q :=
  inject_Z (round_half_even (x * pow10 ndigits)) / pow10 ndigits.

(** A value stored into a [uint8] cell. *)
Definition uint8 (z : Z) : Z := (z mod 256)%Z.

(** [str(n)] of a natural number. *)
Definition decimal (n : nat) : string :=
  DecimalString.NilEmpty.string_of_uint (Nat.to_uint n).

(** ** Python floats as IEEE binary64

    Each operation rounds to nearest, ties to even; an integer operand is
    converted first, as Python and numpy do. *)
Definition f64_of_Z (z : Z) : spec_float := binary_normalize 53 1024 z 0 false.
Definition f64_mul (x y : spec_float) : spec_float := SFmul 53 1024 x y.
Definition f64_sub (x y : spec_float) : spec_float := SFsub 53 1024 x y.
Definition f64_div (x y : spec_float) : spec_float := SFdiv 53 1024 x y.

(** The literal [0.5]. *)
Definition f64_half : spec_float := binary_normalize 53 1024 1 (-1) false.

(** The rational a finite binary64 value stands for. *)
Definition f64_value (x : spec_float) : Q :=
  match x with
  | S754_finite s m e =>
      let a := match e with
               | Z0 => inject_Z (Z.pos m)
               | Z.pos p => inject_Z (Z.pos m * 2 ^ Z.pos p)
               | Z.neg p => Z.pos m # (2 ^ p)%positive
               end in
      if s then - a else a
  | _ => 0
  end.

Definition qsum (l : list Q) : Q := fold_right Qplus 0 l.

(** [max(iterable, key=...)]: the first element whose key no later one
    strictly exceeds; [None] stands for the [ValueError] on an empty
    iterable. *)
Section PyMax.
Context {A K : Type} (ltb : K -> K -> bool) (key : A -> K).

Definition py_max_from (best : A) (l : list A) : A :=
  fold_left (fun b x => if ltb (key b) (key x) then x else b) l best.

Definition py_max (l : list A) : option A :=
  match l with
  | [] => None
  | x :: l' => Some (py_max_from x l')
  end.

(** [sorted(l, key=..., reverse=True)]: stable, descending. *)
Fixpoint insert_desc (x : A) (l : list A) : list A :=
  match l with
  | [] => [x]
  | y :: l' => if ltb (key y) (key x) then x :: y :: l'
               else y :: insert_desc x l'
  end.

Definition sorted_desc (l : list A) : list A :=
  fold_left (fun acc x => insert_desc x acc) l [].

(** [a] may stand before [b] in a descending order. *)
Definition desc (a b : A) : Prop := ltb (key a) (key b) = false.
End PyMax.

Definition Qltb (x y : Q) : bool :=
  match x ?= y with Lt => true | _ => false end.

(** ** The class labels and the model registry *)

Definition CLASS_NAMES : list string :=
  [ "AnnualCrop"; "Forest"; "HerbaceousVegetation"; "Highway"; "Industrial";
    "Pasture"; "PermanentCrop"; "Residential"; "River"; "SeaLake" ].

Record config : Type := mkConfig {
  path : string;
  name : string;
  description : string;
  input_shape : nat * nat * nat;
  channels : nat
}.

Definition MODEL_CONFIG : dict config :=
  [ ("rgb", mkConfig "model_rgb_v0.h5" "RGB Model"
       "Uses standard RGB satellite imagery" (64, 64, 3)%nat 3);
    ("rgb_nir", mkConfig "model_RGB_NIR_v0.h5" "RGB + NIR Model"
       "Uses RGB with Near-Infrared band for enhanced vegetation detection"
       (64, 64, 4)%nat 4);
    ("ndvi", mkConfig "model_NDVI_v2.h5" "NDVI Model"
       "Uses Normalized Difference Vegetation Index for vegetation analysis"
       (64, 64, 1)%nat 1) ].

(** [MODEL_CONFIG[key]] *)
Definition config_of (key : string) : result config :=
  match dict_get key MODEL_CONFIG with
  | Some c => Ok c
  | None => Raise (KeyError key)
  end.

(** ** numpy arrays of the two ranks PIL produces *)

Inductive ndarray : Type :=
| Arr2 (rows : list (list Q))                       (* shape (H, W) *)
| Arr3 (chans : nat) (rows : list (list (list Q))). (* shape (H, W, chans) *)

(** A batched tensor: [np.expand_dims(a, axis=0)] is [[a]]. *)
Definition tensor := list ndarray.

Definition map_px {A B} (f : A -> B) (rows : list (list A)) : list (list B) :=
  map (map f) rows.

Definition mean (p : list Q) : Q := qsum p / inject_Z (Z.of_nat (List.length p)).

(** [np.mean(a, axis=2, keepdims=True)] *)
Definition mean_axis2 (rows : list (list (list Q))) : list (list (list Q)) :=
  map_px (fun p => [mean p]) rows.

(** [np.expand_dims(a, axis=-1)] *)
Definition expand_last (rows : list (list Q)) : list (list (list Q)) :=
  map_px (fun v => [v]) rows.

(** [np.stack([a] * n, axis=-1)] *)
Definition stack_last (n : nat) (rows : list (list Q)) : list (list (list Q)) :=
  map_px (fun v => repeat v n) rows.

(** [a[:, :, :n]] *)
Definition take_channels (n : nat) (rows : list (list (list Q)))
  : list (list (list Q)) :=
  map_px (firstn n) rows.

Fixpoint zip_with {A B C} (f : A -> B -> C) (l : list A) (l' : list B)
  : list C :=
  match l, l' with
  | x :: t, y :: t' => f x y :: zip_with f t t'
  | _, _ => []
  end.

(** [np.concatenate([a, b], axis=-1)] on arrays of equal height and width. *)
Definition concat_last (a b : list (list (list Q))) : list (list (list Q)) :=
  zip_with (zip_with (@app Q)) a b.

(** [np.concatenate([a] * n, axis=-1)] for [n >= 1]. *)
Fixpoint tile_last (n : nat) (a : list (list (list Q)))
  : list (list (list Q)) :=
  match n with
  | O => map_px (fun _ => []) a
  | S O => a
  | S n' => concat_last a (tile_last n' a)
  end.

Definition samples (a : ndarray) : list Q :=
  match a with
  | Arr2 rows => List.concat rows
  | Arr3 _ rows => List.concat (List.concat rows)
  end.

(** [a.max()]; numpy refuses an array without samples. *)
Definition amax (a : ndarray) : result Q :=
  match samples a with
  | [] => Raise (ValueError
      "zero-size array to reduction operation maximum which has no identity")
  | x :: l => Ok (fold_left Qmax l x)
  end.

Definition map_samples (f : Q -> Q) (a : ndarray) : ndarray :=
  match a with
  | Arr2 rows => Arr2 (map_px f rows)
  | Arr3 c rows => Arr3 c (map_px (map f) rows)
  end.

(** [shape[-1]] of a rank-3 array, and the channel count of a tensor. *)
Definition last_dim (a : ndarray) : option nat :=
  match a with
  | Arr2 _ => None
  | Arr3 c _ => Some c
  end.

(** ** [LandClassifier.preprocess_image] *)

(** Lines 85-110: the channel conversion, one branch per model key. *)
Definition convert_channels (model_key : string) (img_array : ndarray)
  : ndarray :=
  if String.eqb model_key "ndvi" then
    match img_array with
    | Arr3 _ rows => Arr3 1 (mean_axis2 rows)
    | Arr2 rows => Arr3 1 (expand_last rows)
    end
  else if String.eqb model_key "rgb" then
    match img_array with
    | Arr2 rows => Arr3 3 (stack_last 3 rows)
    | Arr3 c rows =>
        if Nat.eqb c 4 then Arr3 (Nat.min 3 c) (take_channels 3 rows)
        else if Nat.eqb c 1 then Arr3 (3 * c) (tile_last 3 rows)
        else img_array
    end
  else if String.eqb model_key "rgb_nir" then
    match img_array with
    | Arr2 rows => Arr3 4 (stack_last 4 rows)
    | Arr3 c rows =>
        if Nat.eqb c 3 then Arr3 (c + 1) (concat_last rows (mean_axis2 rows))
        else if Nat.eqb c 1 then Arr3 (4 * c) (tile_last 4 rows)
        else img_array
    end
  else img_array.

(** Lines 112-114: divide by 255 when the largest sample exceeds 1. *)
Definition normalize (img_array : ndarray) : result ndarray :=
  m <- amax img_array ;;
  Ok (if Qltb 1 m then map_samples (fun v => v / 255) img_array
      else img_array).

Section World.
(** [np.array(Image.open(path).resize(size, LANCZOS), dtype=np.float32)]:
    decoding may fail; the array is of rank 2 or 3 according to the
    image mode. *)
Variable open_resized : string -> nat * nat -> result ndarray.

Definition preprocess_image (image_path model_key : string)
  : result tensor :=
  config <- config_of model_key ;;
  let target_size := (fst (fst (input_shape config)),
                      snd (fst (input_shape config))) in
  img_array <- open_resized image_path target_size ;;
  let img_array := convert_channels model_key img_array in
  img_array <- normalize img_array ;;
  Ok [img_array].

(** *** The classifier object *)

(** A loaded network: [model.predict(t, verbose=0)[0]], the score row of
    the single batch element. *)
Definition Model := tensor -> result (list Q).

Record LandClassifier : Type := mkClassifier {
  models_dir : string;
  models : dict Model
}.

(** The outcome of [predict]: the success dictionary or the error one. *)
Record Prediction : Type := mkPrediction {
  predicted_class : string;
  confidence : Q;
  probabilities : dict Q;
  model_used : string
}.

Inductive PredictResult : Type :=
| Success (p : Prediction)
| Failure (error : string).

Definition dquote : string := String (ascii_of_nat 34) EmptyString.

Definition not_loaded (model_key : string) : string :=
  "Model " +++ dquote +++ model_key +++ dquote +++ " not loaded".

(** [predictions[i]] on a one-dimensional numpy array. *)
Definition index (predictions : list Q) (i : nat) : result Q :=
  match nth_error predictions i with
  | Some v => Ok v
  | None =>
      Raise (IndexError ("index " +++ decimal i
                         +++ " is out of bounds for axis 0 with size "
                         +++ decimal (List.length predictions)))
  end.

(** The comprehension of lines 138-141, one class after the other. *)
Fixpoint class_probabilities (predictions : list Q) (names : list string)
  (i : nat) (acc : dict Q) : result (dict Q) :=
  match names with
  | [] => Ok acc
  | c :: names' =>
      v <- index predictions i ;;
      class_probabilities predictions names' (S i) (dict_set c (v * 100) acc)
  end.

(** [d[k]] *)
Definition dict_item {V} (k : string) (d : dict V) : result V :=
  match dict_get k d with
  | Some v => Ok v
  | None => Raise (KeyError k)
  end.

(** [d.get] as a key function; every key it is applied to is present. *)
Definition dict_get_or {V} (d : dict V) (default : V) (k : string) : V :=
  match dict_get k d with
  | Some v => v
  | None => default
  end.

(** The body of the [try] of [predict]. *)
Definition predict_body (model : Model) (image_path model_key : string)
  : result Prediction :=
  img_array <- preprocess_image image_path model_key ;;
  predictions <- model img_array ;;
  probabilities <- class_probabilities predictions CLASS_NAMES 0 [] ;;
  let sorted_probs := dict_of_items (sorted_desc Qltb snd probabilities) in
  top_class <- match py_max Qltb (dict_get_or probabilities 0)
                       (keys probabilities) with
               | Some k => Ok k
               | None => Raise (ValueError "max() arg is an empty sequence")
               end ;;
  confidence <- dict_item top_class probabilities ;;
  config <- config_of model_key ;;
  Ok (mkPrediction top_class (py_round confidence 2) sorted_probs
        (name config)).

Definition predict (self : LandClassifier) (image_path model_key : string)
  : PredictResult :=
  match dict_get model_key (models self) with
  | None => Failure (not_loaded model_key)
  | Some model =>
      match predict_body model image_path model_key with
      | Ok p => Success p
      | Raise e => Failure (str e)
      end
  end.

(** *** Loading: [__init__] and [load_models] *)

Variable os_path_exists : string -> bool.
(** [keras.models.load_model]: a network, or the exception it raised. *)
Variable load_model : string -> result Model.

Definition ends_with_slash (d : string) : bool :=
  match get (String.length d - 1) d with
  | Some c => Ascii.eqb c "/"%char
  | None => false
  end.

(** [os.path.join(d, p)] for a relative [p]. *)
Definition os_path_join (d p : string) : string :=
  if String.eqb d "" then p
  else if ends_with_slash d then d +++ p
  else d +++ "/" +++ p.

Definition load_one (self : LandClassifier) (entry : string * config)
  : LandClassifier :=
  let model_path := os_path_join (models_dir self) (path (snd entry)) in
  if os_path_exists model_path then
    match load_model model_path with
    | Ok m => mkClassifier (models_dir self)
                (dict_set (fst entry) m (models self))
    | Raise _ => self
    end
  else self.

Definition load_models (self : LandClassifier) : LandClassifier :=
  fold_left load_one MODEL_CONFIG self.

(** [LandClassifier(models_dir)] *)
Definition new_classifier (dir : string) : LandClassifier :=
  load_models (mkClassifier dir []).

(** *** [get_available_models] *)

Record ModelInfo : Type := mkInfo {
  info_key : string;
  info_name : string;
  info_description : string;
  loaded : bool
}.

Definition get_available_models (self : LandClassifier) : list ModelInfo :=
  fold_left
    (fun available kc =>
       available ++ [mkInfo (fst kc) (name (snd kc)) (description (snd kc))
                       (dict_mem (fst kc) (models self))])
    MODEL_CONFIG [].

(** *** [compare_all] *)

Inductive ModelEntry : Type :=
| EntryPrediction (model_name cls : string) (conf : Q) (probs : dict Q)
| EntryError (model_name error : string).

Record Comparison : Type := mkComparison {
  cmp_success : bool;
  cmp_models : dict ModelEntry;
  consensus : option string;
  agreement : Q
}.

(** Lines 186-197: the entry recorded for one result. *)
Definition entry_of_result (model_name : string) (result : PredictResult)
  : ModelEntry :=
  match result with
  | Success r => EntryPrediction model_name (predicted_class r)
                   (confidence r) (probabilities r)
  | Failure e => EntryError model_name e
  end.

(** Lines 184-197: one entry per key of [self.models]. *)
Fixpoint compare_loop (self : LandClassifier) (image_path : string)
  (model_keys : list string) (results : dict ModelEntry)
  : result (dict ModelEntry) :=
  match model_keys with
  | [] => Ok results
  | model_key :: rest =>
      let result := predict self image_path model_key in
      config <- config_of model_key ;;
      compare_loop self image_path rest
        (dict_set model_key (entry_of_result (name config) result) results)
  end.

(** Line 200: the labels of the entries that carry a prediction. *)
Definition entry_labels (results : dict ModelEntry) : list string :=
  flat_map (fun r => match r with
                     | EntryPrediction _ cls _ _ => [cls]
                     | EntryError _ _ => []
                     end) (values results).

(** [collections.Counter(l)]: labels in first-seen order with their counts. *)
Definition Counter (l : list string) : dict nat :=
  fold_left (fun d x => dict_set x (S (dict_get_or d O x)) d) l [].

(** [c.most_common(1)]: [max] over the items by count, hence the first
    item of maximal count. *)
Definition most_common_1 (c : dict nat) : list (string * nat) :=
  match py_max Nat.ltb snd c with
  | Some kv => [kv]
  | None => []
  end.

Definition list_count (x : string) (l : list string) : nat :=
  count_occ string_dec l x.

Definition of_nat (n : nat) : Q := inject_Z (Z.of_nat n).

Definition compare_all (self : LandClassifier) (image_path : string)
  : result Comparison :=
  results <- compare_loop self image_path (keys (models self)) [] ;;
  let predictions := entry_labels results in
  match predictions with
  | _ :: _ =>
      match most_common_1 (Counter predictions) with
      | (cons_label, _) :: _ =>
          let agreement := of_nat (list_count cons_label predictions)
                           / of_nat (List.length predictions) * 100 in
          Ok (mkComparison true results (Some cons_label)
                (py_round agreement 1))
      | [] => Raise (IndexError "list index out of range")
      end
  | [] => Ok (mkComparison true results None (py_round 0 1))
  end.

(** *** [generate_heatmap]: the arrays behind the two pictures *)

(** Lines 233-236: the intensity surrogate of the first batch element. *)
Definition intensity (img_array : tensor) : result (list (list Q)) :=
  match img_array with
  | Arr3 c rows :: _ =>
      if Nat.leb 3 c then Ok (map_px (fun p => mean (firstn 3 p)) rows)
      else if Nat.leb 1 c then Ok (map_px (fun p => nth 0 p 0) rows)
      else Raise (IndexError "index 0 is out of bounds for axis 3")
  | _ => Raise (IndexError "too many indices for array")
  end.

(** Lines 239-241: clip below at 0, divide by the maximum unless it is 0. *)
Definition normalize_heatmap (heatmap : list (list Q))
  : result (list (list Q)) :=
  let heatmap := map_px (fun v => Qmax v 0) heatmap in
  m <- amax (Arr2 heatmap) ;;
  Ok (if Qltb 0 m then map_px (fun v => v / m) heatmap else heatmap).

(** [int(x)] of a float: truncation toward zero; Python refuses the
    infinities and nan. *)
Definition f64_int (x : spec_float) : result Z :=
  match x with
  | S754_zero _ => Ok 0%Z
  | S754_finite s m e =>
      let a := match e with
               | Z0 => Z.pos m
               | Z.pos p => (Z.pos m * 2 ^ Z.pos p)%Z
               | Z.neg p => (Z.pos m / 2 ^ Z.pos p)%Z
               end in
      Ok (if s then (- a)%Z else a)
  | S754_infinity _ =>
      Raise (OverflowError "cannot convert float infinity to integer")
  | S754_nan => Raise (ValueError "cannot convert float NaN to integer")
  end.

(** Lines 253-256: the colour of one pixel, stored as three [uint8].  [v]
    is a [numpy.float64], so the products and differences are binary64. *)
Definition colorize (v : spec_float) : result (Z * Z * Z) :=
  if SFltb v f64_half then
    g <- f64_int (f64_mul v (f64_of_Z 510)) ;;
    b <- f64_int (f64_sub (f64_of_Z 255) (f64_mul v (f64_of_Z 510))) ;;
    Ok (uint8 0, uint8 g, uint8 b)
  else
    r <- f64_int (f64_mul (f64_sub v f64_half) (f64_of_Z 510)) ;;
    g <- f64_int (f64_sub (f64_of_Z 255)
                    (f64_mul (f64_sub v f64_half) (f64_of_Z 510))) ;;
    Ok (uint8 r, uint8 g, uint8 0).

(** A loop that fills a list cell by cell and stops at the first
    exception. *)
Fixpoint mapM {A B} (f : A -> result B) (l : list A) : result (list B) :=
  match l with
  | [] => Ok []
  | x :: l' => y <- f x ;; ys <- mapM f l' ;; Ok (y :: ys)
  end.

(** Line 263 on one channel of one pixel: [np.uint8] drops the fraction. *)
Definition blend (heat orig : Z) : Z :=
  uint8 (py_int ((1 # 2) * inject_Z heat + (1 # 2) * inject_Z orig)).

Definition channels_of (c : Z * Z * Z) : list Z :=
  [fst (fst c); snd (fst c); snd c].

(** [np.uint8(255 * heatmap)]: numpy multiplies the float32 samples in
    float32 and truncates; the rational value of a sample does not fix the
    rounding of that product, so the bytes are numpy's to give. *)
Variable np_uint8_scaled : list (list Q) -> list (list Z).
(** [heatmap_pil.resize((64, 64), BILINEAR)] on the 8-bit intensity map. *)
Variable resize_bilinear : list (list Z) -> list (list Z).
(** [np.array(Image.open(path).resize((64, 64)).convert('RGB'))] *)
Variable open_rgb_64 : string -> result (list (list (list Z))).

(** Lines 244-256: quantise, resize, divide the bytes by [255.0] (in
    binary64) and colour every pixel. *)
Definition heatmap_colored (heatmap : list (list Q))
  : result (list (list (list Z))) :=
  let heatmap_pil := resize_bilinear (np_uint8_scaled heatmap) in
  let heatmap_array :=
    map_px (fun k => f64_div (f64_of_Z k) (f64_of_Z 255)) heatmap_pil in
  mapM (mapM (fun v => c <- colorize v ;; Ok (channels_of c))) heatmap_array.

(** Line 263 on whole arrays. *)
Definition blended (colored original : list (list (list Z)))
  : list (list (list Z)) :=
  zip_with (zip_with (zip_with blend)) colored original.

(** [int(np.argmax(scores))]: the first index of a largest score. *)
Definition argmax (scores : list Q) : result nat :=
  match py_max Qltb snd (combine (seq 0 (List.length scores)) scores) with
  | Some iv => Ok (fst iv)
  | None => Raise (ValueError "attempt to get argmax of an empty sequence")
  end.

Record Heatmap : Type := mkHeatmap {
  heatmap_overlay : list (list (list Z));
  heatmap_only : list (list (list Z));
  hm_predicted_class : string;
  hm_model_used : string
}.

Definition heatmap_body (model : Model) (image_path model_key : string)
  : result Heatmap :=
  img_array <- preprocess_image image_path model_key ;;
  predictions <- model img_array ;;
  pred_index <- argmax predictions ;;
  heatmap <- intensity img_array ;;
  heatmap <- normalize_heatmap heatmap ;;
  colored <- heatmap_colored heatmap ;;
  original_array <- open_rgb_64 image_path ;;
  let overlay := blended colored original_array in
  cls <- match nth_error CLASS_NAMES pred_index with
         | Some c => Ok c
         | None => Raise (IndexError "list index out of range")
         end ;;
  config <- config_of model_key ;;
  Ok (mkHeatmap overlay colored cls (name config)).

Definition generate_heatmap (self : LandClassifier)
  (image_path model_key : string) : Heatmap + string :=
  match dict_get model_key (models self) with
  | None => inr (not_loaded model_key)
  | Some model =>
      match heatmap_body model image_path model_key with
      | Ok h => inl h
      | Raise e => inr (str e)
      end
  end.
End World.

(** ** [app.py]: upload filtering and the series analysis *)

Definition ALLOWED_EXTENSIONS : list string :=
  ["png"; "jpg"; "jpeg"; "tif"; "tiff"].

(** [s.rsplit('.', 1)[1]] when [s] contains a dot. *)
Fixpoint after_last_dot (s : string) : option string :=
  match s with
  | EmptyString => None
  | String c s' =>
      match after_last_dot s' with
      | Some e => Some e
      | None => if Ascii.eqb c "."%char then Some s' else None
      end
  end.

Definition lower_char (c : ascii) : ascii :=
  let n := nat_of_ascii c in
  if (Nat.leb 65 n && Nat.leb n 90)%bool then ascii_of_nat (n + 32) else c.

Fixpoint lower (s : string) : string :=
  match s with
  | EmptyString => EmptyString
  | String c s' => String (lower_char c) (lower s')
  end.

Definition allowed_file (filename : string) : bool :=
  match after_last_dot filename with
  | Some ext => existsb (String.eqb (lower ext)) ALLOWED_EXTENSIONS
  | None => false
  end.

Record FileStorage : Type := mkFile {
  filename : string;
  content : string
}.

Record Request : Type := mkRequest {
  req_images : option (list FileStorage);  (* [None]: no 'images' part *)
  req_model : option string;
  req_dates : list string
}.

Record SeriesEntry : Type := mkEntry {
  se_index : nat;
  se_date : string;
  se_class : string;
  se_confidence : Q;
  se_probabilities : dict Q
}.

Record ChangeEvent : Type := mkChange {
  from_date : string;
  to_date : string;
  from_class : string;
  to_class : string;
  from_confidence : Q;
  to_confidence : Q
}.

Record Timeline : Type := mkTimeline {
  tl_dates : list string;
  tl_classes : list string;
  tl_confidences : list Q
}.

Record SeriesReport : Type := mkReport {
  sr_results : list SeriesEntry;
  sr_changes : list ChangeEvent;
  sr_timeline : Timeline;
  total_images : nat;
  change_count : nat;
  sr_model_used : string
}.

Inductive Response (A : Type) : Type :=
| Json (payload : A)
| JsonError (status : nat) (error : string).
Arguments Json {A} payload.
Arguments JsonError {A} status error.

(** [f"T{i+1}"] *)
Definition synth_date (i : nat) : string :=
  "T" +++ DecimalString.NilEmpty.string_of_uint (Nat.to_uint (i + 1)).

(** Line 228: the supplied label when present and non-empty. *)
Definition date_label (dates : list string) (i : nat) : string :=
  match nth_error dates i with
  | Some d => if String.eqb d "" then synth_date i else d
  | None => synth_date i
  end.

Definition change_of (prev curr : SeriesEntry) : ChangeEvent :=
  mkChange (se_date prev) (se_date curr) (se_class prev) (se_class curr)
    (se_confidence prev) (se_confidence curr).

(** Lines 246-258: [for i in range(1, len(results))]. *)
Definition detect_changes (results : list SeriesEntry) : list ChangeEvent :=
  flat_map
    (fun i =>
       match nth_error results (i - 1), nth_error results i with
       | Some prev, Some curr =>
           if negb (String.eqb (se_class prev) (se_class curr))
           then [change_of prev curr] else []
       | _, _ => []
       end)
    (seq 1 (List.length results - 1)).

Section Series.
(** Lines 219-225 on upload [i]: [secure_filename] and [file.save] of
    [series_<i>_<name>], then [classifier.predict] on the saved file.
    [Raise] is an exception of the first two; [predict] returns its own
    failures as values. *)
Variable save_and_predict
  : nat -> FileStorage -> string -> result PredictResult.
(** Lines 238-240: [os.remove] of every saved upload that still exists. *)
Variable remove_files : list (nat * FileStorage) -> result unit.

(** Lines 215-235; [filepaths] holds the uploads saved so far. *)
Fixpoint process_files (files : list (nat * FileStorage))
  (model_key : string) (dates : list string) (results : list SeriesEntry)
  (filepaths : list (nat * FileStorage))
  : result (list SeriesEntry * list (nat * FileStorage)) :=
  match files with
  | [] => Ok (results, filepaths)
  | (i, file) :: rest =>
      if (String.eqb (filename file) "" || negb (allowed_file (filename file)))%bool
      then process_files rest model_key dates results filepaths
      else
        result <- save_and_predict i file model_key ;;
        let filepaths := filepaths ++ [(i, file)] in
        match result with
        | Success r =>
            process_files rest model_key dates
              (results ++ [mkEntry i (date_label dates i) (predicted_class r)
                             (confidence r) (probabilities r)])
              filepaths
        | Failure _ => process_files rest model_key dates results filepaths
        end
  end.

Definition enumerate {A} (l : list A) : list (nat * A) :=
  combine (seq 0 (List.length l)) l.

(** The body of the [try] of lines 210-275. *)
Definition series_body (files : list FileStorage) (model_key : string)
  (dates : list string) : result (Response SeriesReport) :=
  processed <- process_files (enumerate files) model_key dates [] [] ;;
  let results := fst processed in
  _ <- remove_files (snd processed) ;;
  if Nat.ltb (List.length results) 2 then
    Ok (JsonError 400 "Could not process enough images")
  else
    let changes := detect_changes results in
    let timeline := mkTimeline (map se_date results)
                      (map se_class results)
                      (map se_confidence results) in
    config <- config_of model_key ;;
    Ok (Json (mkReport results changes timeline (List.length results)
                (List.length changes) (name config))).

Definition analyze_series (request : Request) : Response SeriesReport :=
  match req_images request with
  | None => JsonError 400 "No images provided"
  | Some files =>
      let model_key := match req_model request with
                       | Some m => m
                       | None => "rgb"
                       end in
      let dates := req_dates request in
      if Nat.ltb (List.length files) 2 then
        JsonError 400 "At least 2 images required for time-series analysis"
      else if negb (dict_mem model_key MODEL_CONFIG) then
        JsonError 400 ("Invalid model. Choose from: "
                       +++ String.concat ", " (keys MODEL_CONFIG))
      else
        match series_body files model_key dates with
        | Ok response => response
        | Raise e => JsonError 500 (str e)
        end
  end.
End Series.

(** ** Vocabulary of the statements *)

(** The mapping of lines 138-141 when the network returns [scores]. *)
Definition raw_probabilities (scores : list Q) : dict Q :=
  combine CLASS_NAMES (map (fun v => v * 100) (firstn 10 scores)).

Definition tensor_samples (t : tensor) : list Q := flat_map samples t.

(** The position of the first occurrence of a label. *)
Fixpoint first_index (x : string) (l : list string) : nat :=
  match l with
  | [] => O
  | y :: l' => if String.eqb x y then O else S (first_index x l')
  end.

(** The display name the registry gives a variant. *)
Definition registry_name (key : string) : string :=
  match dict_get key MODEL_CONFIG with
  | Some c => name c
  | None => ""
  end.

(** The keys of [self.models] are the loaded variants of the registry, in
    the order the registry declares them. *)
Definition registry_ordered (self : LandClassifier) : Prop :=
  keys (models self)
  = filter (fun k => dict_mem k (models self)) (keys MODEL_CONFIG).

(** The labels voted by the variants that predict successfully, visiting
    the variants in the order of the registry. *)
Definition votes (open_resized : string -> nat * nat -> result ndarray)
  (self : LandClassifier) (image_path : string) : list string :=
  flat_map (fun k => match predict open_resized self image_path k with
                     | Success r => [predicted_class r]
                     | Failure _ => []
                     end) (keys MODEL_CONFIG).

(** [a[i, j, c]] of a rank-3 array of bytes. *)
Definition at3 (a : list (list (list Z))) (i j c : nat) : option Z :=
  match nth_error a i with
  | Some row => match nth_error row j with
                | Some px => nth_error px c
                | None => None
                end
  | None => None
  end.

Definition byte_range (z : Z) : Prop := (0 <= z <= 255)%Z.

(** The change events read off the adjacent pairs of a series. *)
Fixpoint adjacent_changes (results : list SeriesEntry) : list ChangeEvent :=
  match results with
  | [] => []
  | prev :: rest =>
      match rest with
      | [] => []
      | curr :: _ =>
          (if negb (String.eqb (se_class prev) (se_class curr))
           then [change_of prev curr] else [])
          ++ adjacent_changes rest
      end
  end.

(** [rows] is a grid of [h] rows of [w] cells. *)
Definition grid {A} (h w : nat) (rows : list (list A)) : Prop :=
  List.length rows = h /\ Forall (fun r => List.length r = w) rows.

(** The array has height [h], width [w] and, at rank 3, as many samples per
    pixel as its channel count says. *)
Definition shaped (h w : nat) (a : ndarray) : Prop :=
  match a with
  | Arr2 rows => grid h w rows
  | Arr3 c rows =>
      grid h w rows /\ Forall (Forall (fun p => List.length p = c)) rows
  end.

Definition samples_in (lo hi : Q) (a : ndarray) : Prop :=
  Forall (fun v => lo <= v /\ v <= hi) (samples a).

(** The sources the channel conversion has a branch for: rank 2, or rank 3
    with 1, 3 or 4 channels. *)
Definition convertible (a : ndarray) : Prop :=
  match a with
  | Arr2 _ => True
  | Arr3 c _ => c = 1%nat \/ c = 3%nat \/ c = 4%nat
  end.

(** What loading leaves under a variant whose file is at [p]. *)
Definition load_outcome (os_path_exists : string -> bool)
  (load_model : string -> result Model) (p : string) : option Model :=
  if os_path_exists p then
    match load_model p with
    | Ok m => Some m
    | Raise _ => None
    end
  else None.

Definition is_some {A} (o : option A) : bool :=
  match o with Some _ => true | None => false end.

(** ['.' in s] *)
Fixpoint contains_dot (s : string) : bool :=
  match s with
  | EmptyString => false
  | String c s' => (Ascii.eqb c "."%char || contains_dot s')%bool
  end.

(** An upload the series loop keeps: a non-empty name with an allowed
    extension. *)
Definition usable (file : FileStorage) : bool :=
  (negb (String.eqb (filename file) "") && allowed_file (filename file))%bool.

(** [f"T{i+1}"] read back as a position. *)
Definition position_of_label (label : string) : option nat :=
  match label with
  | String "T" digits =>
      option_map (fun d => Nat.of_uint d - 1)%nat
        (DecimalString.NilEmpty.uint_of_string digits)
  | _ => None
  end.

(** The entry the series loop appends for upload [i], if any. *)
Definition entry_of_upload
  (save_and_predict : nat -> FileStorage -> string -> result PredictResult)
  (model_key : string) (dates : list string) (upload : nat * FileStorage)
  : list SeriesEntry :=
  if usable (snd upload) then
    match save_and_predict (fst upload) (snd upload) model_key with
    | Ok (Success r) =>
        [mkEntry (fst upload) (date_label dates (fst upload))
           (predicted_class r) (confidence r) (probabilities r)]
    | _ => []
    end
  else [].

(** The usable uploads of a series, which the loop saves one by one. *)
Definition saved_uploads (uploads : list (nat * FileStorage))
  : list (nat * FileStorage) :=
  filter (fun u => usable (snd u)) uploads.

(** The text numpy gives an index that is out of bounds. *)
Definition out_of_bounds (i size : nat) : string :=
  "index " +++ decimal i +++ " is out of bounds for axis 0 with size "
  +++ decimal size.

(** The intensity of a byte of the resized map: [k / 255.0]. *)
Definition byte_intensity (k : Z) : spec_float :=
  f64_div (f64_of_Z k) (f64_of_Z 255).

(** The colour ramp in the words of its description, on exact numbers and
    before truncation. *)
Definition ramp_exact (v : Q) : Q * Q * Q :=
  if Qltb v (1 # 2) then (0, 510 * v, 255 - 510 * v)
  else (510 * (v - (1 # 2)), 255 - 510 * (v - (1 # 2)), 0).

(** An integer that lies less than one away from a rational. *)
Definition within_one (c : Z) (x : Q) : Prop := Qabs (inject_Z c - x) < 1.

(** The exponent of the scale at which the values of floats are compared
    as integers: [m * 2 ^ e] is read as [m * 2 ^ (e + f64_scale)]. *)
Definition f64_scale : Z := 1200%Z.

(** [x] is a zero, or a positive float of exponent at least -1074 whose
    value is at most [b * 2 ^ eb]. *)
Definition at_most (b eb : Z) (x : spec_float) : Prop :=
  match x with
  | S754_zero _ => True
  | S754_finite false m e =>
      (-1074 <= e)%Z /\
      (Z.pos m * 2 ^ (e + f64_scale) <= b * 2 ^ (eb + f64_scale))%Z
  | _ => False
  end.

(** A binary64 value between [0.0] and [1.0], bounds included. *)
Definition unit_float (v : spec_float) : Prop :=
  valid_binary 53 1024 v = true /\
  SFleb (f64_of_Z 0) v = true /\ SFleb v (f64_of_Z 1) = true.

Definition is_unit_float (v : spec_float) : bool :=
  valid_binary 53 1024 v && SFleb (f64_of_Z 0) v && SFleb v (f64_of_Z 1).

(** What is checked of the intensity and of the colour of byte [k]: the
    intensity is a float between 0 and 1, it compares with one half as its
    value does, and every channel of the colour is within one of the exact
    ramp. *)
Definition ramp_check (k : Z) : bool :=
  let v := byte_intensity k in
  let x := f64_value v in
  match colorize v, ramp_exact x with
  | Ok (r, g, b), (R, G, B) =>
      is_unit_float v
      && Bool.eqb (SFltb v f64_half) (Qltb x (1 # 2))
      && Qltb (Qabs (inject_Z r - R)) 1 && Qltb (Qabs (inject_Z g - G)) 1
      && Qltb (Qabs (inject_Z b - B)) 1
  | Raise _, _ => false
  end.

(** A pixel of [c] samples that all satisfy [R]. *)
Definition px (c : nat) (R : Q -> Prop) (p : list Q) : Prop :=
  List.length p = c /\ Forall R p.

(** ** Concrete images, networks and classifiers for the examples *)

(** A decoder that yields the same 64x64 array whatever the path. *)
Definition open_const (a : ndarray) : string -> nat * nat -> result ndarray :=
  fun _ _ => Ok a.

Definition rgb_tile (v : Q) : ndarray :=
  Arr3 3 (repeat (repeat [v; v; v] 64) 64).

Definition gray_tile (v : Q) : ndarray := Arr2 (repeat (repeat v 64) 64).

(** Mode LA: luminance and alpha, two samples per pixel. *)
Definition la_tile (v a : Q) : ndarray :=
  Arr3 2 (repeat (repeat [v; a] 64) 64).

(** A network that answers with a fixed score row. *)
Definition const_net (scores : list Q) : Model := fun _ => Ok scores.

(** A network that always raises. *)
Definition broken_net (msg : string) : Model :=
  fun _ => Raise (BackendError msg).

Definition forest_scores : list Q :=
  [1 # 10; 6 # 10; 1 # 10; 0; 0; 1 # 10; 1 # 10; 0; 0; 0].

Definition river_scores : list Q :=
  [0; 1 # 4; 0; 0; 0; 0; 0; 0; 3 # 4; 0].

(** Scores of a network without a normalising last layer. *)
Definition half_scores : list Q := [1 # 2; 0; 0; 0; 0; 0; 0; 0; 0; 0].

(** Two classes tie for the largest score. *)
Definition tie_scores : list Q :=
  [1 # 10; 3 # 10; 0; 3 # 10; 1 # 10; 1 # 10; 1 # 10; 0; 0; 0].

Definition rgb_only (scores : list Q) : LandClassifier :=
  mkClassifier "." [("rgb", const_net scores)].

(** A disk that holds the RGB model file only. *)
Definition disk_rgb_only (p : string) : bool :=
  String.eqb p "./model_rgb_v0.h5".

(** A disk that holds every model file. *)
Definition disk_full (p : string) : bool := true.

(** A loader that gives the NDVI file a network of its own. *)
Definition load_by_path (p : string) : result Model :=
  if String.eqb p "./model_NDVI_v2.h5" then Ok (const_net river_scores)
  else Ok (const_net forest_scores).

(** A series classifier that answers by upload position: forest first,
    river second. *)
Definition predict_by_position (i : nat) (file : FileStorage)
  (model_key : string) : result PredictResult :=
  if Nat.eqb i 0
  then Ok (Success (mkPrediction "Forest" 60 [("Forest", 60); ("River", 40)]
                      "RGB Model"))
  else Ok (Success (mkPrediction "River" 75 [("River", 75); ("Forest", 25)]
                      "RGB Model")).

(** An upload folder that is full: saving any upload fails. *)
Definition disk_is_full (i : nat) (file : FileStorage) (model_key : string)
  : result PredictResult :=
  Raise (OSError "[Errno 28] No space left on device").

(** Removing the saved uploads goes well. *)
Definition remove_all (saved : list (nat * FileStorage)) : result unit :=
  Ok tt.

(** The quantisation of a map whose scaled samples are whole numbers, for
    which no rounding occurs. *)
Definition truncate_scaled (heatmap : list (list Q)) : list (list Z) :=
  map_px (fun v => uint8 (py_int (255 * v))) heatmap.

(** A classifier whose RGB network raises with the text [predict] uses for
    a variant that is not loaded. *)
Definition rgb_misreporting : LandClassifier :=
  mkClassifier "." [("rgb", broken_net (not_loaded "rgb"))].

Definition two_uploads : Request :=
  mkRequest (Some [mkFile "may.png" "bytes"; mkFile "june.png" "bytes"])
    None ["2024-05"].

(** A 16-bit grayscale scene, as PIL decodes a 16-bit TIFF or PNG. *)
Definition deep_tile : ndarray := gray_tile 65535.

(** A nearly black 8-bit tile: its brightest sample is 1. *)
Definition dark_tile : ndarray := gray_tile 1.

(** A resampler that leaves a 64x64 map as it is, as PIL does when the
    requested size is the size the image already has. *)
Definition resize_same (img : list (list Z)) : list (list Z) := img.

Definition open_rgb_const (a : list (list (list Z)))
  : string -> result (list (list (list Z))) := fun _ => Ok a.

Definition gray_bytes (v : Z) : list (list (list Z)) :=
  repeat (repeat [v; v; v] 64) 64.

(** One usable upload and one with a refused extension. *)
Definition one_good_upload : Request :=
  mkRequest (Some [mkFile "may.png" "bytes"; mkFile "notes.txt" "bytes"])
    (Some "ndvi") [].
(** * Properties *)

(** ** Dictionaries *)

Section DictFacts.
Context {V : Type}.
Implicit Types (d : dict V) (k : string) (v : V).

Lemma dict_get_in d k v : dict_get k d = Some v -> In (k, v) d.
Proof.
  induction d as [|[k' v'] d IH]; simpl; [discriminate|].
  destruct (String.eqb_spec k k') as [->|Hne].
  - intros [= ->]. now left.
  - intros H. right. now apply IH.
Qed.

Lemma dict_get_none d k : dict_get k d = None <-> ~ In k (keys d).
Proof.
  induction d as [|[k' v'] d IH]; simpl.
  - tauto.
  - destruct (String.eqb_spec k k') as [->|Hne].
    + split; [discriminate | intros H; exfalso; apply H; now left].
    + rewrite IH. split; intros H; [intros [E|HI]; [congruence|tauto] | tauto].
Qed.

Lemma dict_mem_keys d k : dict_mem k d = true <-> In k (keys d).
Proof.
  unfold dict_mem. destruct (dict_get k d) eqn:E.
  - split; [intros _ | reflexivity].
    apply dict_get_in in E. now apply (in_map fst) in E.
  - split; [discriminate|]. intros H. now apply dict_get_none in E.
Qed.

Lemma dict_get_nodup d k v :
  NoDup (keys d) -> In (k, v) d -> dict_get k d = Some v.
Proof.
  induction d as [|[k' v'] d IH]; simpl; [tauto|].
  intros Hnd [E|HI].
  - injection E as -> ->. now rewrite String.eqb_refl.
  - inversion_clear Hnd as [|? ? Hni Hnd'].
    destruct (String.eqb_spec k k') as [->|Hne].
    + exfalso. apply Hni. now apply (in_map fst) in HI.
    + now apply IH.
Qed.

Lemma dict_set_fresh d k v :
  ~ In k (keys d) -> dict_set k v d = d ++ [(k, v)].
Proof.
  induction d as [|[k' v'] d IH]; simpl; [reflexivity|].
  intros H. destruct (String.eqb_spec k k') as [->|Hne].
  - exfalso. apply H. now left.
  - f_equal. apply IH. tauto.
Qed.

Lemma keys_dict_set d k v :
  keys (dict_set k v d) = if dict_mem k d then keys d else keys d ++ [k].
Proof.
  unfold dict_mem.
  induction d as [|[k' v'] d IH]; simpl; [reflexivity|].
  destruct (String.eqb_spec k k') as [->|Hne]; simpl; [reflexivity|].
  rewrite IH. now destruct (dict_get k d).
Qed.

Lemma dict_get_set_same d k v : dict_get k (dict_set k v d) = Some v.
Proof.
  induction d as [|[k' v'] d IH]; simpl.
  - now rewrite String.eqb_refl.
  - destruct (String.eqb_spec k k') as [->|Hne]; simpl.
    + now rewrite String.eqb_refl.
    + destruct (String.eqb_spec k k'); [congruence | exact IH].
Qed.

Lemma dict_get_set_other d k k' v :
  k' <> k -> dict_get k' (dict_set k v d) = dict_get k' d.
Proof.
  intros Hne.
  induction d as [|[k0 v0] d IH]; simpl.
  - destruct (String.eqb_spec k' k); [congruence | reflexivity].
  - destruct (String.eqb_spec k k0) as [->|Hne0]; simpl.
    + destruct (String.eqb_spec k' k0); [congruence | reflexivity].
    + now rewrite IH.
Qed.

Lemma dict_of_items_app (items acc : list (string * V)) :
  NoDup (keys (acc ++ items)) ->
  fold_left (fun d kv => dict_set (fst kv) (snd kv) d) items acc
  = acc ++ items.
Proof.
  revert acc. induction items as [|[k v] items IH]; intros acc Hnd; simpl.
  - now rewrite app_nil_r.
  - rewrite dict_set_fresh.
    + rewrite IH; rewrite <- app_assoc; [reflexivity | exact Hnd].
    + unfold keys in Hnd. rewrite map_app in Hnd. simpl in Hnd.
      apply NoDup_remove_2 in Hnd. intros HI. apply Hnd.
      apply in_or_app. now left.
Qed.

Lemma dict_of_items_nodup (items : list (string * V)) :
  NoDup (keys items) -> dict_of_items items = items.
Proof. intros H. unfold dict_of_items. now rewrite dict_of_items_app. Qed.
End DictFacts.

(** ** [max] and [sorted] *)

Section OrderFacts.
Context {A K : Type} (ltb : K -> K -> bool) (key : A -> K).

Local Abbreviation pmax := (py_max_from ltb key).
Local Abbreviation ins := (insert_desc ltb key).

Lemma insert_desc_perm x l : Permutation (ins x l) (x :: l).
Proof.
  induction l as [|y l IH]; simpl; [reflexivity|].
  destruct (ltb (key y) (key x)); [reflexivity|].
  rewrite IH. apply perm_swap.
Qed.

Lemma sorted_fold_perm l acc :
  Permutation (fold_left (fun a x => ins x a) l acc) (acc ++ l).
Proof.
  revert acc. induction l as [|x l IH]; intros acc; simpl.
  - now rewrite app_nil_r.
  - etransitivity; [apply IH|].
    etransitivity; [apply Permutation_app_tail, insert_desc_perm|].
    simpl. apply Permutation_middle.
Qed.

Lemma sorted_desc_perm l : Permutation (sorted_desc ltb key l) l.
Proof. unfold sorted_desc. apply (sorted_fold_perm l []). Qed.

(** The head of the running sorted list follows the running maximum. *)
Lemma sorted_fold_head l h t :
  exists t', fold_left (fun a x => ins x a) l (h :: t) = pmax h l :: t'.
Proof.
  revert h t. induction l as [|x l IH]; intros h t; simpl.
  - now exists t.
  - destruct (ltb (key h) (key x)); apply IH.
Qed.

Lemma sorted_desc_head x l :
  exists t, sorted_desc ltb key (x :: l) = pmax x l :: t.
Proof. unfold sorted_desc. simpl. apply sorted_fold_head. Qed.

(** [max] commutes with a projection that preserves the keys. *)
Lemma py_max_from_map {B} (key' : B -> K) (f : A -> B) l b :
  Forall (fun x => key' (f x) = key x) (b :: l) ->
  py_max_from ltb key' (f b) (map f l) = f (pmax b l).
Proof.
  revert b. induction l as [|x l IH]; intros b H; simpl; [reflexivity|].
  inversion_clear H as [|? ? Hb Hl]. inversion Hl as [|? ? Hx Hl']; subst.
  rewrite Hb, Hx. destruct (ltb (key b) (key x)); apply IH;
    now constructor.
Qed.

Hypothesis ltb_irrefl : forall a, ltb a a = false.
Hypothesis ltb_trans :
  forall a b c, ltb a b = true -> ltb b c = true -> ltb a c = true.
Hypothesis ltb_cotrans :
  forall a b c, ltb a c = true -> ltb a b = true \/ ltb b c = true.

(** [max] returns the first element of maximal key: everything before it
    is strictly smaller, nothing after it is strictly larger. *)
Lemma py_max_from_split l b :
  exists l1 l2,
    b :: l = l1 ++ pmax b l :: l2 /\
    Forall (fun x => ltb (key x) (key (pmax b l)) = true) l1 /\
    Forall (fun x => ltb (key (pmax b l)) (key x) = false) l2.
Proof.
  revert b. induction l as [|x l IH]; intros b; simpl.
  - exists [], []. repeat split; constructor.
  - destruct (ltb (key b) (key x)) eqn:E.
    + destruct (IH x) as (l1 & l2 & Heq & H1 & H2).
      exists (b :: l1), l2. split; [simpl; f_equal; exact Heq|].
      split; [|exact H2]. constructor; [|exact H1].
      destruct l1 as [|y l1]; simpl in Heq.
      * injection Heq as Hx _. now rewrite <- Hx.
      * injection Heq as Hx _. subst y. inversion_clear H1.
        eapply ltb_trans; eassumption.
    + destruct (IH b) as (l1 & l2 & Heq & H1 & H2).
      destruct l1 as [|y l1]; simpl in Heq.
      * injection Heq as Hb Hl. exists [], (x :: l2).
        split; [simpl; now rewrite <- Hb, <- Hl|].
        split; [constructor|]. constructor; [|exact H2].
        now rewrite <- Hb.
      * injection Heq as Hy Hl. subst y.
        exists (b :: x :: l1), l2.
        split; [simpl; do 2 f_equal; exact Hl|]. split; [|exact H2].
        inversion_clear H1 as [|? ? Hb Hl1].
        constructor; [exact Hb|]. constructor; [|exact Hl1].
        destruct (ltb_cotrans _ (key x) _ Hb) as [C|C]; [congruence|exact C].
Qed.

Lemma py_max_from_in l b : In (pmax b l) (b :: l).
Proof.
  destruct (py_max_from_split l b) as (l1 & l2 & Heq & _).
  rewrite Heq. apply in_or_app. right. now left.
Qed.

Lemma py_max_from_ge l b x :
  In x (b :: l) -> ltb (key (pmax b l)) (key x) = false.
Proof.
  destruct (py_max_from_split l b) as (l1 & l2 & Heq & H1 & H2).
  rewrite Heq. intros HI. apply in_app_or in HI as [HI|[<-|HI]].
  - rewrite Forall_forall in H1. specialize (H1 _ HI).
    destruct (ltb (key (pmax b l)) (key x)) eqn:E; [|reflexivity].
    pose proof (ltb_trans _ _ _ H1 E) as C. now rewrite ltb_irrefl in C.
  - apply ltb_irrefl.
  - rewrite Forall_forall in H2. now apply H2.
Qed.


Lemma insert_desc_sorted x l :
  StronglySorted (desc ltb key) l -> StronglySorted (desc ltb key) (ins x l).
Proof.
  induction l as [|y l IH]; intros Hs; simpl.
  - repeat constructor.
  - inversion_clear Hs as [|? ? Hs' Hy].
    destruct (ltb (key y) (key x)) eqn:E.
    + constructor; [now constructor|].
      assert (Hxy : desc ltb key x y).
      { unfold desc. destruct (ltb (key x) (key y)) eqn:E'; [|reflexivity].
        pose proof (ltb_trans _ _ _ E' E) as C. now rewrite ltb_irrefl in C. }
      constructor; [exact Hxy|].
      rewrite Forall_forall in Hy |- *. intros z Hz. specialize (Hy _ Hz).
      unfold desc in *. destruct (ltb (key x) (key z)) eqn:E'; [|reflexivity].
      destruct (ltb_cotrans _ (key y) _ E') as [C|C]; congruence.
    + constructor; [now apply IH|].
      rewrite Forall_forall in Hy |- *. intros z Hz.
      apply (Permutation_in _ (insert_desc_perm x l)) in Hz.
      destruct Hz as [<-|Hz]; [exact E | now apply Hy].
Qed.

Lemma sorted_desc_sorted l : StronglySorted (desc ltb key) (sorted_desc ltb key l).
Proof.
  unfold sorted_desc.
  assert (H : forall acc, StronglySorted (desc ltb key) acc ->
            StronglySorted (desc ltb key) (fold_left (fun a x => ins x a) l acc)).
  { induction l as [|x l IH]; intros acc Hs; simpl; [exact Hs|].
    apply IH. now apply insert_desc_sorted. }
  apply H. constructor.
Qed.
End OrderFacts.

Lemma Qltb_lt x y : Qltb x y = true <-> x < y.
Proof.
  unfold Qltb. rewrite Qlt_alt. destruct (x ?= y); split; congruence.
Qed.

Lemma Qltb_ge x y : Qltb x y = false <-> y <= x.
Proof.
  unfold Qltb. rewrite Qle_alt, <- (Qcompare_antisym x y).
  destruct (x ?= y); simpl; split; congruence.
Qed.

Lemma Qltb_irrefl a : Qltb a a = false.
Proof. apply Qltb_ge. apply Qle_refl. Qed.

Lemma Qltb_trans a b c : Qltb a b = true -> Qltb b c = true -> Qltb a c = true.
Proof. rewrite !Qltb_lt. apply Qlt_trans. Qed.

Lemma Qltb_cotrans a b c :
  Qltb a c = true -> Qltb a b = true \/ Qltb b c = true.
Proof.
  rewrite !Qltb_lt. intros H.
  destruct (Qlt_le_dec a b) as [L|L]; [now left|right].
  eapply Qle_lt_trans; eassumption.
Qed.

Lemma nat_ltb_cotrans a b c :
  Nat.ltb a c = true -> Nat.ltb a b = true \/ Nat.ltb b c = true.
Proof. rewrite !Nat.ltb_lt. lia. Qed.

Lemma nat_ltb_trans a b c :
  Nat.ltb a b = true -> Nat.ltb b c = true -> Nat.ltb a c = true.
Proof. rewrite !Nat.ltb_lt. lia. Qed.

Lemma StronglySorted_impl {A} (R R' : A -> A -> Prop) l :
  (forall a b, R a b -> R' a b) -> StronglySorted R l -> StronglySorted R' l.
Proof.
  intros HR. induction 1 as [|a l _ IH Hall]; constructor; [exact IH|].
  eapply Forall_impl; [|exact Hall]. apply HR.
Qed.

Lemma NoDup_app_disjoint {A} (l1 l2 : list A) x :
  NoDup (l1 ++ l2) -> In x l1 -> In x l2 -> False.
Proof.
  induction l1 as [|y l1 IH]; simpl; [tauto|].
  intros Hnd [->|H1] H2; inversion_clear Hnd as [|? ? Hn Hnd'].
  - apply Hn. apply in_or_app. now right.
  - now apply IH.
Qed.

Lemma StronglySorted_app_r {A} (R : A -> A -> Prop) l1 l2 :
  StronglySorted R (l1 ++ l2) -> StronglySorted R l2.
Proof.
  induction l1 as [|a l1 IH]; simpl; [tauto|].
  intros H. apply IH. now inversion H.
Qed.

(** ** [predict] *)

Lemma nth_error_skipn_cons {A} (l : list A) i v :
  nth_error l i = Some v -> skipn i l = v :: skipn (S i) l.
Proof.
  revert l. induction i as [|i IH]; intros [|x l]; simpl; try discriminate.
  - now intros [= ->].
  - apply IH.
Qed.

Lemma keys_combine {V} (ks : list string) (vs : list V) :
  List.length ks = List.length vs -> keys (combine ks vs) = ks.
Proof.
  revert vs. induction ks as [|k ks IH]; intros [|v vs]; simpl;
    try discriminate; [reflexivity|].
  intros [= H]. f_equal. now apply IH.
Qed.

Lemma class_probabilities_ok preds names i acc d :
  NoDup (keys acc ++ names) ->
  class_probabilities preds names i acc = Ok d ->
  let vs := firstn (List.length names) (skipn i preds) in
  d = acc ++ combine names (map (fun v => v * 100) vs) /\
  List.length vs = List.length names.
Proof.
  revert i acc. induction names as [|c names IH]; intros i acc Hnd; simpl.
  - intros [= <-]. now rewrite app_nil_r.
  - unfold index. destruct (nth_error preds i) as [v|] eqn:E; simpl;
      [|discriminate].
    intros H. apply IH in H.
    + cbv zeta in H. destruct H as [Hd Hlen].
      rewrite (nth_error_skipn_cons _ _ _ E). cbn [firstn map combine List.length].
      split; [|now rewrite Hlen].
      rewrite Hd, dict_set_fresh, <- app_assoc; [reflexivity|].
      apply NoDup_remove_2 in Hnd. intros HI. apply Hnd.
      apply in_or_app. now left.
    + rewrite keys_dict_set.
      destruct (dict_mem c acc) eqn:Em.
      * apply dict_mem_keys in Em. apply NoDup_remove_2 in Hnd.
        exfalso. apply Hnd. apply in_or_app. now left.
      * rewrite <- app_assoc. exact Hnd.
Qed.

Lemma NoDup_CLASS_NAMES : NoDup CLASS_NAMES.
Proof.
  unfold CLASS_NAMES.
  repeat (constructor; [simpl; intuition discriminate|]). constructor.
Qed.

Lemma class_probabilities_raw scores d :
  class_probabilities scores CLASS_NAMES 0 [] = Ok d ->
  d = raw_probabilities scores /\ (10 <= List.length scores)%nat.
Proof.
  intros H. apply class_probabilities_ok in H; [|apply NoDup_CLASS_NAMES].
  cbv zeta in H. change (List.length CLASS_NAMES) with 10%nat in H.
  change (skipn 0 scores) with scores in H. destruct H as [Hd Hlen].
  split; [exact Hd | rewrite length_firstn in Hlen; lia].
Qed.

Lemma keys_raw_probabilities scores :
  (10 <= List.length scores)%nat -> keys (raw_probabilities scores) = CLASS_NAMES.
Proof.
  intros H. unfold raw_probabilities. apply keys_combine.
  rewrite length_map, length_firstn.
  change (List.length CLASS_NAMES) with 10%nat. lia.
Qed.

Lemma values_raw_probabilities scores :
  (10 <= List.length scores)%nat ->
  values (raw_probabilities scores) = map (fun v => v * 100) (firstn 10 scores).
Proof.
  intros H. unfold raw_probabilities, values.
  assert (L : List.length (firstn 10 scores) = 10%nat)
    by (rewrite length_firstn; lia).
  destruct (firstn 10 scores) as [|s0 [|s1 [|s2 [|s3 [|s4 [|s5 [|s6 [|s7
    [|s8 [|s9 [|]]]]]]]]]]]; try discriminate. reflexivity.
Qed.

(** What a successful run of the [try] block returns. *)
Lemma predict_body_inv open_resized model path key p :
  predict_body open_resized model path key = Ok p ->
  exists t scores cfg m,
    preprocess_image open_resized path key = Ok t /\
    model t = Ok scores /\
    (10 <= List.length scores)%nat /\
    config_of key = Ok cfg /\
    py_max Qltb snd (raw_probabilities scores) = Some m /\
    p = mkPrediction (fst m) (py_round (snd m) 2)
          (sorted_desc Qltb snd (raw_probabilities scores)) (name cfg).
Proof.
  unfold predict_body.
  destruct (preprocess_image open_resized path key) as [t|] eqn:Et;
    cbn [bind]; [|discriminate].
  destruct (model t) as [scores|] eqn:Es; cbn [bind]; [|discriminate].
  destruct (class_probabilities scores CLASS_NAMES 0 []) as [d|] eqn:Ed;
    cbn [bind]; [|discriminate].
  apply class_probabilities_raw in Ed as [-> Hlen].
  pose proof (keys_raw_probabilities _ Hlen) as Hk.
  assert (Hnd : NoDup (keys (raw_probabilities scores)))
    by (rewrite Hk; apply NoDup_CLASS_NAMES).
  destruct (raw_probabilities scores) as [|x l] eqn:Er; [discriminate Hk|].
  change (keys (x :: l)) with (map fst (x :: l)) in *. cbn [map py_max].
  rewrite (py_max_from_map Qltb snd (dict_get_or (x :: l) 0) fst l x).
  2:{ rewrite Forall_forall. intros [k v] HI. unfold dict_get_or. cbn [fst snd].
      now rewrite (dict_get_nodup _ _ _ Hnd HI). }
  cbn [bind]. unfold dict_item.
  set (m := py_max_from Qltb snd x l).
  assert (Hm : In m (x :: l)).
  { apply py_max_from_in; [exact Qltb_trans | exact Qltb_cotrans]. }
  destruct m as [k v] eqn:Em. cbn [fst snd].
  rewrite (dict_get_nodup _ _ _ Hnd Hm). cbn [bind fst].
  destruct (config_of key) as [cfg|] eqn:Ec; cbn [bind]; [|discriminate].
  intros [= <-]. exists t, scores, cfg, (k, v). repeat split; try assumption.
  - rewrite Er. cbn [py_max]. now rewrite <- Em.
  - rewrite Er, dict_of_items_nodup; [reflexivity|].
    eapply Permutation_NoDup; [|exact Hnd].
    apply Permutation_map. symmetry. apply sorted_desc_perm.
Qed.

Lemma predict_success_inv open_resized self path key p :
  predict open_resized self path key = Success p ->
  exists model,
    dict_get key (models self) = Some model /\
    predict_body open_resized model path key = Ok p.
Proof.
  unfold predict. destruct (dict_get key (models self)) as [model|];
    [|discriminate].
  destruct (predict_body open_resized model path key) eqn:E; [|discriminate].
  intros [= <-]. now exists model.
Qed.

Lemma qsum_perm l l' : Permutation l l' -> qsum l == qsum l'.
Proof.
  induction 1 as [|x l l' _ IH|x y l|l l' l'' _ IH1 _ IH2]; simpl.
  - reflexivity.
  - now rewrite IH.
  - ring.
  - now rewrite IH1.
Qed.

Lemma qsum_scale c l : qsum (map (fun v => v * c) l) == c * qsum l.
Proof.
  induction l as [|x l IH]; simpl; [ring|]. rewrite IH. ring.
Qed.

Lemma near_100_iff s :
  Qabs (100 * s - 100) <= 1 # 100 <-> Qabs (s - 1) <= 1 # 10000.
Proof. rewrite !Qabs_Qle_condition. split; intros [H1 H2]; split; lra. Qed.

(** C1, as amended.  A successful prediction carries every class label
    exactly once and nothing else; its values are the first ten scores of
    the network times 100, so they add up to 100 times the sum of those
    scores, and they lie within 0.01 of 100 exactly when the scores lie
    within 0.0001 of 1.  [predict] itself does not normalise. *)
Theorem predict_probability_mapping open_resized self path key p :
  predict open_resized self path key = Success p ->
  Permutation (keys (probabilities p)) CLASS_NAMES /\
  NoDup (keys (probabilities p)) /\
  exists model t scores,
    dict_get key (models self) = Some model /\
    preprocess_image open_resized path key = Ok t /\
    model t = Ok scores /\
    Permutation (values (probabilities p))
      (map (fun v => v * 100) (firstn 10 scores)) /\
    qsum (values (probabilities p)) == 100 * qsum (firstn 10 scores) /\
    (Qabs (qsum (values (probabilities p)) - 100) <= 1 # 100 <->
     Qabs (qsum (firstn 10 scores) - 1) <= 1 # 10000).
Proof.
  intros H. apply predict_success_inv in H as (model & Hm & H).
  apply predict_body_inv in H
    as (t & scores & cfg & m & Ht & Hs & Hlen & _ & _ & ->).
  cbn [probabilities].
  assert (Hp : Permutation (sorted_desc Qltb snd (raw_probabilities scores))
                 (raw_probabilities scores)) by apply sorted_desc_perm.
  assert (Hk : Permutation
                 (keys (sorted_desc Qltb snd (raw_probabilities scores)))
                 CLASS_NAMES).
  { rewrite <- (keys_raw_probabilities scores Hlen).
    now apply Permutation_map. }
  assert (Hv : Permutation
                 (values (sorted_desc Qltb snd (raw_probabilities scores)))
                 (map (fun v => v * 100) (firstn 10 scores))).
  { rewrite <- (values_raw_probabilities scores Hlen).
    now apply Permutation_map. }
  assert (Hsum : qsum (values (sorted_desc Qltb snd (raw_probabilities scores)))
                 == 100 * qsum (firstn 10 scores)).
  { rewrite (qsum_perm _ _ Hv). apply qsum_scale. }
  split; [exact Hk|]. split.
  - eapply Permutation_NoDup; [symmetry; exact Hk | apply NoDup_CLASS_NAMES].
  - exists model, t, scores. repeat split; try assumption.
    + intros H. apply near_100_iff. now rewrite <- Hsum.
    + intros H. rewrite Hsum. now apply near_100_iff.
Qed.

Lemma predict_probability_mapping_witness :
  exists p,
    predict (open_const (rgb_tile 128)) (rgb_only forest_scores)
      "tile.png" "rgb" = Success p /\
    Permutation (keys (probabilities p)) CLASS_NAMES /\
    qsum (values (probabilities p)) == 100.
Proof.
  assert (H : exists p, predict (open_const (rgb_tile 128))
                          (rgb_only forest_scores) "tile.png" "rgb"
                        = Success p)
    by (eexists; vm_compute; reflexivity).
  destruct H as [p H]. exists p. split; [exact H|].
  destruct (predict_probability_mapping _ _ _ _ _ H)
    as (Hk & _ & model & t & scores & Hm & _ & Hs & _ & Hsum & _).
  split; [exact Hk|]. rewrite Hsum.
  cbn in Hm. injection Hm as <-. cbv in Hs. injection Hs as <-.
  vm_compute. reflexivity.
Defined.

(** C1, as stated, fails: a loaded network whose scores do not add up to 1
    yields a successful prediction whose values add up to 50. *)
Lemma predict_sum_counterexample :
  exists p,
    predict (open_const (rgb_tile 128)) (rgb_only half_scores)
      "tile.png" "rgb" = Success p /\
    ~ Qabs (qsum (values (probabilities p)) - 100) <= 1 # 100.
Proof.
  eexists. split; [vm_compute; reflexivity|].
  vm_compute. intros H. apply H. reflexivity.
Qed.

Lemma first_index_app x l1 l :
  ~ In x l1 -> first_index x (l1 ++ l) = (List.length l1 + first_index x l)%nat.
Proof.
  induction l1 as [|y l1 IH]; simpl; [reflexivity|].
  intros H. destruct (String.eqb_spec x y) as [->|_]; [tauto|].
  rewrite IH; tauto.
Qed.

Lemma first_index_head x l : first_index x (x :: l) = O.
Proof. simpl. now rewrite String.eqb_refl. Qed.

Lemma first_index_tail x y l :
  x <> y -> first_index x (y :: l) = S (first_index x l).
Proof. intros H. simpl. now destruct (String.eqb_spec x y). Qed.

(** C10.  In a successful prediction the predicted label is the first key
    of the mapping sorted by descending value, the confidence is that first
    value rounded to two decimals, and the mapping holds the unrounded
    hundredfold scores.  No value exceeds the first one, and among the
    labels that reach it the predicted one comes first in [CLASS_NAMES]:
    [max] and the stable [sorted] break ties the same way. *)
Theorem predict_top_is_sorted_head open_resized self path key p :
  predict open_resized self path key = Success p ->
  exists v rest model t scores,
    probabilities p = (predicted_class p, v) :: rest /\
    confidence p = py_round v 2 /\
    dict_get key (models self) = Some model /\
    preprocess_image open_resized path key = Ok t /\
    model t = Ok scores /\
    Permutation (probabilities p) (raw_probabilities scores) /\
    StronglySorted (fun a b => snd b <= snd a) (probabilities p) /\
    forall l q, In (l, q) (probabilities p) ->
      q <= v /\
      (q == v -> (first_index (predicted_class p) CLASS_NAMES
                  <= first_index l CLASS_NAMES)%nat).
Proof.
  intros H. apply predict_success_inv in H as (model & Hm & H).
  apply predict_body_inv in H
    as (t & scores & cfg & m & Ht & Hs & Hlen & _ & Hmax & ->).
  cbn [probabilities predicted_class confidence].
  pose proof (keys_raw_probabilities _ Hlen) as Hk.
  pose proof NoDup_CLASS_NAMES as Hnd. rewrite <- Hk in Hnd.
  pose proof (sorted_desc_perm Qltb snd (raw_probabilities scores)) as Hp.
  pose proof (sorted_desc_sorted Qltb snd Qltb_irrefl Qltb_trans Qltb_cotrans
                (raw_probabilities scores)) as Hsorted.
  destruct (raw_probabilities scores) as [|x raw] eqn:Er; [discriminate|].
  cbn [py_max] in Hmax. injection Hmax as Hmax.
  destruct (sorted_desc_head Qltb snd x raw) as [rest Hhead].
  rewrite Hmax in Hhead.
  destruct (py_max_from_split Qltb snd Qltb_trans Qltb_cotrans raw x)
    as (l1 & l2 & Hsplit & Hlt & Hge).
  rewrite Hmax in Hsplit, Hlt, Hge.
  exists (snd m), rest, model, t, scores. rewrite Er.
  split; [rewrite Hhead; now destruct m|].
  repeat (split; [assumption || reflexivity|]).
  split.
  { eapply StronglySorted_impl; [|exact Hsorted].
    intros a b Hab. now apply Qltb_ge. }
  intros l q HI. apply (Permutation_in _ Hp) in HI.
  rewrite Hsplit in HI, Hnd. unfold keys in Hnd, Hk.
  rewrite Hsplit in Hk. rewrite map_app in Hnd, Hk. cbn [map] in Hnd, Hk.
  rewrite Forall_forall in Hlt, Hge.
  assert (Hfresh : ~ In (fst m) (map fst l1)).
  { pose proof (NoDup_remove_2 _ _ _ Hnd) as Hn. intros C. apply Hn.
    apply in_or_app. now left. }
  rewrite <- Hk, (first_index_app _ _ _ Hfresh), first_index_head.
  apply in_app_or in HI as [HI|[HI|HI]].
  - specialize (Hlt _ HI). apply Qltb_lt in Hlt. cbn [snd] in Hlt.
    split; [now apply Qlt_le_weak|].
    intros E. rewrite E in Hlt. now apply Qlt_irrefl in Hlt.
  - rewrite HI in Hfresh |- *. cbn [fst snd] in Hfresh |- *.
    split; [apply Qle_refl|]. intros _.
    rewrite (first_index_app _ _ _ Hfresh), first_index_head. lia.
  - specialize (Hge _ HI). apply Qltb_ge in Hge. cbn [snd] in Hge.
    split; [exact Hge|]. intros _.
    assert (Hl : In l (map fst l2)) by (now apply (in_map fst) in HI).
    assert (Hl1 : ~ In l (map fst l1)).
    { intros C. apply (NoDup_app_disjoint _ _ l Hnd C). now right. }
    rewrite (first_index_app _ _ _ Hl1). lia.
Qed.

Lemma predict_top_is_sorted_head_witness :
  exists p v rest,
    predict (open_const (rgb_tile 128)) (rgb_only tie_scores)
      "tile.png" "rgb" = Success p /\
    probabilities p = (predicted_class p, v) :: rest /\
    confidence p = py_round v 2 /\
    predicted_class p = "Forest".
Proof.
  assert (H : exists p, predict (open_const (rgb_tile 128))
                          (rgb_only tie_scores) "tile.png" "rgb" = Success p
                        /\ predicted_class p = "Forest")
    by (eexists; split; vm_compute; reflexivity).
  destruct H as (p & H & Hcls).
  destruct (predict_top_is_sorted_head _ _ _ _ _ H)
    as (v & rest & _ & _ & _ & Hhead & Hconf & _).
  exists p, v, rest. repeat split; assumption.
Defined.

(** ** [get_available_models] against [predict] *)

Lemma get_available_models_eq self :
  get_available_models self
  = map (fun kc => mkInfo (fst kc) (name (snd kc)) (description (snd kc))
                     (dict_mem (fst kc) (models self))) MODEL_CONFIG.
Proof. reflexivity. Qed.

Lemma predict_not_loaded open_resized self path key :
  dict_mem key (models self) = false ->
  predict open_resized self path key = Failure (not_loaded key).
Proof.
  unfold dict_mem, predict.
  now destruct (dict_get key (models self)).
Qed.

Lemma predict_loaded open_resized self path key :
  dict_mem key (models self) = true ->
  exists model,
    dict_get key (models self) = Some model /\
    predict open_resized self path key
    = match predict_body open_resized model path key with
      | Ok p => Success p
      | Raise e => Failure (str e)
      end.
Proof.
  unfold dict_mem, predict.
  destruct (dict_get key (models self)) as [model|]; [|discriminate].
  intros _. now exists model.
Qed.


(** ** [Counter] and [most_common] *)

Lemma first_index_app_in x l l' :
  In x l -> first_index x (l ++ l') = first_index x l.
Proof.
  induction l as [|y l IH]; simpl; [tauto|].
  intros H. destruct (String.eqb_spec x y) as [_|Hne]; [reflexivity|].
  f_equal. apply IH. destruct H as [E|H]; [congruence|exact H].
Qed.

Lemma first_index_lt x l : In x l -> (first_index x l < List.length l)%nat.
Proof.
  induction l as [|y l IH]; simpl; [tauto|].
  intros H. destruct (String.eqb_spec x y) as [_|Hne]; [lia|].
  destruct H as [E|H]; [congruence|]. specialize (IH H). lia.
Qed.

Lemma StronglySorted_snoc {A} (R : A -> A -> Prop) l x :
  StronglySorted R l -> Forall (fun a => R a x) l ->
  StronglySorted R (l ++ [x]).
Proof.
  induction 1 as [|a l Hs IH Hall]; intros Hx; simpl.
  - repeat constructor.
  - inversion_clear Hx as [|? ? Hax Hlx]. constructor; [now apply IH|].
    apply Forall_app. split; [exact Hall | now constructor].
Qed.

Lemma NoDup_snoc {A} (l : list A) x : NoDup l -> ~ In x l -> NoDup (l ++ [x]).
Proof.
  intros Hnd Hx. apply (Permutation_NoDup (l := x :: l)).
  - change (x :: l) with ([x] ++ l). apply Permutation_app_comm.
  - now constructor.
Qed.

Lemma list_count_snoc x y l :
  list_count x (l ++ [y])
  = (list_count x l + if String.eqb x y then 1 else 0)%nat.
Proof.
  unfold list_count. rewrite count_occ_app. simpl.
  destruct (string_dec y x) as [->|Hne].
  - now rewrite String.eqb_refl.
  - destruct (String.eqb_spec x y); [congruence|reflexivity].
Qed.

Lemma list_count_pos x l : In x l <-> (0 < list_count x l)%nat.
Proof. unfold list_count. apply count_occ_In. Qed.

Lemma Counter_snoc l x :
  Counter (l ++ [x])
  = dict_set x (S (dict_get_or (Counter l) O x)) (Counter l).
Proof. unfold Counter. now rewrite fold_left_app. Qed.

(** The counter lists each label of [l] once, in the order of first
    appearance, with the number of its occurrences. *)
Lemma Counter_spec l :
  NoDup (keys (Counter l)) /\
  (forall x, dict_get x (Counter l)
             = if Nat.eqb (list_count x l) 0 then None
               else Some (list_count x l)) /\
  (forall x, In x (keys (Counter l)) <-> In x l) /\
  StronglySorted (fun a b => (first_index a l < first_index b l)%nat)
    (keys (Counter l)).
Proof.
  induction l as [|y l (Hnd & Hget & Hkeys & Hsorted)] using rev_ind.
  - repeat split; simpl; try tauto; constructor.
  - rewrite Counter_snoc. set (d := Counter l) in *.
    assert (Hcount : dict_get_or d O y = list_count y l).
    { unfold dict_get_or. rewrite Hget.
      destruct (Nat.eqb_spec (list_count y l) 0); congruence. }
    rewrite Hcount.
    assert (Hmem : dict_mem y d = true <-> In y l)
      by (rewrite dict_mem_keys; apply Hkeys).
    assert (Hk : forall x, In x (keys (dict_set y (S (list_count y l)) d))
                           <-> In x (l ++ [y])).
    { intros x. rewrite keys_dict_set, in_app_iff. simpl.
      destruct (dict_mem y d) eqn:E.
      - rewrite Hkeys. split; [tauto|]. intros [H|[<-|[]]]; [exact H|].
        now apply Hmem.
      - rewrite in_app_iff, Hkeys. simpl. tauto. }
    split; [|split; [|split; [exact Hk|]]].
    + rewrite keys_dict_set. destruct (dict_mem y d) eqn:E; [exact Hnd|].
      apply NoDup_snoc; [exact Hnd|]. rewrite Hkeys. intros C.
      apply Hmem in C. congruence.
    + intros x. rewrite list_count_snoc.
      destruct (String.eqb_spec x y) as [->|Hne].
      * rewrite dict_get_set_same.
        replace (list_count y l + 1)%nat with (S (list_count y l)) by lia.
        reflexivity.
      * rewrite dict_get_set_other by exact Hne. rewrite Hget.
        now rewrite Nat.add_0_r.
    + rewrite keys_dict_set.
      assert (Hold : StronglySorted
                (fun a b => (first_index a (l ++ [y])
                             < first_index b (l ++ [y]))%nat) (keys d)).
      { assert (Hall : Forall (fun a => In a l) (keys d))
          by (rewrite Forall_forall; intros a; apply Hkeys).
        clear - Hsorted Hall. induction Hsorted as [|a ks Hs IH Hf].
        - constructor.
        - inversion_clear Hall as [|? ? Ha Hks]. constructor; [now apply IH|].
          rewrite Forall_forall in Hf, Hks |- *. intros b Hb.
          rewrite !first_index_app_in by auto. now apply Hf. }
      destruct (dict_mem y d) eqn:E; [exact Hold|].
      apply StronglySorted_snoc; [exact Hold|].
      rewrite Forall_forall. intros a Ha. apply Hkeys in Ha.
      assert (Hy : ~ In y l) by (intros C; apply Hmem in C; congruence).
      rewrite (first_index_app_in _ _ _ Ha), (first_index_app _ _ _ Hy).
      pose proof (first_index_lt _ _ Ha). lia.
Qed.

Lemma nat_ltb_irrefl a : Nat.ltb a a = false.
Proof. apply Nat.ltb_irrefl. Qed.

(** [most_common(1)] on a counter: a label of [l] with its count, no label
    occurs more often, and of the labels occurring as often it is the one
    met first. *)
Lemma most_common_spec l c n rest :
  most_common_1 (Counter l) = (c, n) :: rest ->
  In c l /\ n = list_count c l /\
  (forall x, (list_count x l <= list_count c l)%nat) /\
  (forall x, In x l -> list_count x l = list_count c l ->
             (first_index c l <= first_index x l)%nat).
Proof.
  destruct (Counter_spec l) as (Hnd & Hget & Hkeys & Hsorted).
  unfold most_common_1. destruct (Counter l) as [|e d] eqn:Ed; [discriminate|].
  cbn [py_max]. intros [= Hmax <-].
  destruct (py_max_from_split Nat.ltb snd nat_ltb_trans nat_ltb_cotrans d e)
    as (d1 & d2 & Hsplit & Hlt & Hge).
  rewrite Hmax in Hsplit, Hlt, Hge. cbn [snd] in Hlt, Hge.
  rewrite Forall_forall in Hlt, Hge.
  assert (Hval : forall x m, In (x, m) (e :: d) ->
                             m = list_count x l /\ In x l).
  { intros x m HI. pose proof (dict_get_nodup _ _ _ Hnd HI) as Hx.
    rewrite Hget in Hx. destruct (Nat.eqb_spec (list_count x l) 0);
      [discriminate|]. injection Hx as <-. split; [reflexivity|].
    apply list_count_pos. lia. }
  assert (Hc : In (c, n) (e :: d))
    by (rewrite Hsplit; apply in_or_app; right; now left).
  destruct (Hval _ _ Hc) as [Hn Hcl]. split; [exact Hcl|]. split; [exact Hn|].
  assert (Hentry : forall x, In x l -> In (x, list_count x l) (e :: d)).
  { intros x Hx. apply dict_get_in. rewrite Hget.
    apply list_count_pos in Hx.
    destruct (Nat.eqb_spec (list_count x l) 0); [lia|reflexivity]. }
  assert (Hle : forall x, In x l -> In (x, list_count x l) d1 \/
                          (x = c) \/ In (x, list_count x l) d2).
  { intros x Hx. specialize (Hentry _ Hx). rewrite Hsplit in Hentry.
    apply in_app_or in Hentry as [H|[H|H]]; [now left| |now right; right].
    right. left. congruence. }
  split.
  - intros x. destruct (Nat.eq_dec (list_count x l) 0) as [E|E]; [lia|].
    assert (Hx : In x l) by (apply list_count_pos; lia).
    destruct (Hle _ Hx) as [H|[->|H]]; [| lia |].
    + specialize (Hlt _ H). cbn [snd] in Hlt. apply Nat.ltb_lt in Hlt. lia.
    + specialize (Hge _ H). cbn [snd] in Hge. apply Nat.ltb_ge in Hge. lia.
  - intros x Hx Heq. destruct (Hle _ Hx) as [H|[->|H]]; [| lia |].
    + specialize (Hlt _ H). cbn [snd] in Hlt. apply Nat.ltb_lt in Hlt. lia.
    + unfold keys in Hsorted. rewrite Hsplit, map_app in Hsorted.
      apply StronglySorted_app_r in Hsorted. cbn [map fst] in Hsorted.
      apply StronglySorted_inv in Hsorted as [_ Hall].
      rewrite Forall_forall in Hall.
      specialize (Hall x (in_map fst _ _ H)). cbn [fst] in Hall. lia.
Qed.

Lemma most_common_nonempty l : l <> [] -> most_common_1 (Counter l) <> [].
Proof.
  intros Hl. destruct (Counter_spec l) as (_ & _ & Hkeys & _).
  unfold most_common_1. destruct (Counter l) as [|e d]; [|discriminate].
  destruct l as [|x l]; [congruence|].
  exfalso. apply (proj2 (Hkeys x)). now left.
Qed.

(** ** [load_models] and [compare_all] *)

Lemma config_of_registry key :
  In key (keys MODEL_CONFIG) ->
  exists c, config_of key = Ok c /\ name c = registry_name key.
Proof.
  intros H. unfold config_of, registry_name.
  destruct (dict_get key MODEL_CONFIG) as [c|] eqn:E.
  - now exists c.
  - apply dict_get_none in E. contradiction.
Qed.

(** Whatever the files on disk, the constructor leaves the loaded variants
    in registry order. *)
Lemma new_classifier_ordered os_path_exists load_model dir :
  registry_ordered (new_classifier os_path_exists load_model dir).
Proof.
  unfold registry_ordered, new_classifier, load_models, MODEL_CONFIG.
  cbn [fold_left]. unfold load_one. cbn [models_dir models path fst snd].
  repeat match goal with
         | |- context [os_path_exists ?p] => destruct (os_path_exists p)
         | |- context [load_model ?p] => destruct (load_model p)
         end; reflexivity.
Qed.

Lemma registry_ordered_keys self :
  registry_ordered self ->
  NoDup (keys (models self)) /\
  Forall (fun k => In k (keys MODEL_CONFIG)) (keys (models self)).
Proof.
  unfold registry_ordered. intros ->. split.
  - apply NoDup_filter.
    repeat (constructor; [simpl; intuition discriminate|]). constructor.
  - rewrite Forall_forall. intros k Hk. now apply filter_In in Hk.
Qed.

Lemma compare_loop_ok open_resized self path ks results :
  Forall (fun k => In k (keys MODEL_CONFIG)) ks ->
  NoDup (keys results ++ ks) ->
  compare_loop open_resized self path ks results
  = Ok (results ++
        map (fun k => (k, entry_of_result (registry_name k)
                            (predict open_resized self path k))) ks).
Proof.
  revert results. induction ks as [|k ks IH]; intros results Hreg Hnd.
  - simpl. now rewrite app_nil_r.
  - inversion_clear Hreg as [|? ? Hk Hks].
    destruct (config_of_registry k Hk) as (c & Hc & Hname).
    cbn [compare_loop]. rewrite Hc. cbn [bind]. rewrite Hname.
    assert (Hfresh : ~ In k (keys results)).
    { pose proof (NoDup_remove_2 _ _ _ Hnd) as Hn. intros C. apply Hn.
      apply in_or_app. now left. }
    rewrite dict_set_fresh by exact Hfresh. rewrite IH.
    + now rewrite <- app_assoc.
    + exact Hks.
    + unfold keys. rewrite map_app, <- app_assoc. exact Hnd.
Qed.

Lemma flat_map_filter {A B} (f : A -> list B) (g : A -> bool) l :
  (forall x, g x = false -> f x = []) ->
  flat_map f (filter g l) = flat_map f l.
Proof.
  intros H. induction l as [|x l IH]; simpl; [reflexivity|].
  destruct (g x) eqn:E; simpl; rewrite IH; [reflexivity|].
  now rewrite (H x E).
Qed.

Lemma entry_labels_map open_resized self path ks :
  entry_labels
    (map (fun k => (k, entry_of_result (registry_name k)
                         (predict open_resized self path k))) ks)
  = flat_map (fun k => match predict open_resized self path k with
                       | Success r => [predicted_class r]
                       | Failure _ => []
                       end) ks.
Proof.
  unfold entry_labels, values. induction ks as [|k ks IH]; simpl;
    [reflexivity|].
  rewrite IH. now destruct (predict open_resized self path k).
Qed.

Lemma compare_results open_resized self path :
  registry_ordered self ->
  compare_loop open_resized self path (keys (models self)) []
  = Ok (map (fun k => (k, entry_of_result (registry_name k)
                            (predict open_resized self path k)))
          (keys (models self))) /\
  entry_labels
    (map (fun k => (k, entry_of_result (registry_name k)
                         (predict open_resized self path k)))
       (keys (models self)))
  = votes open_resized self path.
Proof.
  intros Hord. destruct (registry_ordered_keys _ Hord) as [Hnd Hreg]. split.
  - now rewrite compare_loop_ok.
  - rewrite entry_labels_map. unfold votes, registry_ordered in *. rewrite Hord.
    apply flat_map_filter. intros k Hk.
    now rewrite predict_not_loaded.
Qed.

Lemma round_half_even_comp x y : x == y -> round_half_even x = round_half_even y.
Proof.
  intros H. unfold round_half_even.
  rewrite (Qfloor_comp _ _ H).
  assert (Hc : (x - inject_Z (Qfloor y) ?= 1 # 2)
               = (y - inject_Z (Qfloor y) ?= 1 # 2)).
  { apply Qcompare_comp; [now rewrite H | reflexivity]. }
  now rewrite Hc.
Qed.

Lemma py_round_comp x y n : x == y -> py_round x n = py_round y n.
Proof.
  intros H. unfold py_round.
  rewrite (round_half_even_comp (x * pow10 n) (y * pow10 n));
    [reflexivity | now rewrite H].
Qed.

Lemma list_count_all c l :
  Forall (eq c) l -> list_count c l = List.length l.
Proof.
  unfold list_count. induction 1 as [|x l <- _ IH]; simpl; [reflexivity|].
  destruct (string_dec c c); [now rewrite IH | congruence].
Qed.

(** What [compare_all] computes on a classifier whose loaded variants are in
    registry order. *)
Lemma compare_all_spec open_resized self path :
  registry_ordered self ->
  exists cmp,
    compare_all open_resized self path = Ok cmp /\
    cmp_models cmp
    = map (fun k => (k, entry_of_result (registry_name k)
                          (predict open_resized self path k)))
        (keys (models self)) /\
    match votes open_resized self path with
    | [] => consensus cmp = None /\ agreement cmp == 0
    | _ :: _ =>
        exists c,
          consensus cmp = Some c /\
          most_common_1 (Counter (votes open_resized self path)) <> [] /\
          fst (hd (c, O) (most_common_1 (Counter (votes open_resized self path)))) = c /\
          agreement cmp
          = py_round (of_nat (list_count c (votes open_resized self path))
                      / of_nat (List.length (votes open_resized self path))
                      * 100) 1
    end.
Proof.
  intros Hord. destruct (compare_results open_resized self path Hord)
    as [Hloop Hlabels].
  unfold compare_all. rewrite Hloop. cbn [bind]. rewrite Hlabels.
  destruct (votes open_resized self path) as [|v vs] eqn:Ev.
  - eexists. split; [reflexivity|]. split; [reflexivity|].
    split; [reflexivity|]. vm_compute. reflexivity.
  - pose proof (most_common_nonempty (v :: vs)) as Hne.
    destruct (most_common_1 (Counter (v :: vs))) as [|[c n] rest] eqn:Em.
    + exfalso. now apply Hne.
    + eexists. split; [reflexivity|]. split; [reflexivity|].
      exists c. repeat split. discriminate.
Qed.

Lemma of_nat_ratio_full n : (0 < n)%nat -> of_nat n / of_nat n * 100 == 100.
Proof.
  intros H. unfold of_nat. field. intros C.
  unfold Qeq in C. simpl in C. lia.
Qed.

(** C4.  On the classifier the constructor builds, [compare_all] returns a
    comparison.  With [votes] the labels predicted by the variants that
    succeed, taken in registry order: without votes the consensus is absent
    and the agreement is 0; otherwise the consensus is a voted label that no
    label outnumbers and that comes first among the labels voted as often,
    and the agreement is its share of the votes times 100, rounded to one
    decimal, which is 100 when the votes are unanimous. *)
Theorem compare_all_consensus os_path_exists load_model dir open_resized path :
  let self := new_classifier os_path_exists load_model dir in
  let vs := votes open_resized self path in
  exists cmp,
    compare_all open_resized self path = Ok cmp /\
    match vs with
    | [] => consensus cmp = None /\ agreement cmp == 0
    | _ :: _ =>
        exists c,
          consensus cmp = Some c /\ In c vs /\
          (forall l, (list_count l vs <= list_count c vs)%nat) /\
          (forall l, In l vs -> list_count l vs = list_count c vs ->
                     (first_index c vs <= first_index l vs)%nat) /\
          agreement cmp
          = py_round (of_nat (list_count c vs) / of_nat (List.length vs) * 100) 1 /\
          (Forall (eq c) vs -> agreement cmp == 100)
    end.
Proof.
  intros self vs.
  destruct (compare_all_spec open_resized self path
              (new_classifier_ordered _ _ _)) as (cmp & Hcmp & _ & Hv).
  exists cmp. split; [exact Hcmp|]. fold vs in Hv.
  destruct vs as [|v vs'] eqn:Ev; [exact Hv|].
  destruct Hv as (c & Hc & Hne & Hhd & Hagree).
  destruct (most_common_1 (Counter (v :: vs'))) as [|[c' n] rest] eqn:Em;
    [congruence|].
  cbn [hd fst] in Hhd. subst c'.
  destruct (most_common_spec _ _ _ _ Em) as (Hin & _ & Hmax & Hfirst).
  exists c. repeat (split; [assumption|]).
  intros Hall. rewrite Hagree, (list_count_all _ _ Hall).
  rewrite (py_round_comp _ 100 1);
    [vm_compute; reflexivity | apply of_nat_ratio_full; simpl; lia].
Qed.

Lemma dict_get_map_keys {V} (f : string -> V) ks key :
  dict_get key (map (fun k => (k, f k)) ks)
  = if existsb (String.eqb key) ks then Some (f key) else None.
Proof.
  induction ks as [|k ks IH]; simpl; [reflexivity|].
  destruct (String.eqb_spec key k) as [->|_]; [reflexivity | exact IH].
Qed.

Lemma dict_mem_existsb {V} (d : dict V) key :
  dict_mem key d = existsb (String.eqb key) (keys d).
Proof.
  unfold dict_mem. induction d as [|[k v] d IH]; simpl; [reflexivity|].
  destruct (String.eqb_spec key k); [reflexivity | exact IH].
Qed.

(** C5, as amended.  On the classifier the constructor builds, the
    comparison has one entry per loaded variant, in registry order, and no
    entry for a variant that is not loaded: the entry of a loaded variant is
    its prediction when [predict] succeeds and the error string of [predict]
    when it fails. *)
Theorem compare_all_entries os_path_exists load_model dir open_resized path :
  let self := new_classifier os_path_exists load_model dir in
  exists cmp,
    compare_all open_resized self path = Ok cmp /\
    keys (cmp_models cmp)
    = filter (fun k => dict_mem k (models self)) (keys MODEL_CONFIG) /\
    forall key,
      dict_get key (cmp_models cmp)
      = if dict_mem key (models self)
        then Some (entry_of_result (registry_name key)
                     (predict open_resized self path key))
        else None.
Proof.
  intros self.
  pose proof (new_classifier_ordered os_path_exists load_model dir) as Hord.
  fold self in Hord.
  destruct (compare_all_spec open_resized self path Hord)
    as (cmp & Hcmp & Hmodels & _).
  exists cmp. split; [exact Hcmp|]. rewrite Hmodels. split.
  - unfold keys at 1. rewrite map_map. cbn [fst]. rewrite map_id. exact Hord.
  - intros key. rewrite dict_get_map_keys. now rewrite dict_mem_existsb.
Qed.

(** C5, as stated, fails: with only the RGB model file on disk, the NDVI
    variant of the registry has no entry in the comparison, neither a
    prediction nor an error. *)
Lemma compare_all_skips_unloaded :
  exists cmp,
    compare_all (open_const (rgb_tile 128))
      (new_classifier disk_rgb_only load_by_path ".") "tile.png" = Ok cmp /\
    In "ndvi" (keys MODEL_CONFIG) /\
    dict_get "ndvi" (cmp_models cmp) = None.
Proof.
  eexists. split; [vm_compute; reflexivity|].
  split; [simpl; tauto | reflexivity].
Qed.
(** ** Binary64 arithmetic on small floats

    The colour ramp multiplies and subtracts floats between 0 and 255.  The
    lemmas of this section bound the results of [SFmul] and [SFsub] on such
    floats: rounding to nearest never moves a value past a bound that is
    itself a float.  Values are compared as integers, at the scale
    [2 ^ f64_scale]. *)

Section Binary64.
Local Open Scope Z_scope.
Local Abbreviation K := f64_scale.

Lemma digits2_bounds m :
  2 ^ (Z.pos (digits2_pos m) - 1) <= Z.pos m < 2 ^ Z.pos (digits2_pos m).
Proof.
  induction m as [p IH|p IH|]; cbn [digits2_pos].
  - rewrite Pos2Z.inj_succ. change (Z.pos p~1) with (2 * Z.pos p + 1).
    replace (Z.succ (Z.pos (digits2_pos p)) - 1)
      with (Z.succ (Z.pos (digits2_pos p) - 1)) by lia.
    rewrite !Z.pow_succ_r by lia.
    destruct IH as [IH1 IH2]. revert IH1 IH2.
    generalize (2 ^ (Z.pos (digits2_pos p) - 1)) (2 ^ Z.pos (digits2_pos p)).
    intros a b. lia.
  - rewrite Pos2Z.inj_succ. change (Z.pos p~0) with (2 * Z.pos p).
    replace (Z.succ (Z.pos (digits2_pos p)) - 1)
      with (Z.succ (Z.pos (digits2_pos p) - 1)) by lia.
    rewrite !Z.pow_succ_r by lia.
    destruct IH as [IH1 IH2]. revert IH1 IH2.
    generalize (2 ^ (Z.pos (digits2_pos p) - 1)) (2 ^ Z.pos (digits2_pos p)).
    intros a b. lia.
  - simpl. lia.
Qed.

Lemma iter_pos_nat {A} (f : A -> A) p x :
  iter_pos f p x = Nat.iter (Pos.to_nat p) f x.
Proof.
  revert x. induction p as [p IH|p IH|]; intros x; cbn [iter_pos].
  - rewrite !IH, Pos2Nat.inj_xI.
    replace (S (2 * Pos.to_nat p))%nat
      with (S (Pos.to_nat p + Pos.to_nat p))%nat by lia.
    now rewrite Nat.iter_succ_r, Nat.iter_add.
  - rewrite !IH, Pos2Nat.inj_xO.
    replace (2 * Pos.to_nat p)%nat with (Pos.to_nat p + Pos.to_nat p)%nat by lia.
    now rewrite Nat.iter_add.
  - reflexivity.
Qed.

Lemma shr_1_spec m r s :
  0 <= m ->
  shr_1 (Build_shr_record m r s)
  = Build_shr_record (m / 2) (Z.odd m) (r || s).
Proof.
  intros Hm. destruct m as [|p|p]; [reflexivity| |lia].
  destruct p as [p|p|]; cbn [shr_1].
  - replace (Z.pos p~1 / 2) with (Z.pos p); [reflexivity|].
    change (Z.pos p~1) with (2 * Z.pos p + 1).
    apply Z.div_unique with 1; lia.
  - replace (Z.pos p~0 / 2) with (Z.pos p); [reflexivity|].
    change (Z.pos p~0) with (2 * Z.pos p).
    apply Z.div_unique with 0; lia.
  - reflexivity.
Qed.

Lemma shr_iter k m :
  0 <= m ->
  let mrs := Nat.iter k shr_1 (Build_shr_record m false false) in
  shr_m mrs = m / 2 ^ Z.of_nat k /\
  (m mod 2 ^ Z.of_nat k = 0 -> shr_r mrs = false /\ shr_s mrs = false).
Proof.
  intros Hm. induction k as [|k IH]; cbn zeta.
  - simpl. rewrite Z.div_1_r. auto.
  - rewrite Nat.iter_succ. cbn zeta in IH.
    destruct (Nat.iter k shr_1 _) as [q r s]. cbn [shr_m shr_r shr_s] in IH.
    destruct IH as [Hq Hex].
    assert (Hq0 : 0 <= q) by (subst q; apply Z.div_pos; lia).
    rewrite (shr_1_spec q r s Hq0). cbn [shr_m shr_r shr_s].
    rewrite Nat2Z.inj_succ, Z.pow_succ_r by lia.
    assert (Hp : 0 < 2 ^ Z.of_nat k) by (apply Z.pow_pos_nonneg; lia).
    split.
    + subst q. rewrite Z.div_div by lia. f_equal. lia.
    + intros Hmod.
      assert (Hd : m = 2 * 2 ^ Z.of_nat k * (m / (2 * 2 ^ Z.of_nat k))).
      { apply Z.div_exact in Hmod; lia. }
      assert (Hmk : m mod 2 ^ Z.of_nat k = 0).
      { rewrite Hd. rewrite <- Z.mul_assoc, (Z.mul_comm 2), <- Z.mul_assoc.
        rewrite Z.mul_comm. apply Z.mod_mul. lia. }
      destruct (Hex Hmk) as [-> ->]. split; [|reflexivity].
      subst q. rewrite Hd at 1.
      replace (2 * 2 ^ Z.of_nat k * (m / (2 * 2 ^ Z.of_nat k)))
        with ((2 * (m / (2 * 2 ^ Z.of_nat k))) * 2 ^ Z.of_nat k) by lia.
      rewrite Z.div_mul by lia. rewrite Z.odd_mul. reflexivity.
Qed.

Lemma pow2_pos a : 0 <= a -> 0 < 2 ^ a.
Proof. intros. apply Z.pow_pos_nonneg; lia. Qed.

Lemma pow2_add a c : 0 <= a -> 0 <= c -> 2 ^ (a + c) = 2 ^ a * 2 ^ c.
Proof. intros. apply Z.pow_add_r; lia. Qed.

Lemma pow2_le a c : 0 <= a <= c -> 2 ^ a <= 2 ^ c.
Proof. intros. apply Z.pow_le_mono_r; lia. Qed.

Lemma shr_pos_spec m e p :
  0 <= m ->
  let '(mrs, e') := shr (Build_shr_record m false false) e (Z.pos p) in
  e' = e + Z.pos p /\ shr_m mrs = m / 2 ^ Z.pos p /\
  (m mod 2 ^ Z.pos p = 0 -> shr_r mrs = false /\ shr_s mrs = false).
Proof.
  intros Hm. cbn [shr]. rewrite iter_pos_nat.
  pose proof (shr_iter (Pos.to_nat p) m Hm) as H. cbn zeta in H.
  rewrite positive_nat_Z in H. split; [reflexivity | exact H].
Qed.

Lemma round_nearest_even_bounds mrs :
  shr_m mrs <= round_nearest_even (shr_m mrs) (loc_of_shr_record mrs)
  <= shr_m mrs + 1 /\
  (shr_r mrs = false -> shr_s mrs = false ->
   round_nearest_even (shr_m mrs) (loc_of_shr_record mrs) = shr_m mrs).
Proof.
  destruct mrs as [q [|] [|]]; cbn; try destruct (Z.even q); split;
    try lia; congruence.
Qed.

(** The second normalisation only drops bits. *)
Lemma shr_fexp_exact_le m e :
  0 <= m -> - K <= e ->
  let '(mrs, e') := shr_fexp 53 1024 m e loc_Exact in
  e <= e' /\ 0 <= shr_m mrs /\
  shr_m mrs * 2 ^ (e' + K) <= m * 2 ^ (e + K).
Proof.
  intros Hm He. unfold shr_fexp. cbn [shr_record_of_loc].
  destruct (fexp 53 1024 (Zdigits2 m + e) - e) as [|p|p] eqn:En; cbn [shr].
  - cbn [shr_m]. lia.
  - pose proof (shr_pos_spec m e p Hm) as H. cbn [shr] in H.
    destruct H as (_ & Hq & _). rewrite Hq.
    assert (Hp : 0 < 2 ^ Z.pos p) by (apply pow2_pos; lia).
    split; [lia|]. split; [apply Z.div_pos; lia|].
    replace (e + Z.pos p + K) with (Z.pos p + (e + K)) by lia.
    rewrite pow2_add by lia. rewrite Z.mul_assoc.
    apply Z.mul_le_mono_nonneg_r; [apply Z.lt_le_incl, pow2_pos; lia|].
    rewrite Z.mul_comm. apply Z.mul_div_le. lia.
  - cbn [shr_m]. lia.
Qed.

(** The first normalisation and the rounding stay below a bound that is
    itself a float. *)
Lemma shr_first_le m e b eb :
  - K <= e -> 0 < b < 2 ^ 53 -> -1074 <= eb ->
  Z.pos m * 2 ^ (e + K) <= b * 2 ^ (eb + K) ->
  let '(mrs, e') := shr_fexp 53 1024 (Z.pos m) e loc_Exact in
  let m1 := round_nearest_even (shr_m mrs) (loc_of_shr_record mrs) in
  e <= e' /\ -1074 <= e' /\ 0 <= m1 /\
  m1 * 2 ^ (e' + K) <= b * 2 ^ (eb + K).
Proof.
  intros He Hb Heb Hle. unfold shr_fexp. cbn [shr_record_of_loc Zdigits2].
  pose proof (eq_refl : K = 1200) as HK.
  pose proof (digits2_bounds m) as Hd.
  set (d := Z.pos (digits2_pos m)) in *.
  change (fexp 53 1024 (d + e)) with (Z.max (d + e - 53) (-1074)).
  destruct (Z.max (d + e - 53) (-1074) - e) as [|p|p] eqn:En.
  - cbn. split; [lia|]. split; [lia|]. split; [lia | exact Hle].
  - pose proof (shr_pos_spec (Z.pos m) e p ltac:(lia)) as H.
    destruct (shr _ e (Z.pos p)) as [mrs e'].
    destruct H as (-> & Hq & Hex). cbv zeta.
    destruct (round_nearest_even_bounds mrs) as [Hr Hexact].
    set (m1 := round_nearest_even (shr_m mrs) (loc_of_shr_record mrs)) in *.
    assert (Hp : 0 < 2 ^ Z.pos p) by (apply pow2_pos; lia).
    assert (Hq0 : 0 <= shr_m mrs) by (rewrite Hq; apply Z.div_pos; lia).
    split; [lia|]. split; [lia|]. split; [lia|].
    destruct (Z_le_gt_dec (e + Z.pos p) eb) as [Hlo|Hhi].
    + set (N := b * 2 ^ (eb - (e + Z.pos p))).
      assert (HX : 0 < 2 ^ (e + K)) by (apply pow2_pos; lia).
      assert (Hsplit : 2 ^ (eb + K)
                       = 2 ^ (eb - (e + Z.pos p)) * 2 ^ Z.pos p * 2 ^ (e + K)).
      { rewrite <- !pow2_add by lia. f_equal. lia. }
      assert (Hm : Z.pos m <= N * 2 ^ Z.pos p).
      { apply (Z.mul_le_mono_pos_r _ _ (2 ^ (e + K)) HX).
        unfold N. rewrite Hsplit in Hle. lia. }
      assert (HqN : shr_m mrs <= N).
      { rewrite Hq. rewrite <- (Z.div_mul N (2 ^ Z.pos p)) by lia.
        apply Z.div_le_mono; lia. }
      assert (Hm1 : m1 <= N).
      { destruct (Z.eq_dec (shr_m mrs) N) as [Heq|Hne]; [|lia].
        assert (Hmm : Z.pos m = N * 2 ^ Z.pos p).
        { pose proof (Z.mul_div_le (Z.pos m) (2 ^ Z.pos p) Hp) as H1.
          rewrite <- Hq, Heq in H1. lia. }
        assert (Hmod : Z.pos m mod 2 ^ Z.pos p = 0)
          by (rewrite Hmm; apply Z.mod_mul; lia).
        destruct (Hex Hmod) as [Hr0 Hs0].
        rewrite (Hexact Hr0 Hs0). lia. }
      replace (b * 2 ^ (eb + K)) with (N * 2 ^ (e + Z.pos p + K)).
      * apply Z.mul_le_mono_nonneg_r; [|exact Hm1].
        apply Z.lt_le_incl, pow2_pos. lia.
      * unfold N. rewrite <- Z.mul_assoc, <- pow2_add by lia. do 2 f_equal. lia.
    + exfalso.
      assert (Hpd : Z.pos p = d - 53) by lia.
      assert (H1 : 2 ^ (d - 1) * 2 ^ (e + K) <= Z.pos m * 2 ^ (e + K)).
      { apply Z.mul_le_mono_nonneg_r; [|lia].
        apply Z.lt_le_incl, pow2_pos. lia. }
      rewrite <- pow2_add in H1 by lia.
      assert (H2 : 2 ^ (53 + (eb + K)) <= 2 ^ (d - 1 + (e + K)))
        by (apply pow2_le; lia).
      rewrite pow2_add in H2 by lia.
      assert (H3 : b * 2 ^ (eb + K) < 2 ^ 53 * 2 ^ (eb + K)).
      { apply Z.mul_lt_mono_pos_r; [apply pow2_pos; lia | lia]. }
      lia.
  - cbn. split; [lia|]. split; [lia|]. split; [lia | exact Hle].
Qed.

Lemma round_aux_at_most m e b eb :
  - K <= e -> 0 < b < 2 ^ 53 -> -1074 <= eb <= 900 ->
  Z.pos m * 2 ^ (e + K) <= b * 2 ^ (eb + K) ->
  at_most b eb (binary_round_aux 53 1024 false (Z.pos m) e loc_Exact).
Proof.
  intros He Hb Heb Hle. unfold binary_round_aux.
  pose proof (eq_refl : K = 1200) as HK.
  pose proof (shr_first_le m e b eb He Hb ltac:(lia) Hle) as H1.
  destruct (shr_fexp 53 1024 (Z.pos m) e loc_Exact) as [mrs e'].
  cbv zeta in H1. destruct H1 as (He' & Hmin & Hm1 & Hle1).
  set (m1 := round_nearest_even (shr_m mrs) (loc_of_shr_record mrs)) in *.
  pose proof (shr_fexp_exact_le m1 e' Hm1 ltac:(lia)) as H2.
  destruct (shr_fexp 53 1024 m1 e' loc_Exact) as [mrs2 e2].
  destruct H2 as (He2 & Hm2 & Hle2).
  destruct (shr_m mrs2) as [|m2|m2] eqn:E2; [exact I| |lia].
  assert (Hfin : e2 <= 1024 - 53).
  { assert (H3 : b * 2 ^ (eb + K) < 2 ^ 53 * 2 ^ (eb + K)).
    { apply Z.mul_lt_mono_pos_r; [apply pow2_pos; lia | lia]. }
    rewrite <- pow2_add in H3 by lia.
    assert (H4 : 2 ^ (e2 + K) <= Z.pos m2 * 2 ^ (e2 + K)).
    { assert (0 < 2 ^ (e2 + K)) by (apply pow2_pos; lia). nia. }
    assert (H5 : 2 ^ (e2 + K) < 2 ^ (53 + (eb + K))) by lia.
    apply Z.pow_lt_mono_r_iff in H5; lia. }
  apply Z.leb_le in Hfin. rewrite Hfin. cbn [at_most].
  split; lia.
Qed.

Lemma shl_align_spec mx ex ex' :
  let '(mz, ez) := shl_align mx ex ex' in
  ez = Z.min ex ex' /\ Z.pos mz = Z.pos mx * 2 ^ (ex - ez).
Proof.
  unfold shl_align. destruct (ex' - ex) as [|d|d] eqn:E.
  - split; [lia|]. rewrite Z.sub_diag. cbn. lia.
  - split; [lia|]. rewrite Z.sub_diag. cbn. lia.
  - split; [lia|]. change (Pos.iter xO mx d) with (shift_pos d mx).
    rewrite shift_pos_correct. change (Z.pow_pos 2 d) with (2 ^ Z.pos d).
    replace (ex - ex') with (Z.pos d) by lia. lia.
Qed.

Lemma binary_round_at_most m e b eb :
  - K <= e -> 0 < b < 2 ^ 53 -> -1074 <= eb <= 900 ->
  Z.pos m * 2 ^ (e + K) <= b * 2 ^ (eb + K) ->
  at_most b eb (binary_round 53 1024 false m e).
Proof.
  intros He Hb Heb Hle. unfold binary_round.
  pose proof (eq_refl : K = 1200) as HK.
  pose proof (shl_align_spec m e (fexp 53 1024 (Z.pos (digits2_pos m) + e)))
    as H.
  change (fexp 53 1024 (Z.pos (digits2_pos m) + e))
    with (Z.max (Z.pos (digits2_pos m) + e - 53) (-1074)) in *.
  destruct (shl_align m e _) as [mz ez]. destruct H as [Hez Hmz].
  apply round_aux_at_most; try assumption; [lia|].
  rewrite Hmz, <- Z.mul_assoc, <- pow2_add by lia.
  replace (e - ez + (ez + K)) with (e + K) by lia. exact Hle.
Qed.

Lemma f64_sub_finite_at_most mx ex my ey b eb :
  -1074 <= ex -> -1074 <= ey -> 0 < b < 2 ^ 53 -> -1074 <= eb <= 900 ->
  0 <= Z.pos mx * 2 ^ (ex + K) - Z.pos my * 2 ^ (ey + K)
  <= b * 2 ^ (eb + K) ->
  at_most b eb (f64_sub (S754_finite false mx ex) (S754_finite false my ey)).
Proof.
  intros Hex Hey Hb Heb Hd. unfold f64_sub, SFsub. cbn [cond_Zopp].
  pose proof (eq_refl : K = 1200) as HK.
  pose proof (shl_align_spec mx ex (Z.min ex ey)) as Hx.
  pose proof (shl_align_spec my ey (Z.min ex ey)) as Hy.
  destruct (shl_align mx ex _) as [ax ez]. destruct (shl_align my ey _) as [ay ez'].
  destruct Hx as [Hez Hax]. destruct Hy as [Hez' Hay]. cbn [fst].
  rewrite Hax, Hay. replace ez with (Z.min ex ey) by lia.
  replace ez' with (Z.min ex ey) by lia.
  set (z := Z.min ex ey) in *.
  assert (Hz : 0 < 2 ^ (z + K)) by (apply pow2_pos; lia).
  assert (Hval : (Z.pos mx * 2 ^ (ex - z) - Z.pos my * 2 ^ (ey - z))
                 * 2 ^ (z + K)
                 = Z.pos mx * 2 ^ (ex + K) - Z.pos my * 2 ^ (ey + K)).
  { rewrite Z.mul_sub_distr_r, <- !Z.mul_assoc, <- !pow2_add by lia.
    do 3 f_equal; lia. }
  destruct (Z.pos mx * 2 ^ (ex - z) - Z.pos my * 2 ^ (ey - z))
    as [|D|D] eqn:ED; cbn [binary_normalize].
  - exact I.
  - apply binary_round_at_most; try assumption; lia.
  - exfalso. assert (Z.neg D * 2 ^ (z + K) < 0) by nia. lia.
Qed.

Lemma f64_510 : f64_of_Z 510 = S754_finite false 8972014882652160 (-44).
Proof. vm_compute. reflexivity. Qed.

Lemma f64_255 : f64_of_Z 255 = S754_finite false 8972014882652160 (-45).
Proof. vm_compute. reflexivity. Qed.

Lemma f64_1 : f64_of_Z 1 = S754_finite false 4503599627370496 (-52).
Proof. vm_compute. reflexivity. Qed.

Lemma f64_0 : f64_of_Z 0 = S754_zero false.
Proof. reflexivity. Qed.

Lemma f64_half_eq : f64_half = S754_finite false 4503599627370496 (-53).
Proof. vm_compute. reflexivity. Qed.

Lemma pow2_K_split a : 0 <= a <= K -> 2 ^ K = 2 ^ a * 2 ^ (- a + K).
Proof. intros. rewrite <- pow2_add by lia. f_equal. lia. Qed.

(** [x * 510] for [x] between 0 and one half lies between 0 and 255. *)
Lemma f64_mul_510_at_most x :
  at_most 1 (-1) x -> at_most 255 0 (f64_mul x (f64_of_Z 510)).
Proof.
  pose proof (eq_refl : K = 1200) as HK.
  rewrite f64_510. destruct x as [s|s| |[|] m e]; cbn [at_most];
    try contradiction.
  - intros _. exact I.
  - intros [He Hle]. unfold f64_mul, SFmul. cbn [xorb].
    apply round_aux_at_most; try lia.
    rewrite Pos2Z.inj_mul.
    change (Z.pos 8972014882652160) with (510 * 2 ^ 44).
    assert (H44 : 2 ^ (e + K) = 2 ^ 44 * 2 ^ (e + -44 + K)).
    { rewrite <- pow2_add by lia. f_equal. lia. }
    assert (HK1 : 2 ^ (0 + K) = 2 * 2 ^ (-1 + K)).
    { change 2 with (2 ^ 1) at 2. rewrite <- pow2_add by lia. reflexivity. }
    rewrite H44 in Hle. rewrite HK1.
    revert Hle. generalize (2 ^ (e + -44 + K)) (2 ^ (-1 + K)).
    intros X Y Hle. change (2 ^ 44) with 17592186044416 in *. nia.
Qed.

(** [255 - y] for [y] between 0 and 255 lies between 0 and 255. *)
Lemma f64_sub_255_at_most y :
  at_most 255 0 y -> at_most 255 0 (f64_sub (f64_of_Z 255) y).
Proof.
  pose proof (eq_refl : K = 1200) as HK.
  rewrite f64_255.
  assert (H255 : Z.pos 8972014882652160 * 2 ^ (-45 + K) = 255 * 2 ^ (0 + K)).
  { change (Z.pos 8972014882652160) with (255 * 2 ^ 45).
    rewrite <- Z.mul_assoc, <- pow2_add by lia. reflexivity. }
  destruct y as [s|s| |[|] m e]; cbn [at_most]; try contradiction.
  - intros _. cbn [f64_sub SFsub at_most]. split; lia.
  - intros [He Hle]. apply f64_sub_finite_at_most; lia.
Qed.

(** [int] of a float between 0 and 255. *)
Lemma f64_int_at_most x :
  at_most 255 0 x -> exists z, f64_int x = Ok z /\ 0 <= z <= 255.
Proof.
  pose proof (eq_refl : K = 1200) as HK.
  destruct x as [s|s| |[|] m e]; cbn [at_most]; try contradiction.
  - intros _. exists 0. split; [reflexivity | lia].
  - intros [He Hle]. cbn [f64_int]. eexists. split; [reflexivity|].
    assert (HKp : 0 < 2 ^ K) by (apply pow2_pos; lia).
    destruct e as [|p|p].
    + change (0 + K) with K in Hle. nia.
    + assert (Hp : 0 < 2 ^ Z.pos p) by (apply pow2_pos; lia).
      rewrite pow2_add in Hle by lia. change (0 + K) with K in Hle.
      split; [nia|]. apply (Z.mul_le_mono_pos_r _ _ (2 ^ K) HKp). nia.
    + assert (Hp : 0 < 2 ^ Z.pos p) by (apply pow2_pos; lia).
      change (0 + K) with K in Hle.
      rewrite (pow2_K_split (Z.pos p)) in Hle by lia.
      change (- Z.pos p + K) with (Z.neg p + K) in Hle.
      assert (HX : 0 < 2 ^ (Z.neg p + K)) by (apply pow2_pos; lia).
      assert (Hm : Z.pos m <= 255 * 2 ^ Z.pos p).
      { apply (Z.mul_le_mono_pos_r _ _ (2 ^ (Z.neg p + K)) HX). lia. }
      split; [apply Z.div_pos; lia|].
      apply Z.div_le_upper_bound; lia.
Qed.

Lemma pos_2_52 : Z.pos 4503599627370496 = 2 ^ 52.
Proof. reflexivity. Qed.

Lemma compare_52 m :
  match (m ?= 4503599627370496)%positive with
  | Lt => Z.pos m < 2 ^ 52
  | Eq => Z.pos m = 2 ^ 52
  | Gt => 2 ^ 52 < Z.pos m
  end.
Proof.
  rewrite <- pos_2_52.
  destruct (Pos.compare_spec m 4503599627370496) as [H|H|H].
  - now subst m.
  - now apply Pos2Z.pos_lt_pos.
  - now apply Pos2Z.pos_lt_pos.
Qed.

(** Two positive floats compare by exponent, then by mantissa. *)
Lemma SFcompare_pos m1 e1 m2 e2 :
  SFcompare (S754_finite false m1 e1) (S754_finite false m2 e2)
  = Some match e1 ?= e2 with
         | Lt => Lt
         | Gt => Gt
         | Eq => (m1 ?= m2)%positive
         end.
Proof. reflexivity. Qed.

(** A valid float between [0.0] and [1.0]: a zero, or a positive float whose
    value and whose comparison with [0.5] are those of its mantissa and
    exponent. *)
Lemma unit_interval_cases v :
  valid_binary 53 1024 v = true ->
  SFleb (f64_of_Z 0) v = true -> SFleb v (f64_of_Z 1) = true ->
  (exists s, v = S754_zero s) \/
  (exists m e,
     v = S754_finite false m e /\ -1074 <= e /\
     Z.pos m * 2 ^ (e + K) <= 2 ^ K /\
     (SFltb v f64_half = true -> Z.pos m * 2 ^ (e + K) <= 2 ^ (-1 + K)) /\
     (SFltb v f64_half = false -> 2 ^ (-1 + K) <= Z.pos m * 2 ^ (e + K))).
Proof.
  pose proof (eq_refl : K = 1200) as HK.
  rewrite f64_0, f64_1, f64_half_eq.
  destruct v as [s|[|]| |[|] m e]; try discriminate.
  - intros _ _ _. left. now exists s.
  - intros Hv _ H1. right. exists m, e. split; [reflexivity|].
    cbn [valid_binary] in Hv. unfold bounded, canonical_mantissa in Hv.
    apply andb_true_iff in Hv as [Hc _]. apply Z.eqb_eq in Hc.
    change (fexp 53 1024 (Z.pos (digits2_pos m) + e))
      with (Z.max (Z.pos (digits2_pos m) + e - 53) (-1074)) in Hc.
    pose proof (digits2_bounds m) as Hd.
    set (d := Z.pos (digits2_pos m)) in *.
    assert (Hd53 : d <= 53) by lia.
    assert (Hm53 : Z.pos m < 2 ^ 53).
    { apply Z.lt_le_trans with (2 ^ d); [lia | apply pow2_le; lia]. }
    assert (Hnorm : -1074 < e -> 2 ^ 52 <= Z.pos m).
    { intros He. replace d with 53 in Hd by lia. exact (proj1 Hd). }
    assert (HX : 0 < 2 ^ (e + K)) by (apply pow2_pos; lia).
    assert (Hlow : forall c, 53 + e <= c -> 0 <= c + K ->
                     Z.pos m * 2 ^ (e + K) <= 2 ^ (c + K)).
    { intros c Hc1 Hc2.
      apply Z.le_trans with (2 ^ 53 * 2 ^ (e + K)); [nia|].
      rewrite <- pow2_add by lia. apply pow2_le. lia. }
    assert (H1' : e < -52 \/ (e = -52 /\ Z.pos m <= 2 ^ 52)).
    { unfold SFleb in H1. rewrite SFcompare_pos in H1.
      destruct (Z.compare_spec e (-52)) as [He|He|He]; [|now left|discriminate].
      right. split; [exact He|].
      pose proof (compare_52 m) as Hs.
      destruct (m ?= 4503599627370496)%positive;
        [rewrite Hs; apply Z.le_refl | apply Z.lt_le_incl, Hs | discriminate]. }
    assert (E52 : forall c, 0 <= c + K -> 2 ^ 52 * 2 ^ (c + K) = 2 ^ (52 + c + K)).
    { intros c Hc0. rewrite <- pow2_add by lia. f_equal. lia. }
    split; [lia|]. split; [|split].
    + destruct H1' as [He|[-> Hm]]; [apply (Hlow 0); lia|].
      apply Z.le_trans with (2 ^ 52 * 2 ^ (-52 + K)); [nia|].
      rewrite E52 by lia. apply pow2_le. lia.
    + unfold SFltb. rewrite SFcompare_pos.
      destruct (Z.compare_spec e (-53)) as [He|He|He]; [| |discriminate].
      * pose proof (compare_52 m) as Hs.
        destruct (m ?= 4503599627370496)%positive;
          [discriminate| |discriminate].
        intros _. subst e.
        apply Z.le_trans with (2 ^ 52 * 2 ^ (-53 + K)); [nia|].
        rewrite E52 by lia. apply pow2_le. lia.
      * intros _. apply (Hlow (-1)); lia.
    + unfold SFltb. rewrite SFcompare_pos.
      destruct (Z.compare_spec e (-53)) as [He|He|He]; [|discriminate|].
      * pose proof (compare_52 m) as Hs.
        destruct (m ?= 4503599627370496)%positive;
          [|discriminate|]; intros _; subst e;
          (apply Z.le_trans with (2 ^ 52 * 2 ^ (-53 + K));
           [rewrite E52 by lia; apply pow2_le; lia | nia]).
      * intros _. assert (He52 : e = -52) by lia. subst e.
        pose proof (Hnorm ltac:(lia)) as Hm.
        apply Z.le_trans with (2 ^ 52 * 2 ^ (-52 + K));
          [rewrite E52 by lia; apply pow2_le; lia | nia].
Qed.
End Binary64.


(** ** The heat-map colours and the overlay *)

Lemma py_int_nonneg x : 0 <= x -> py_int x = Qfloor x.
Proof.
  destruct x as [n d]. unfold Qle, py_int, Qfloor. simpl.
  intros H. apply Z.quot_div_nonneg; lia.
Qed.

Lemma py_int_bounds x n :
  0 <= x -> x <= inject_Z n -> (0 <= py_int x <= n)%Z.
Proof.
  intros H0 Hn. rewrite (py_int_nonneg _ H0). split.
  - change 0%Z with (Qfloor 0). now apply Qfloor_resp_le.
  - rewrite <- (Qfloor_Z n). now apply Qfloor_resp_le.
Qed.

Lemma uint8_small z : (0 <= z <= 255)%Z -> uint8 z = z.
Proof. intros H. unfold uint8. apply Z.mod_small. lia. Qed.

Lemma ramp_check_bytes : forallb ramp_check (map Z.of_nat (seq 0 256)) = true.
Proof. vm_compute. reflexivity. Qed.

Lemma ramp_check_byte k : (0 <= k <= 255)%Z -> ramp_check k = true.
Proof.
  intros Hk. pose proof ramp_check_bytes as H.
  rewrite forallb_forall in H. apply H.
  apply in_map_iff. exists (Z.to_nat k). split; [lia|]. apply in_seq. lia.
Qed.

Lemma is_unit_float_spec v : is_unit_float v = true <-> unit_float v.
Proof.
  unfold is_unit_float, unit_float. rewrite !andb_true_iff. tauto.
Qed.

Section Ramp.
Local Open Scope Z_scope.
Local Abbreviation K := f64_scale.

(** The colour of every float between [0.0] and [1.0]. *)
Lemma colorize_unit_interval v :
  valid_binary 53 1024 v = true ->
  SFleb (f64_of_Z 0) v = true -> SFleb v (f64_of_Z 1) = true ->
  exists r g b,
    colorize v = Ok (r, g, b) /\
    byte_range r /\ byte_range g /\ byte_range b /\
    (SFltb v f64_half = true ->
     r = 0 /\
     f64_int (f64_mul v (f64_of_Z 510)) = Ok g /\
     f64_int (f64_sub (f64_of_Z 255) (f64_mul v (f64_of_Z 510))) = Ok b) /\
    (SFltb v f64_half = false ->
     f64_int (f64_mul (f64_sub v f64_half) (f64_of_Z 510)) = Ok r /\
     f64_int (f64_sub (f64_of_Z 255)
                (f64_mul (f64_sub v f64_half) (f64_of_Z 510))) = Ok g /\
     b = 0).
Proof.
  intros Hv H0 H1. pose proof (eq_refl : K = 1200) as HK.
  assert (Hramp : forall w,
            at_most 1 (-1) w ->
            exists y z,
              f64_int (f64_mul w (f64_of_Z 510)) = Ok y /\
              f64_int (f64_sub (f64_of_Z 255) (f64_mul w (f64_of_Z 510)))
              = Ok z /\
              0 <= y <= 255 /\ 0 <= z <= 255).
  { intros w Hw. apply f64_mul_510_at_most in Hw.
    destruct (f64_int_at_most _ Hw) as (y & Hy & Hyr).
    apply f64_sub_255_at_most in Hw.
    destruct (f64_int_at_most _ Hw) as (z & Hz & Hzr).
    now exists y, z. }
  unfold colorize.
  destruct (unit_interval_cases v Hv H0 H1)
    as [[s ->]|(m & e & -> & He & Hle & Hlt & Hge)].
  - assert (E : SFltb (S754_zero s) f64_half = true)
      by (rewrite f64_half_eq; reflexivity).
    rewrite E. destruct (Hramp (S754_zero s) I) as (y & z & Hy & Hz & Hyr & Hzr).
    rewrite Hy. cbn [bind]. rewrite Hz. cbn [bind].
    rewrite (uint8_small y Hyr), (uint8_small z Hzr).
    exists 0, y, z. repeat split; try lia; try assumption; discriminate.
  - destruct (SFltb (S754_finite false m e) f64_half) eqn:E.
    + assert (Hw : at_most 1 (-1) (S754_finite false m e)).
      { cbn [at_most]. split; [lia|]. rewrite Z.mul_1_l. now apply Hlt. }
      destruct (Hramp _ Hw) as (y & z & Hy & Hz & Hyr & Hzr).
      rewrite Hy. cbn [bind]. rewrite Hz. cbn [bind].
      rewrite (uint8_small y Hyr), (uint8_small z Hzr).
      exists 0, y, z. repeat split; try lia; try assumption; discriminate.
    + assert (Hw : at_most 1 (-1) (f64_sub (S754_finite false m e) f64_half)).
      { rewrite f64_half_eq. apply f64_sub_finite_at_most; try lia.
        specialize (Hge eq_refl).
        change (Z.pos 4503599627370496) with (2 ^ 52).
        rewrite <- pow2_add by lia.
        replace (52 + (-53 + K)) with (-1 + K) by lia.
        assert (E2 : 2 ^ K = 2 * 2 ^ (-1 + K)).
        { change 2 with (2 ^ 1) at 2. rewrite <- pow2_add by lia.
          reflexivity. }
        lia. }
      destruct (Hramp _ Hw) as (y & z & Hy & Hz & Hyr & Hzr).
      rewrite Hy. cbn [bind]. rewrite Hz. cbn [bind].
      rewrite (uint8_small y Hyr), (uint8_small z Hzr).
      exists y, z, 0. repeat split; try lia; try assumption; discriminate.
Qed.
End Ramp.

(** C7.  The intensity [v] of a pixel is a binary64 float.  For every float
    between [0.0] and [1.0] the colour is computed without error and is
    [(0, int(v * 510), int(255 - v * 510))] when [v < 0.5] and
    [(int((v - 0.5) * 510), int(255 - (v - 0.5) * 510), 0)] otherwise, the
    products and differences being those of binary64 and [int] dropping the
    fraction; every channel lies between 0 and 255, so that storing it as a
    byte changes nothing.  The intensities the code colours are the bytes
    [k] of the resized map divided by [255.0]: each is such a float, it
    compares with [0.5] as its value compares with one half, and each
    channel of its colour is less than one away from the exact value of the
    ramp.  Intensity [0.0] gives blue, [0.5] gives green through the second
    branch, [1.0] gives red. *)
Theorem colorize_ramp (v : spec_float) :
  valid_binary 53 1024 v = true ->
  SFleb (f64_of_Z 0) v = true -> SFleb v (f64_of_Z 1) = true ->
  (exists r g b,
     colorize v = Ok (r, g, b) /\
     byte_range r /\ byte_range g /\ byte_range b /\
     (SFltb v f64_half = true ->
      r = 0%Z /\
      f64_int (f64_mul v (f64_of_Z 510)) = Ok g /\
      f64_int (f64_sub (f64_of_Z 255) (f64_mul v (f64_of_Z 510))) = Ok b) /\
     (SFltb v f64_half = false ->
      f64_int (f64_mul (f64_sub v f64_half) (f64_of_Z 510)) = Ok r /\
      f64_int (f64_sub (f64_of_Z 255)
                 (f64_mul (f64_sub v f64_half) (f64_of_Z 510))) = Ok g /\
      b = 0%Z)) /\
  (forall k,
     (0 <= k <= 255)%Z ->
     unit_float (byte_intensity k) /\
     (SFltb (byte_intensity k) f64_half = true
      <-> f64_value (byte_intensity k) < 1 # 2) /\
     exists r g b,
       colorize (byte_intensity k) = Ok (r, g, b) /\
       within_one r (fst (fst (ramp_exact (f64_value (byte_intensity k))))) /\
       within_one g (snd (fst (ramp_exact (f64_value (byte_intensity k))))) /\
       within_one b (snd (ramp_exact (f64_value (byte_intensity k))))) /\
  colorize (f64_of_Z 0) = Ok (0, 0, 255)%Z /\
  (SFltb f64_half f64_half = false /\
   colorize f64_half = Ok (0, 255, 0)%Z) /\
  colorize (f64_of_Z 1) = Ok (255, 0, 0)%Z.
Proof.
  intros Hv H0 H1.
  split; [exact (colorize_unit_interval v Hv H0 H1)|]. split.
  - intros k Hk. pose proof (ramp_check_byte k Hk) as H.
    unfold ramp_check in H.
    destruct (colorize (byte_intensity k)) as [[[r g] b]|e] eqn:Ec;
      [|discriminate].
    destruct (ramp_exact (f64_value (byte_intensity k))) as [[R G] B] eqn:Er.
    apply andb_true_iff in H as [H Hb]. apply andb_true_iff in H as [H Hg].
    apply andb_true_iff in H as [H Hr]. apply andb_true_iff in H as [H Hcmp].
    apply Qltb_lt in Hr, Hg, Hb. apply Bool.eqb_prop in Hcmp.
    apply is_unit_float_spec in H. split; [exact H|]. split.
    + rewrite Hcmp. apply Qltb_lt.
    + exists r, g, b. cbn [fst snd]. repeat split; assumption.
  - repeat split; vm_compute; reflexivity.
Qed.

Lemma colorize_ramp_witness :
  colorize (byte_intensity 128) = Ok (0, 254, 0)%Z /\
  SFltb (byte_intensity 128) f64_half = false /\
  f64_int (f64_mul (f64_sub (byte_intensity 128) f64_half) (f64_of_Z 510))
  = Ok 0%Z.
Proof.
  assert (Hv : valid_binary 53 1024 (byte_intensity 128) = true)
    by (vm_compute; reflexivity).
  assert (H0 : SFleb (f64_of_Z 0) (byte_intensity 128) = true)
    by (vm_compute; reflexivity).
  assert (H1 : SFleb (byte_intensity 128) (f64_of_Z 1) = true)
    by (vm_compute; reflexivity).
  assert (Hc : colorize (byte_intensity 128) = Ok (0, 254, 0)%Z)
    by (vm_compute; reflexivity).
  assert (Hlt : SFltb (byte_intensity 128) f64_half = false)
    by (vm_compute; reflexivity).
  destruct (colorize_ramp (byte_intensity 128) Hv H0 H1)
    as ((r & g & b & Hrgb & _ & _ & _ & _ & Hhi) & _).
  split; [exact Hc|]. split; [exact Hlt|].
  destruct (Hhi Hlt) as (Hr & _ & _).
  rewrite Hc in Hrgb. injection Hrgb as <- <- <-. exact Hr.
Defined.

Lemma half_sum_int h o :
  byte_range h -> byte_range o ->
  py_int ((1 # 2) * inject_Z h + (1 # 2) * inject_Z o) = ((h + o) / 2)%Z /\
  byte_range ((h + o) / 2).
Proof.
  unfold byte_range. intros Hh Ho.
  assert (E : (1 # 2) * inject_Z h + (1 # 2) * inject_Z o
              == inject_Z (h + o) / inject_Z 2).
  { rewrite inject_Z_plus. field. }
  assert (H0 : 0 <= (1 # 2) * inject_Z h + (1 # 2) * inject_Z o).
  { rewrite E. apply Qle_shift_div_l; [reflexivity|].
    rewrite Qmult_0_l. change 0 with (inject_Z 0).
    rewrite <- Zle_Qle. lia. }
  split.
  - now rewrite (py_int_nonneg _ H0), (Qfloor_comp _ _ E), <- Zdiv_Qdiv.
  - split; [apply Z.div_pos | apply Z.div_le_upper_bound]; lia.
Qed.

Lemma blend_floor h o :
  byte_range h -> byte_range o -> blend h o = ((h + o) / 2)%Z.
Proof.
  intros Hh Ho. destruct (half_sum_int h o Hh Ho) as [E Hr].
  unfold blend. rewrite E. now apply uint8_small.
Qed.

Lemma nth_error_zip_with {A B C} (f : A -> B -> C) l l' i a b :
  nth_error l i = Some a -> nth_error l' i = Some b ->
  nth_error (zip_with f l l') i = Some (f a b).
Proof.
  revert l' i. induction l as [|x l IH]; intros [|y l'] [|i]; simpl;
    try discriminate.
  - now intros [= ->] [= ->].
  - apply IH.
Qed.

(** C8, as amended.  For every pixel and channel the overlay is
    [0.5 * heat + 0.5 * original] with its fraction dropped, that is the
    sum of the two bytes halved and rounded down. *)
Theorem blended_is_floor_of_mean colored original i j c h o :
  at3 colored i j c = Some h -> at3 original i j c = Some o ->
  byte_range h -> byte_range o ->
  at3 (blended colored original) i j c
  = Some (py_int ((1 # 2) * inject_Z h + (1 # 2) * inject_Z o)) /\
  py_int ((1 # 2) * inject_Z h + (1 # 2) * inject_Z o) = ((h + o) / 2)%Z.
Proof.
  unfold at3, blended. intros Hc Ho Hh Hob.
  destruct (nth_error colored i) as [crow|] eqn:E1; [|discriminate].
  destruct (nth_error original i) as [orow|] eqn:E2; [|discriminate].
  destruct (nth_error crow j) as [cpx|] eqn:E3; [|discriminate].
  destruct (nth_error orow j) as [opx|] eqn:E4; [|discriminate].
  rewrite (nth_error_zip_with _ _ _ _ _ _ E1 E2).
  rewrite (nth_error_zip_with _ _ _ _ _ _ E3 E4).
  rewrite (nth_error_zip_with _ _ _ _ _ _ Hc Ho).
  destruct (half_sum_int h o Hh Hob) as [Hint _].
  split; [|exact Hint]. f_equal. rewrite Hint. now apply blend_floor.
Qed.

Lemma blended_is_floor_of_mean_witness :
  at3 (blended [[[0; 0; 255]]]%Z [[[10; 20; 30]]]%Z) 0 0 2 = Some 142%Z.
Proof.
  assert (H1 : at3 [[[0; 0; 255]]]%Z 0 0 2 = Some 255%Z) by reflexivity.
  assert (H2 : at3 [[[10; 20; 30]]]%Z 0 0 2 = Some 30%Z) by reflexivity.
  assert (R1 : byte_range 255%Z) by (unfold byte_range; lia).
  assert (R2 : byte_range 30%Z) by (unfold byte_range; lia).
  destruct (blended_is_floor_of_mean _ _ _ _ _ _ _ H1 H2 R1 R2) as [H E].
  rewrite H, E. reflexivity.
Defined.

(** C8, as stated, fails: on a black pixel under the blue end of the ramp
    the code stores 127, while 127.5 rounds to 128 whichever way ties are
    broken. *)
Lemma blend_is_not_rounding :
  blend 255%Z 0%Z = 127%Z /\
  round_half_even ((1 # 2) * inject_Z 255 + (1 # 2) * inject_Z 0) = 128%Z /\
  round_half_up ((1 # 2) * inject_Z 255 + (1 # 2) * inject_Z 0) = 128%Z /\
  blend 255%Z 0%Z
  <> round_half_even ((1 # 2) * inject_Z 255 + (1 # 2) * inject_Z 0).
Proof. repeat split; try reflexivity. vm_compute. discriminate. Qed.
(** ** Colouring a whole map *)





(** ** The series analysis *)

Lemma flat_map_ext_in {A B} (f g : A -> list B) l :
  (forall x, In x l -> f x = g x) -> flat_map f l = flat_map g l.
Proof.
  induction l as [|x l IH]; intros H; simpl; [reflexivity|].
  rewrite (H x) by now left. rewrite IH; [reflexivity|].
  intros y Hy. apply H. now right.
Qed.

Lemma flat_map_map {A B C} (f : B -> list C) (g : A -> B) l :
  flat_map f (map g l) = flat_map (fun x => f (g x)) l.
Proof. induction l as [|x l IH]; simpl; [reflexivity | now rewrite IH]. Qed.

Lemma detect_changes_cons a b l :
  detect_changes (a :: b :: l)
  = (if negb (String.eqb (se_class a) (se_class b))
     then [change_of a b] else [])
    ++ detect_changes (b :: l).
Proof.
  unfold detect_changes.
  change (List.length (a :: b :: l) - 1)%nat with (S (List.length l)).
  change (List.length (b :: l) - 1)%nat with (List.length l - 0)%nat.
  rewrite Nat.sub_0_r. cbn [seq flat_map]. f_equal.
  rewrite <- seq_shift, flat_map_map. apply flat_map_ext_in.
  intros i Hi. apply in_seq in Hi. destruct i as [|i]; [lia|].
  cbn [Nat.sub nth_error]. now rewrite Nat.sub_0_r.
Qed.

Lemma detect_changes_adjacent results :
  detect_changes results = adjacent_changes results.
Proof.
  induction results as [|a [|b l] IH]; try reflexivity.
  rewrite detect_changes_cons, IH. reflexivity.
Qed.

Lemma adjacent_changes_in results ev :
  In ev (adjacent_changes results) <->
  exists i prev curr,
    nth_error results i = Some prev /\
    nth_error results (S i) = Some curr /\
    se_class prev <> se_class curr /\
    ev = change_of prev curr.
Proof.
  induction results as [|a [|b l] IH].
  - simpl. split; [tauto|]. intros (i & p & c & H & _). now destruct i.
  - simpl. split; [tauto|]. intros (i & p & c & _ & H & _).
    now destruct i as [|[|i]].
  - change (adjacent_changes (a :: b :: l))
      with ((if negb (String.eqb (se_class a) (se_class b))
             then [change_of a b] else []) ++ adjacent_changes (b :: l)).
    rewrite in_app_iff, IH. split.
    + intros [H|(i & p & c & Hp & Hc & Hne & ->)].
      * destruct (String.eqb_spec (se_class a) (se_class b)) as [|Hne];
          simpl in H; [tauto|]. destruct H as [<-|[]].
        now exists O, a, b.
      * now exists (S i), p, c.
    + intros ([|i] & p & c & Hp & Hc & Hne & ->).
      * left. simpl in Hp, Hc. injection Hp as <-. injection Hc as <-.
        destruct (String.eqb_spec (se_class a) (se_class b));
          [contradiction | now left].
      * right. now exists i, p, c.
Qed.

(** A run of the loop that no exception interrupts: the entries are those
    of the uploads in order, and every usable upload has been saved. *)
Lemma process_files_ok sp files key dates acc saved res fps :
  process_files sp files key dates acc saved = Ok (res, fps) ->
  res = acc ++ flat_map (entry_of_upload sp key dates) files /\
  fps = saved ++ saved_uploads files.
Proof.
  revert acc saved. induction files as [|[i f] files IH]; intros acc saved;
    simpl.
  - intros [= <- <-]. now rewrite !app_nil_r.
  - unfold entry_of_upload at 1, saved_uploads, usable. cbn [fst snd filter].
    fold (usable f). unfold usable.
    destruct (String.eqb (filename f) ""); simpl; [apply IH|].
    destruct (allowed_file (filename f)); simpl; [|apply IH].
    destruct (sp i f key) as [[r|msg]|e]; cbn [bind]; [| |discriminate];
      intros H; apply IH in H as [-> ->]; rewrite <- !app_assoc; split;
      reflexivity.
Qed.

(** The loop stops at the first usable upload that cannot be saved. *)
Lemma process_files_raise sp files key dates acc saved e :
  process_files sp files key dates acc saved = Raise e ->
  exists i f, In (i, f) files /\ usable f = true /\ sp i f key = Raise e.
Proof.
  revert acc saved. induction files as [|[i f] files IH]; intros acc saved;
    simpl; [discriminate|].
  destruct (String.eqb (filename f) "" || negb (allowed_file (filename f)))%bool
    eqn:Eu.
  - intros H. apply IH in H as (j & g & Hin & Hu & Hs).
    exists j, g. split; [now right | now split].
  - assert (Hu : usable f = true).
    { unfold usable. apply orb_false_iff in Eu as [E1 E2].
      apply negb_false_iff in E2. now rewrite E1, E2. }
    destruct (sp i f key) as [[r|msg]|e'] eqn:Es; cbn [bind].
    + intros H. apply IH in H as (j & g & Hin & Hu' & Hs).
      exists j, g. split; [now right | now split].
    + intros H. apply IH in H as (j & g & Hin & Hu' & Hs).
      exists j, g. split; [now right | now split].
    + intros [= <-]. exists i, f. split; [now left | now split].
Qed.

Lemma entry_of_upload_date sp key dates u e :
  In e (entry_of_upload sp key dates u) ->
  se_date e = date_label dates (se_index e).
Proof.
  unfold entry_of_upload. destruct (usable (snd u)); [|intros []].
  destruct (sp (fst u) (snd u) key) as [[r|msg]|e'];
    [intros [<-|[]]; reflexivity | intros [] | intros []].
Qed.

Lemma process_files_dates sp files key dates res fps :
  process_files sp files key dates [] [] = Ok (res, fps) ->
  Forall (fun e => se_date e = date_label dates (se_index e)) res.
Proof.
  intros H. apply process_files_ok in H as [-> _]. cbn [app].
  apply Forall_forall. intros e He. apply in_flat_map in He as (u & _ & He).
  now apply entry_of_upload_date in He.
Qed.

Lemma analyze_series_inv sp rm request report :
  analyze_series sp rm request = Json report ->
  exists files key,
    req_images request = Some files /\
    key = match req_model request with Some m => m | None => "rgb" end /\
    sr_results report
    = flat_map (entry_of_upload sp key (req_dates request)) (enumerate files) /\
    (2 <= List.length (sr_results report))%nat /\
    sr_changes report = detect_changes (sr_results report) /\
    change_count report = List.length (sr_changes report) /\
    total_images report = List.length (sr_results report) /\
    tl_dates (sr_timeline report) = map se_date (sr_results report) /\
    tl_classes (sr_timeline report) = map se_class (sr_results report) /\
    tl_confidences (sr_timeline report)
    = map se_confidence (sr_results report) /\
    sr_model_used report = registry_name key.
Proof.
  unfold analyze_series.
  destruct (req_images request) as [files|]; [|discriminate].
  destruct (Nat.ltb (List.length files) 2); [discriminate|].
  set (key := match req_model request with Some m => m | None => "rgb" end).
  destruct (negb (dict_mem key MODEL_CONFIG)); [discriminate|].
  unfold series_body.
  destruct (process_files sp (enumerate files) key (req_dates request) [] [])
    as [[results fps]|e] eqn:Ep; cbn [bind fst snd]; [|discriminate].
  apply process_files_ok in Ep as [Hres _]. cbn [app] in Hres.
  destruct (rm fps) as [u|e]; cbn [bind]; [|discriminate].
  destruct (Nat.ltb (List.length results) 2) eqn:E; [discriminate|].
  unfold config_of.
  destruct (dict_get key MODEL_CONFIG) as [c|] eqn:Ec; cbn [bind];
    [|discriminate].
  intros [= <-]. exists files, key. unfold registry_name. rewrite Ec.
  cbn [sr_results sr_changes sr_timeline sr_model_used change_count
       total_images tl_dates tl_classes tl_confidences].
  apply Nat.ltb_ge in E. repeat split; auto.
Qed.

(** C9.  In a successful series report the change events are those of the
    adjacent pairs of classified images whose labels differ, in order; only
    the labels are compared.  An event carries the two labels, the two date
    labels and the two confidences, every date label being the supplied one
    or, failing that, "T" followed by the upload position plus one.  Two
    classified images with different labels give exactly one event. *)
Theorem analyze_series_changes sp rm request report :
  analyze_series sp rm request = Json report ->
  (forall ev,
     In ev (sr_changes report) <->
     exists i prev curr,
       nth_error (sr_results report) i = Some prev /\
       nth_error (sr_results report) (S i) = Some curr /\
       se_class prev <> se_class curr /\
       ev = mkChange (se_date prev) (se_date curr) (se_class prev)
              (se_class curr) (se_confidence prev) (se_confidence curr)) /\
  sr_changes report = adjacent_changes (sr_results report) /\
  change_count report = List.length (sr_changes report) /\
  Forall (fun e => se_date e = date_label (req_dates request) (se_index e))
    (sr_results report) /\
  (forall a b,
     sr_results report = [a; b] -> se_class a <> se_class b ->
     sr_changes report
     = [mkChange (se_date a) (se_date b) (se_class a) (se_class b)
          (se_confidence a) (se_confidence b)]).
Proof.
  intros H. apply analyze_series_inv in H
    as (files & key & _ & _ & Hres & _ & Hch & Hcount & _).
  rewrite Hch, detect_changes_adjacent.
  split; [|split; [reflexivity|split; [|split]]].
  - intros ev. apply adjacent_changes_in.
  - now rewrite Hcount, Hch, detect_changes_adjacent.
  - rewrite Hres. apply Forall_forall. intros e He.
    apply in_flat_map in He as (u & _ & He).
    now apply entry_of_upload_date in He.
  - intros a b -> Hne. simpl.
    destruct (String.eqb_spec (se_class a) (se_class b));
      [contradiction | reflexivity].
Qed.

Lemma analyze_series_changes_witness :
  exists report,
    analyze_series predict_by_position remove_all two_uploads = Json report /\
    sr_changes report
    = [mkChange "2024-05" "T2" "Forest" "River" 60 75].
Proof.
  assert (H : exists report,
             analyze_series predict_by_position remove_all two_uploads = Json report /\
             exists a b, sr_results report = [a; b] /\
                         se_class a <> se_class b /\
                         se_date a = "2024-05" /\ se_date b = "T2" /\
                         se_class a = "Forest" /\ se_class b = "River" /\
                         se_confidence a = 60 /\ se_confidence b = 75).
  { eexists. split; [vm_compute; reflexivity|].
    eexists _, _. split; [reflexivity|]. cbn.
    repeat split; try reflexivity. discriminate. }
  destruct H as (report & H & a & b & Hab & Hne & D1 & D2 & C1 & C2 & F1 & F2).
  exists report. split; [exact H|].
  destruct (analyze_series_changes _ _ _ _ H) as (_ & _ & _ & _ & Htwo).
  rewrite (Htwo a b Hab Hne). now rewrite D1, D2, C1, C2, F1, F2.
Defined.

(** ** [preprocess_image] *)

Lemma Forall_concat {A} (P : A -> Prop) (ls : list (list A)) :
  Forall P (List.concat ls) <-> Forall (Forall P) ls.
Proof.
  induction ls as [|l ls IH]; simpl.
  - split; constructor.
  - rewrite Forall_app, IH. split.
    + intros [H1 H2]. now constructor.
    + intros H. now inversion H.
Qed.

Lemma Forall_zip_with {A B C} (P1 : A -> Prop) (P2 : B -> Prop)
  (P3 : C -> Prop) (f : A -> B -> C) l l' :
  (forall a b, P1 a -> P2 b -> P3 (f a b)) ->
  Forall P1 l -> Forall P2 l' -> Forall P3 (zip_with f l l').
Proof.
  intros Hf Hl. revert l'. induction Hl as [|a l Ha _ IH]; intros l' Hl'.
  - constructor.
  - destruct Hl' as [|b l' Hb Hl']; simpl; constructor; auto.
Qed.

Lemma length_zip_with {A B C} (f : A -> B -> C) l l' :
  List.length (zip_with f l l') = Nat.min (List.length l) (List.length l').
Proof.
  revert l'. induction l as [|a l IH]; intros [|b l']; simpl; auto.
Qed.

Lemma grid_map_px {A B} (f : A -> B) h w rows :
  grid h w rows -> grid h w (map_px f rows).
Proof.
  unfold grid, map_px. intros [Hh Hw]. split; [now rewrite length_map|].
  apply Forall_map. eapply Forall_impl; [|exact Hw].
  intros r Hr. now rewrite length_map.
Qed.

Lemma all_map_px {A B} (P1 : A -> Prop) (P2 : B -> Prop) (f : A -> B) rows :
  (forall x, P1 x -> P2 (f x)) ->
  Forall (Forall P1) rows -> Forall (Forall P2) (map_px f rows).
Proof.
  intros Hf H. unfold map_px. apply Forall_map.
  eapply Forall_impl; [|exact H]. intros r Hr. apply Forall_map.
  eapply Forall_impl; [|exact Hr]. exact Hf.
Qed.

Lemma all_True {A} (rows : list (list A)) : Forall (Forall (fun _ => True)) rows.
Proof. apply Forall_forall. intros r _. apply Forall_forall. auto. Qed.

Lemma grid_concat_last h w a b :
  grid h w a -> grid h w b -> grid h w (concat_last a b).
Proof.
  unfold grid, concat_last. intros [Ha Wa] [Hb Wb]. split.
  - rewrite length_zip_with. lia.
  - eapply Forall_zip_with; [|exact Wa|exact Wb].
    intros r r' Hr Hr'. cbn beta in *. rewrite length_zip_with. lia.
Qed.

Lemma all_concat_last (P1 P2 P3 : list Q -> Prop) a b :
  (forall p q, P1 p -> P2 q -> P3 (p ++ q)) ->
  Forall (Forall P1) a -> Forall (Forall P2) b ->
  Forall (Forall P3) (concat_last a b).
Proof.
  intros Hf Ha Hb. unfold concat_last.
  eapply Forall_zip_with; [|exact Ha|exact Hb].
  intros r r' Hr Hr'. eapply Forall_zip_with; [|exact Hr|exact Hr'].
  exact Hf.
Qed.

Lemma tile_last_ok n c R h w rows :
  (1 <= n)%nat -> grid h w rows -> Forall (Forall (px c R)) rows ->
  grid h w (tile_last n rows) /\
  Forall (Forall (px (n * c) R)) (tile_last n rows).
Proof.
  intros Hn Hg Hpx. induction n as [|n IH]; [lia|].
  destruct n as [|n].
  - cbn [tile_last]. rewrite Nat.mul_1_l. now split.
  - destruct IH as [IHg IHpx]; [lia|].
    change (tile_last (S (S n)) rows)
      with (concat_last rows (tile_last (S n) rows)).
    split; [now apply grid_concat_last|].
    eapply all_concat_last; [|exact Hpx|exact IHpx].
    intros p q [Lp Rp] [Lq Rq]. split.
    + rewrite length_app, Lp, Lq. lia.
    + apply Forall_app. now split.
Qed.

Lemma qsum_bounds lo hi p :
  Forall (fun v => lo <= v /\ v <= hi) p ->
  inject_Z (Z.of_nat (List.length p)) * lo <= qsum p /\
  qsum p <= inject_Z (Z.of_nat (List.length p)) * hi.
Proof.
  induction 1 as [|v p [Hlo Hhi] _ [IHlo IHhi]].
  - simpl. change (inject_Z 0) with 0. split; lra.
  - cbn [List.length qsum fold_right]. rewrite Nat2Z.inj_succ.
    unfold Z.succ. rewrite inject_Z_plus.
    change (fold_right Qplus 0 p) with (qsum p).
    change (inject_Z 1) with 1. split; lra.
Qed.

Lemma mean_bounds lo hi p :
  p <> [] -> Forall (fun v => lo <= v /\ v <= hi) p ->
  lo <= mean p /\ mean p <= hi.
Proof.
  intros Hne H. destruct (qsum_bounds _ _ _ H) as [Hlo Hhi]. unfold mean.
  assert (Hn : 0 < inject_Z (Z.of_nat (List.length p))).
  { change 0 with (inject_Z 0). rewrite <- Zlt_Qlt.
    destruct p; [congruence | simpl; lia]. }
  split.
  - apply Qle_shift_div_l; [exact Hn|]. now rewrite Qmult_comm.
  - apply Qle_shift_div_r; [exact Hn|]. now rewrite Qmult_comm.
Qed.

Lemma samples_nested R a :
  Forall R (samples a) <->
  match a with
  | Arr2 rows => Forall (Forall R) rows
  | Arr3 _ rows => Forall (Forall (Forall R)) rows
  end.
Proof.
  destruct a as [rows|c rows]; simpl.
  - apply Forall_concat.
  - rewrite Forall_concat. apply Forall_concat.
Qed.

Lemma all_and {A} (P1 P2 : A -> Prop) (rows : list (list A)) :
  Forall (Forall P1) rows -> Forall (Forall P2) rows ->
  Forall (Forall (fun x => P1 x /\ P2 x)) rows.
Proof.
  intros H1. induction H1 as [|r rows Hr _ IH]; intros H2; [constructor|].
  inversion_clear H2 as [|? ? Hr2 Hrows2]. constructor; [|now apply IH].
  rewrite Forall_forall in Hr, Hr2 |- *. auto.
Qed.

Lemma config_cases key cfg :
  config_of key = Ok cfg ->
  (key = "rgb" /\ channels cfg = 3%nat) \/
  (key = "rgb_nir" /\ channels cfg = 4%nat) \/
  (key = "ndvi" /\ channels cfg = 1%nat).
Proof.
  unfold config_of, MODEL_CONFIG. cbn [dict_get].
  destruct (String.eqb_spec key "rgb") as [->|_];
    [intros [= <-]; now left|].
  destruct (String.eqb_spec key "rgb_nir") as [->|_];
    [intros [= <-]; right; now left|].
  destruct (String.eqb_spec key "ndvi") as [->|_];
    [intros [= <-]; right; now right | discriminate].
Qed.

Lemma config_input_size key cfg :
  config_of key = Ok cfg ->
  fst (fst (input_shape cfg)) = 64%nat /\ snd (fst (input_shape cfg)) = 64%nat.
Proof.
  unfold config_of, MODEL_CONFIG. cbn [dict_get].
  repeat match goal with
         | |- context [String.eqb key ?s] => destruct (String.eqb key s)
         end; try discriminate; intros [= <-]; now split.
Qed.

Ltac conv_case g p :=
  split; [reflexivity|]; split; [g|]; split; [p|]; split; [lia|];
  split; [intros _; reflexivity
         | intros C; exfalso; apply C; simpl; auto 6].

(** The channel conversion keeps height, width and every property of the
    samples that averaging preserves; it reaches the declared channel count
    from every source it has a branch for and leaves the others alone. *)
Lemma convert_channels_ok key cfg arr h w (R : Q -> Prop) :
  config_of key = Ok cfg -> shaped h w arr ->
  (forall c, last_dim arr = Some c -> (0 < c)%nat) ->
  Forall R (samples arr) ->
  (forall p, p <> [] -> Forall R p -> R (mean p)) ->
  exists c rows,
    convert_channels key arr = Arr3 c rows /\
    grid h w rows /\ Forall (Forall (px c R)) rows /\ (0 < c)%nat /\
    (key = "ndvi" \/ convertible arr -> c = channels cfg) /\
    (~ (key = "ndvi" \/ convertible arr) -> last_dim arr = Some c).
Proof.
  intros Hcfg Hshape Hpos HR Hmean. apply samples_nested in HR.
  assert (Hone : forall v, R v -> px 1 R [v])
    by (intros v Hv; split; [reflexivity | now constructor]).
  assert (Hrep : forall n v, R v -> px n R (repeat v n)).
  { intros n v Hv. split; [apply repeat_length|].
    apply Forall_forall. intros x Hx. apply repeat_spec in Hx. now subst. }
  assert (Havg : forall c p, (0 < c)%nat -> px c R p -> px 1 R [mean p]).
  { intros c p Hc [Lp Rp]. apply Hone. apply Hmean; [|exact Rp].
    destruct p; [simpl in Lp; lia | discriminate]. }
  destruct arr as [rows|c0 rows]; cbn [shaped samples] in *.
  - (* rank 2 *)
    destruct (config_cases _ _ Hcfg) as [[-> Hc]|[[-> Hc]|[-> Hc]]];
      cbn [convert_channels String.eqb Ascii.eqb Bool.eqb]; rewrite Hc.
    + exists 3%nat, (stack_last 3 rows).
      conv_case ltac:(now apply grid_map_px)
                ltac:(eapply all_map_px; [|exact HR]; intros v Hv;
                      now apply Hrep).
    + exists 4%nat, (stack_last 4 rows).
      conv_case ltac:(now apply grid_map_px)
                ltac:(eapply all_map_px; [|exact HR]; intros v Hv;
                      now apply Hrep).
    + exists 1%nat, (expand_last rows).
      conv_case ltac:(now apply grid_map_px)
                ltac:(eapply all_map_px; [|exact HR]; exact Hone).
  - (* rank 3 *)
    destruct Hshape as [Hgrid Hlen].
    specialize (Hpos c0 eq_refl).
    pose proof (all_and _ _ _ Hlen HR) as Hpx. fold (px c0 R) in Hpx.
    destruct (config_cases _ _ Hcfg) as [[-> Hc]|[[-> Hc]|[-> Hc]]];
      cbn [convert_channels String.eqb Ascii.eqb Bool.eqb]; rewrite Hc.
    + destruct (Nat.eqb_spec c0 4) as [->|N4];
        [|destruct (Nat.eqb_spec c0 1) as [->|N1]].
      * assert (Hq : Forall (Forall (px 3 R)) (take_channels 3 rows)).
        { eapply all_map_px; [|exact Hpx]. intros p [Lp Rp]. split.
          - rewrite length_firstn. lia.
          - apply Forall_forall. intros x Hx.
            rewrite Forall_forall in Rp. apply Rp.
            rewrite <- (firstn_skipn 3 p). apply in_or_app. now left. }
        exists 3%nat, (take_channels 3 rows).
        conv_case ltac:(now apply grid_map_px) ltac:(exact Hq).
      * destruct (tile_last_ok 3 1 R h w rows) as [Tg Tp]; auto.
        exists 3%nat, (tile_last 3 rows).
        conv_case ltac:(exact Tg) ltac:(exact Tp).
      * exists c0, rows. split; [reflexivity|].
        split; [exact Hgrid|]. split; [exact Hpx|]. split; [exact Hpos|].
        split; [|reflexivity].
        intros [C|C]; [discriminate|]. simpl in C. lia.
    + destruct (Nat.eqb_spec c0 3) as [->|N3];
        [|destruct (Nat.eqb_spec c0 1) as [->|N1]].
      * exists 4%nat, (concat_last rows (mean_axis2 rows)).
        assert (Hm : Forall (Forall (px 1 R)) (mean_axis2 rows)).
        { eapply all_map_px; [|exact Hpx]. intros p Hp.
          now apply (Havg 3%nat). }
        assert (Hq : Forall (Forall (px 4 R))
                       (concat_last rows (mean_axis2 rows))).
        { eapply all_concat_last; [|exact Hpx|exact Hm].
          intros p q [Lp Rp] [Lq Rq]. split.
          - rewrite length_app, Lp, Lq. reflexivity.
          - apply Forall_app. now split. }
        conv_case ltac:(apply grid_concat_last;
                        [exact Hgrid | now apply grid_map_px])
                  ltac:(exact Hq).
      * destruct (tile_last_ok 4 1 R h w rows) as [Tg Tp]; auto.
        exists 4%nat, (tile_last 4 rows).
        conv_case ltac:(exact Tg) ltac:(exact Tp).
      * exists c0, rows. split; [reflexivity|].
        split; [exact Hgrid|]. split; [exact Hpx|]. split; [exact Hpos|].
        split; [|reflexivity].
        intros [C|C]; [discriminate|]. simpl in C. lia.
    + exists 1%nat, (mean_axis2 rows).
      conv_case ltac:(now apply grid_map_px)
                ltac:(eapply all_map_px; [|exact Hpx]; intros p Hp;
                      now apply (Havg c0)).
Qed.

Lemma fold_max_gt t l x :
  t < fold_left Qmax l x <-> Exists (fun v => t < v) (x :: l).
Proof.
  revert x. induction l as [|y l IH]; intros x; simpl.
  - split; [intros H; now left | intros H].
    inversion_clear H as [? ? H1|? ? H1]; [exact H1 | inversion H1].
  - rewrite IH. split; intros H.
    + inversion_clear H as [? ? H1|? ? H1].
      * apply Q.max_lt_iff in H1 as [H1|H1]; [now left|].
        right. now left.
      * right. now right.
    + inversion_clear H as [? ? H1|? ? H1].
      * left. apply Q.max_lt_iff. now left.
      * inversion_clear H1 as [? ? H2|? ? H2].
        -- left. apply Q.max_lt_iff. now right.
        -- now right.
Qed.

Lemma fold_max_upper l x :
  Forall (fun v => v <= fold_left Qmax l x) (x :: l).
Proof.
  revert x. induction l as [|y l IH]; intros x; simpl.
  - constructor; [apply Qle_refl | constructor].
  - specialize (IH (Qmax x y)). inversion_clear IH as [|? ? Hm Hl].
    constructor; [|constructor]; try exact Hl.
    + eapply Qle_trans; [apply Q.le_max_l | exact Hm].
    + eapply Qle_trans; [apply Q.le_max_r | exact Hm].
Qed.

(** What [normalize] does: it fails on an array without samples only; it
    divides every sample by 255 exactly when some sample exceeds 1, and
    returns the array untouched otherwise. *)
Lemma normalize_spec a :
  (samples a = [] -> exists e, normalize a = Raise e) /\
  (samples a <> [] ->
   (Exists (fun v => 1 < v) (samples a) /\
    normalize a = Ok (map_samples (fun v => v / 255) a)) \/
   (Forall (fun v => v <= 1) (samples a) /\ normalize a = Ok a)).
Proof.
  unfold normalize, amax. destruct (samples a) as [|x l] eqn:Es.
  - split; [intros _; eexists; reflexivity | congruence].
  - split; [discriminate|]. intros _. cbn [bind].
    destruct (Qltb 1 (fold_left Qmax l x)) eqn:E.
    + left. split; [|reflexivity]. apply fold_max_gt. now apply Qltb_lt.
    + right. split; [|reflexivity]. apply Qltb_ge in E.
      eapply Forall_impl; [|apply fold_max_upper].
      intros v Hv. cbn beta in Hv. eapply Qle_trans; eassumption.
Qed.

Lemma shaped_samples_nonempty h w c rows :
  (0 < h)%nat -> (0 < w)%nat -> (0 < c)%nat ->
  grid h w rows -> Forall (Forall (fun p => List.length p = c)) rows ->
  samples (Arr3 c rows) <> [].
Proof.
  intros Hh Hw Hc [Lh Lw] Hpx. simpl.
  destruct rows as [|r rows]; [simpl in Lh; lia|].
  inversion_clear Lw as [|? ? Lr _]. inversion_clear Hpx as [|? ? Hr _].
  destruct r as [|p r]; [simpl in Lr; lia|].
  inversion_clear Hr as [|? ? Lp _].
  destruct p as [|v p]; [simpl in Lp; lia|]. discriminate.
Qed.

Lemma px_split c R rows :
  Forall (Forall (px c R)) rows ->
  Forall (Forall (fun p => List.length p = c)) rows /\
  Forall (Forall (Forall R)) rows.
Proof.
  intros H. split; (eapply Forall_impl; [|exact H]); intros r Hr;
    (eapply Forall_impl; [|exact Hr]); intros p [Lp Rp]; assumption.
Qed.

(** The whole of [preprocess_image] on a decoded array of positive height,
    width and channel count. *)
Lemma preprocess_image_ok open_resized path key cfg arr h w (R : Q -> Prop) :
  config_of key = Ok cfg ->
  open_resized path (64, 64)%nat = Ok arr ->
  shaped h w arr -> (0 < h)%nat -> (0 < w)%nat ->
  (forall c, last_dim arr = Some c -> (0 < c)%nat) ->
  Forall R (samples arr) ->
  (forall p, p <> [] -> Forall R p -> R (mean p)) ->
  exists c rows a,
    convert_channels key arr = Arr3 c rows /\
    preprocess_image open_resized path key = Ok [a] /\
    grid h w rows /\ Forall (Forall (px c R)) rows /\
    (key = "ndvi" \/ convertible arr -> c = channels cfg) /\
    (~ (key = "ndvi" \/ convertible arr) -> last_dim arr = Some c) /\
    ((Exists (fun v => 1 < v) (samples (Arr3 c rows)) /\
      a = Arr3 c (map_px (map (fun v => v / 255)) rows)) \/
     (Forall (fun v => v <= 1) (samples (Arr3 c rows)) /\ a = Arr3 c rows)).
Proof.
  intros Hcfg Hopen Hshape Hh Hw Hpos HR Hmean.
  destruct (convert_channels_ok key cfg arr h w R Hcfg Hshape Hpos HR Hmean)
    as (c & rows & Hconv & Hgrid & Hpx & Hc & Hdecl & Hpass).
  destruct (px_split _ _ _ Hpx) as [Hlen _].
  pose proof (shaped_samples_nonempty h w c rows Hh Hw Hc Hgrid Hlen) as Hne.
  destruct (config_input_size _ _ Hcfg) as [H64 W64].
  assert (Hpre : preprocess_image open_resized path key
                 = (a <- normalize (Arr3 c rows) ;; Ok [a])).
  { unfold preprocess_image. rewrite Hcfg. cbn [bind].
    rewrite H64, W64, Hopen. cbn [bind]. now rewrite Hconv. }
  destruct (proj2 (normalize_spec (Arr3 c rows)) Hne) as [[Hex Hn]|[Hall Hn]].
  - exists c, rows, (Arr3 c (map_px (map (fun v => v / 255)) rows)).
    rewrite Hpre, Hn. cbn [bind map_samples].
    repeat (split; [assumption || reflexivity|]). left. now split.
  - exists c, rows, (Arr3 c rows). rewrite Hpre, Hn. cbn [bind].
    repeat (split; [assumption || reflexivity|]). right. now split.
Qed.

Lemma grid_repeat {A} h w (x : A) : grid h w (repeat (repeat x w) h).
Proof.
  split; [apply repeat_length|]. apply Forall_forall. intros r Hr.
  apply repeat_spec in Hr. subst. apply repeat_length.
Qed.

Lemma all_repeat {A} (P : A -> Prop) h w (x : A) :
  P x -> Forall (Forall P) (repeat (repeat x w) h).
Proof.
  intros Hx. apply Forall_forall. intros r Hr. apply repeat_spec in Hr.
  subst. apply Forall_forall. intros y Hy. apply repeat_spec in Hy.
  now subst.
Qed.




(** C3 on a two-channel image (mode LA: luminance and alpha).  The code
    announces "Ensure RGB (3 channels)" and "Ensure 4 channels", and its
    one-channel branch handles every source; but the chains of the other two
    variants end without an [else], so a source with two channels passes
    through as it is.  No error is raised, and the tensor has two channels
    where the registry declares three, respectively four. *)
Theorem preprocess_two_channel_source :
  (exists a,
     preprocess_image (open_const (la_tile 128 255)) "tile.png" "rgb" = Ok [a] /\
     last_dim a = Some 2%nat /\
     option_map channels (dict_get "rgb" MODEL_CONFIG) = Some 3%nat /\
     option_map input_shape (dict_get "rgb" MODEL_CONFIG)
     = Some (64, 64, 3)%nat) /\
  (exists a,
     preprocess_image (open_const (la_tile 128 255)) "tile.png" "rgb_nir"
     = Ok [a] /\
     last_dim a = Some 2%nat /\
     option_map channels (dict_get "rgb_nir" MODEL_CONFIG) = Some 4%nat /\
     option_map input_shape (dict_get "rgb_nir" MODEL_CONFIG)
     = Some (64, 64, 4)%nat).
Proof.
  split; eexists; (split; [vm_compute; reflexivity|]); repeat split.
Qed.

(** C2 on a 16-bit image: the largest sample 65535 exceeds 1, every sample
    is divided by 255, and the tensor holds 257 where the claim and the
    comment of the code promise a value of at most 1. *)
Theorem preprocess_16bit_exceeds_one :
  exists a v,
    preprocess_image (open_const deep_tile) "scene.tif" "ndvi" = Ok [a] /\
    hd_error (samples a) = Some v /\
    v == 257 /\ ~ v <= 1.
Proof.
  eexists _, _. split; [vm_compute; reflexivity|].
  split; [vm_compute; reflexivity|].
  split; [reflexivity|]. intros H. vm_compute in H. now apply H.
Qed.

(** * Further properties of the code *)

(** ** Preprocessing *)

Lemma qsum_upper hi p :
  Forall (fun v => v <= hi) p ->
  qsum p <= inject_Z (Z.of_nat (List.length p)) * hi.
Proof.
  induction 1 as [|v p Hhi _ IH].
  - simpl. change (inject_Z 0) with 0. lra.
  - cbn [List.length qsum fold_right]. rewrite Nat2Z.inj_succ.
    unfold Z.succ. rewrite inject_Z_plus.
    change (fold_right Qplus 0 p) with (qsum p).
    change (inject_Z 1) with 1. lra.
Qed.

Lemma mean_upper hi p :
  p <> [] -> Forall (fun v => v <= hi) p -> mean p <= hi.
Proof.
  intros Hne H. pose proof (qsum_upper _ _ H) as Hhi. unfold mean.
  assert (Hn : 0 < inject_Z (Z.of_nat (List.length p))).
  { change 0 with (inject_Z 0). rewrite <- Zlt_Qlt.
    destruct p; [congruence | simpl; lia]. }
  apply Qle_shift_div_r; [exact Hn|]. now rewrite Qmult_comm.
Qed.

Lemma Exists_not_Forall_le (l : list Q) :
  Exists (fun v => 1 < v) l -> Forall (fun v => v <= 1) l -> False.
Proof.
  intros He Hf. apply Exists_exists in He as (v & Hv & Hgt).
  rewrite Forall_forall in Hf. specialize (Hf v Hv).
  apply (Qlt_irrefl 1). eapply Qlt_le_trans; eassumption.
Qed.

(** X1.  The normalisation step fails only on an array without samples;
    otherwise it divides every sample by 255 when some sample exceeds 1 and
    returns the array as it is when none does. *)
Theorem normalize_divides_iff a :
  (samples a = [] -> exists msg, normalize a = Raise (ValueError msg)) /\
  (samples a <> [] ->
   (Exists (fun v => 1 < v) (samples a) ->
    normalize a = Ok (map_samples (fun v => v / 255) a)) /\
   (Forall (fun v => v <= 1) (samples a) -> normalize a = Ok a) /\
   (Exists (fun v => 1 < v) (samples a) \/
    Forall (fun v => v <= 1) (samples a))).
Proof.
  split.
  - intros H. unfold normalize, amax. rewrite H. eexists. reflexivity.
  - intros Hne.
    destruct (proj2 (normalize_spec a) Hne) as [[He Hn]|[Hf Hn]].
    + split; [intros _; exact Hn|]. split; [|now left].
      intros Hf. exfalso. eapply Exists_not_Forall_le; eassumption.
    + split; [|split; [intros _; exact Hn | now right]].
      intros He. exfalso. eapply Exists_not_Forall_le; eassumption.
Qed.

Lemma samples_in_scaled c rows :
  Forall (Forall (px c (fun v => 0 <= v /\ v <= 255))) rows ->
  samples_in 0 1 (Arr3 c (map_px (map (fun v => v / 255)) rows)).
Proof.
  intros H. unfold samples_in. apply samples_nested.
  eapply all_map_px; [|exact H]. intros p [_ Hp]. apply Forall_map.
  eapply Forall_impl; [|exact Hp]. intros v [H0 H255]. cbn beta. split.
  - apply Qle_shift_div_l; [reflexivity | lra].
  - apply Qle_shift_div_r; [reflexivity | lra].
Qed.

(** X2.  For a decoded image of positive dimensions whose samples lie
    between 0 and 255, as 8-bit images have them, every value of the
    returned tensor lies between 0 and 1, whatever the variant. *)
Theorem preprocess_8bit_unit_range open_resized path key cfg arr h w :
  config_of key = Ok cfg ->
  open_resized path (64, 64)%nat = Ok arr ->
  shaped h w arr -> (0 < h)%nat -> (0 < w)%nat ->
  (forall c, last_dim arr = Some c -> (0 < c)%nat) ->
  samples_in 0 255 arr ->
  exists t,
    preprocess_image open_resized path key = Ok t /\
    Forall (fun v => 0 <= v /\ v <= 1) (tensor_samples t).
Proof.
  intros Hcfg Hopen Hshape Hh Hw Hpos Hrange.
  destruct (preprocess_image_ok open_resized path key cfg arr h w
              (fun v => 0 <= v /\ v <= 255) Hcfg Hopen Hshape Hh Hw Hpos
              Hrange)
    as (c & rows & a & _ & Hpre & _ & Hpx & _ & _ & Ha).
  { intros p Hne Hp. now apply mean_bounds. }
  exists [a]. split; [exact Hpre|].
  unfold tensor_samples. cbn [flat_map]. rewrite app_nil_r.
  destruct Ha as [[_ ->]|[Hle ->]].
  - now apply samples_in_scaled.
  - destruct (px_split _ _ _ Hpx) as [_ Hr].
    apply (proj2 (samples_nested _ (Arr3 c rows))) in Hr.
    rewrite Forall_forall in Hr, Hle |- *.
    intros v Hv. split; [apply (Hr v Hv) | apply (Hle v Hv)].
Qed.

Lemma samples_in_rgb_tile v lo hi :
  lo <= v -> v <= hi -> samples_in lo hi (rgb_tile v).
Proof.
  intros H1 H2. unfold samples_in. apply samples_nested.
  apply all_repeat. repeat constructor; assumption.
Qed.

Lemma shaped_rgb_tile v : shaped 64 64 (rgb_tile v).
Proof. split; [apply grid_repeat | now apply all_repeat]. Qed.

Lemma shaped_gray_tile v : shaped 64 64 (gray_tile v).
Proof. apply grid_repeat. Qed.

Lemma preprocess_8bit_unit_range_witness :
  exists t,
    preprocess_image (open_const (rgb_tile 200)) "tile.png" "ndvi" = Ok t /\
    Forall (fun v => 0 <= v /\ v <= 1) (tensor_samples t).
Proof.
  assert (Hcfg : exists cfg, config_of "ndvi" = Ok cfg)
    by (eexists; reflexivity).
  destruct Hcfg as [cfg Hcfg].
  assert (Hpos : forall c, last_dim (rgb_tile 200) = Some c -> (0 < c)%nat)
    by (intros c [= <-]; lia).
  assert (Hr : samples_in 0 255 (rgb_tile 200))
    by (apply samples_in_rgb_tile; unfold Qle; simpl; lia).
  exact (preprocess_8bit_unit_range (open_const (rgb_tile 200)) "tile.png"
           "ndvi" cfg (rgb_tile 200) 64 64 Hcfg eq_refl (shaped_rgb_tile 200)
           ltac:(lia) ltac:(lia) Hpos Hr).
Defined.

(** X3.  An image none of whose samples exceeds 1 is taken to be normalised
    already: the tensor is the channel-converted array, undivided.  So an
    8-bit image whose brightest sample is 1 reaches the network with that
    sample at full scale. *)
Theorem preprocess_keeps_small_samples open_resized path key cfg arr h w :
  config_of key = Ok cfg ->
  open_resized path (64, 64)%nat = Ok arr ->
  shaped h w arr -> (0 < h)%nat -> (0 < w)%nat ->
  (forall c, last_dim arr = Some c -> (0 < c)%nat) ->
  Forall (fun v => v <= 1) (samples arr) ->
  preprocess_image open_resized path key = Ok [convert_channels key arr].
Proof.
  intros Hcfg Hopen Hshape Hh Hw Hpos Hsmall.
  destruct (preprocess_image_ok open_resized path key cfg arr h w
              (fun v => v <= 1) Hcfg Hopen Hshape Hh Hw Hpos Hsmall)
    as (c & rows & a & Hconv & Hpre & _ & Hpx & _ & _ & Ha).
  { intros p Hne Hp. now apply mean_upper. }
  rewrite Hpre, Hconv. destruct Ha as [[He _]|[_ ->]]; [|reflexivity].
  exfalso. destruct (px_split _ _ _ Hpx) as [_ Hr].
  apply (proj2 (samples_nested _ (Arr3 c rows))) in Hr.
  eapply Exists_not_Forall_le; eassumption.
Qed.

Lemma preprocess_keeps_small_samples_witness :
  preprocess_image (open_const dark_tile) "tile.png" "ndvi"
  = Ok [Arr3 1 (repeat (repeat [1] 64) 64)].
Proof.
  assert (Hcfg : exists cfg, config_of "ndvi" = Ok cfg)
    by (eexists; reflexivity).
  destruct Hcfg as [cfg Hcfg].
  assert (Hpos : forall c, last_dim dark_tile = Some c -> (0 < c)%nat)
    by (intros c [=]).
  assert (Hs : Forall (fun v => v <= 1) (samples dark_tile)).
  { apply (samples_nested (fun v => v <= 1) dark_tile).
    apply all_repeat. apply Qle_refl. }
  rewrite (preprocess_keeps_small_samples (open_const dark_tile) "tile.png"
             "ndvi" cfg dark_tile 64 64 Hcfg eq_refl (shaped_gray_tile 1)
             ltac:(lia) ltac:(lia) Hpos Hs).
  vm_compute. reflexivity.
Defined.

(** ** Loading and listing the variants *)

Lemma load_one_eq os_path_exists load_model self entry :
  load_one os_path_exists load_model self entry
  = mkClassifier (models_dir self)
      (match load_outcome os_path_exists load_model
               (os_path_join (models_dir self) (path (snd entry))) with
       | Some m => dict_set (fst entry) m (models self)
       | None => models self
       end).
Proof.
  unfold load_one, load_outcome.
  destruct (os_path_exists _); [|now destruct self].
  destruct (load_model _); [reflexivity | now destruct self].
Qed.

Ltac split_world ex ld dir :=
  rewrite !load_one_eq;
  cbn [models_dir models path name description fst snd];
  repeat match goal with
         | |- context [load_outcome ex ld ?p] =>
             destruct (load_outcome ex ld p)
         end.

(** X4.  The constructor keeps the directory and loads each variant of the
    registry independently: a variant is present exactly when its file,
    looked up under the directory, exists and loads, and then it is bound
    to the network that was loaded; a missing or corrupt file of one
    variant does not affect the others.  Nothing outside the registry is
    ever loaded. *)
Theorem new_classifier_loads os_path_exists load_model dir :
  let self := new_classifier os_path_exists load_model dir in
  models_dir self = dir /\
  (forall key cfg,
     In (key, cfg) MODEL_CONFIG ->
     dict_get key (models self)
     = load_outcome os_path_exists load_model
         (os_path_join dir (path cfg))) /\
  (forall key,
     dict_get key MODEL_CONFIG = None -> dict_get key (models self) = None).
Proof.
  intros self. split; [|split].
  - unfold self, new_classifier, load_models, MODEL_CONFIG.
    cbn [fold_left]. rewrite !load_one_eq. reflexivity.
  - intros key cfg Hin. simpl in Hin.
    destruct Hin as [E|[E|[E|[]]]]; injection E as <- <-;
      unfold self, new_classifier, load_models, MODEL_CONFIG;
      cbn [fold_left]; split_world os_path_exists load_model dir;
      reflexivity.
  - intros key Hnone. apply dict_get_none. intros Hin.
    pose proof (new_classifier_ordered os_path_exists load_model dir) as Hord.
    fold self in Hord. unfold registry_ordered in Hord. rewrite Hord in Hin.
    apply filter_In in Hin as [Hin _].
    now apply dict_get_none in Hnone.
Qed.

(** X5.  On the classifier the constructor builds, the listing has one
    entry per variant of the registry, in registry order and with the
    registry's name and description, and its [loaded] flag tells whether the
    variant's file exists and loads. *)
Theorem listing_reflects_disk os_path_exists load_model dir :
  get_available_models (new_classifier os_path_exists load_model dir)
  = map (fun kc =>
           mkInfo (fst kc) (name (snd kc)) (description (snd kc))
             (is_some (load_outcome os_path_exists load_model
                         (os_path_join dir (path (snd kc))))))
      MODEL_CONFIG.
Proof.
  unfold get_available_models, new_classifier, load_models, MODEL_CONFIG.
  cbn [fold_left map app]. split_world os_path_exists load_model dir;
    reflexivity.
Qed.

(** ** More on [predict] *)

Lemma class_probabilities_total preds names i acc :
  (i + List.length names <= List.length preds)%nat ->
  exists d, class_probabilities preds names i acc = Ok d.
Proof.
  revert i acc. induction names as [|c names IH]; intros i acc Hlen; simpl.
  - now exists acc.
  - simpl in Hlen. unfold index.
    destruct (nth_error preds i) as [v|] eqn:E.
    + cbn [bind]. apply IH. lia.
    + apply nth_error_None in E. lia.
Qed.

Lemma class_probabilities_short preds :
  (List.length preds < 10)%nat ->
  exists msg, class_probabilities preds CLASS_NAMES 0 [] = Raise (IndexError msg).
Proof.
  intros Hlen.
  destruct (class_probabilities preds CLASS_NAMES 0 []) as [d|e] eqn:E.
  - apply class_probabilities_raw in E as [_ H]. lia.
  - clear Hlen. revert E. generalize (@nil (string * Q)) at 1.
    generalize 0%nat. induction CLASS_NAMES as [|c names IH];
      intros i acc; simpl; [discriminate|].
    unfold index. destruct (nth_error preds i).
    + cbn [bind]. apply IH.
    + cbn [bind]. intros [= <-]. eexists. reflexivity.
Qed.

(** The [try] block runs to the end once the image is preprocessed and the
    network has returned at least ten scores. *)
Lemma predict_body_run open_resized model path key t scores :
  preprocess_image open_resized path key = Ok t ->
  model t = Ok scores ->
  (10 <= List.length scores)%nat ->
  exists p, predict_body open_resized model path key = Ok p.
Proof.
  intros Ht Hs Hlen. unfold predict_body. rewrite Ht. cbn [bind].
  rewrite Hs. cbn [bind].
  destruct (class_probabilities_total scores CLASS_NAMES 0 []) as [d Hd];
    [exact Hlen|].
  rewrite Hd. cbn [bind]. apply class_probabilities_raw in Hd as [-> _].
  pose proof (keys_raw_probabilities _ Hlen) as Hk.
  destruct (keys (raw_probabilities scores)) as [|k ks] eqn:Ek;
    [discriminate Hk|].
  cbn [py_max bind].
  set (top := py_max_from Qltb (dict_get_or (raw_probabilities scores) 0) k ks).
  assert (Hin : In top (keys (raw_probabilities scores))).
  { rewrite Ek. apply py_max_from_in; [exact Qltb_trans|exact Qltb_cotrans]. }
  unfold dict_item.
  destruct (dict_get top (raw_probabilities scores)) as [v|] eqn:Ev.
  - cbn [bind].
    assert (Hc : exists cfg, config_of key = Ok cfg).
    { unfold preprocess_image in Ht.
      destruct (config_of key) as [cfg|]; [now exists cfg | discriminate]. }
    destruct Hc as [cfg ->]. cbn [bind]. eexists. reflexivity.
  - apply dict_get_none in Ev. contradiction.
Qed.

(** X6.  [predict] never raises and succeeds in one case only: the variant
    is loaded, the image is decoded and preprocessed, and the network
    returns at least ten scores.  A missing model, a decoding error, a
    failure of the network and a score row that is too short all come back
    as failure values. *)
Theorem predict_succeeds_iff open_resized self path key :
  (exists p, predict open_resized self path key = Success p) <->
  (exists model t scores,
     dict_get key (models self) = Some model /\
     preprocess_image open_resized path key = Ok t /\
     model t = Ok scores /\
     (10 <= List.length scores)%nat).
Proof.
  split.
  - intros [p H]. apply predict_success_inv in H as (model & Hm & H).
    apply predict_body_inv in H as (t & scores & _ & _ & Ht & Hs & Hlen & _).
    now exists model, t, scores.
  - intros (model & t & scores & Hm & Ht & Hs & Hlen).
    destruct (predict_body_run open_resized model path key t scores Ht Hs Hlen)
      as [p Hp].
    exists p. unfold predict. now rewrite Hm, Hp.
Qed.

(** X8.  Only the first ten scores of the network count: two classifiers
    whose networks agree on them give the same answer for the same image,
    whatever else the networks return. *)
Theorem predict_reads_ten_scores open_resized self self' path key
  model model' t scores scores' :
  dict_get key (models self) = Some model ->
  dict_get key (models self') = Some model' ->
  preprocess_image open_resized path key = Ok t ->
  model t = Ok scores -> model' t = Ok scores' ->
  (10 <= List.length scores)%nat ->
  firstn 10 scores = firstn 10 scores' ->
  predict open_resized self path key = predict open_resized self' path key.
Proof.
  intros Hm Hm' Ht Hs Hs' Hlen Hfirst.
  assert (Hlen' : (10 <= List.length scores')%nat).
  { assert (L : List.length (firstn 10 scores) = 10%nat)
      by (rewrite length_firstn; lia).
    rewrite Hfirst, length_firstn in L. lia. }
  destruct (predict_body_run open_resized model path key t scores Ht Hs Hlen)
    as [p Hp].
  destruct (predict_body_run open_resized model' path key t scores' Ht Hs' Hlen')
    as [p' Hp'].
  unfold predict. rewrite Hm, Hm', Hp, Hp'. f_equal.
  apply predict_body_inv in Hp
    as (t1 & s1 & c1 & m1 & Ht1 & Hs1 & _ & Hc1 & Hmax1 & ->).
  apply predict_body_inv in Hp'
    as (t2 & s2 & c2 & m2 & Ht2 & Hs2 & _ & Hc2 & Hmax2 & ->).
  rewrite Ht in Ht1, Ht2. injection Ht1 as <-. injection Ht2 as <-.
  rewrite Hs in Hs1. rewrite Hs' in Hs2. injection Hs1 as <-.
  injection Hs2 as <-. rewrite Hc1 in Hc2. injection Hc2 as <-.
  assert (Hraw : raw_probabilities scores = raw_probabilities scores')
    by (unfold raw_probabilities; now rewrite Hfirst).
  rewrite Hraw in *. rewrite Hmax1 in Hmax2. injection Hmax2 as <-.
  reflexivity.
Qed.

Lemma predict_reads_ten_scores_witness :
  predict (open_const (rgb_tile 128)) (rgb_only forest_scores) "tile.png" "rgb"
  = predict (open_const (rgb_tile 128)) (rgb_only (forest_scores ++ [9; 9]))
      "tile.png" "rgb".
Proof.
  assert (Ht : exists t, preprocess_image (open_const (rgb_tile 128))
                           "tile.png" "rgb" = Ok t)
    by (eexists; vm_compute; reflexivity).
  destruct Ht as [t Ht].
  apply (predict_reads_ten_scores (open_const (rgb_tile 128))
           (rgb_only forest_scores) (rgb_only (forest_scores ++ [9; 9]))
           "tile.png" "rgb" (const_net forest_scores)
           (const_net (forest_scores ++ [9; 9])) t forest_scores
           (forest_scores ++ [9; 9]) eq_refl eq_refl Ht eq_refl eq_refl);
    [simpl; lia | reflexivity].
Defined.

(** ** Rounding and the reported confidence *)

Lemma round_half_even_error x :
  Qabs (inject_Z (round_half_even x) - x) <= 1 # 2.
Proof.
  unfold round_half_even.
  pose proof (Qfloor_le x) as Hlo. pose proof (Qlt_floor x) as Hhi.
  rewrite inject_Z_plus in Hhi. change (inject_Z 1) with 1 in Hhi.
  apply Qabs_Qle_condition.
  destruct (Qcompare_spec (x - inject_Z (Qfloor x)) (1 # 2)) as [E|L|G].
  - destruct (Z.even (Qfloor x)).
    + split; lra.
    + rewrite inject_Z_plus. change (inject_Z 1) with 1. split; lra.
  - split; lra.
  - rewrite inject_Z_plus. change (inject_Z 1) with 1. split; lra.
Qed.

Lemma round_half_even_bounds x n :
  0 <= x -> x <= inject_Z n -> (0 <= round_half_even x <= n)%Z.
Proof.
  intros H0 Hn. pose proof (round_half_even_error x) as He.
  apply Qabs_Qle_condition in He as [He1 He2].
  split.
  - assert (H : inject_Z (-1) < inject_Z (round_half_even x)).
    { change (inject_Z (-1)) with (-1 # 1). lra. }
    rewrite <- Zlt_Qlt in H. lia.
  - assert (H : inject_Z (round_half_even x) < inject_Z (n + 1)).
    { rewrite inject_Z_plus. change (inject_Z 1) with 1. lra. }
    rewrite <- Zlt_Qlt in H. lia.
Qed.

Lemma py_round_2_error x : Qabs (py_round x 2 - x) <= 1 # 200.
Proof.
  unfold py_round. change (pow10 2) with 100.
  pose proof (round_half_even_error (x * 100)) as He.
  apply Qabs_Qle_condition in He as [He1 He2].
  apply Qabs_Qle_condition.
  set (r := inject_Z (round_half_even (x * 100))) in *.
  assert (E : r / 100 == r * (1 # 100)) by (field).
  rewrite E. split; lra.
Qed.

Lemma py_round_2_bounds x : 0 <= x -> x <= 100 -> 0 <= py_round x 2 <= 100.
Proof.
  intros H0 H1. unfold py_round. change (pow10 2) with 100.
  destruct (round_half_even_bounds (x * 100) 10000) as [Hr0 Hr1].
  - lra.
  - change (inject_Z 10000) with 10000. lra.
  - rewrite Zle_Qle in Hr0, Hr1.
    change (inject_Z 0) with 0 in Hr0. change (inject_Z 10000) with 10000 in Hr1.
    set (r := inject_Z (round_half_even (x * 100))) in *.
    assert (E : r / 100 == r * (1 # 100)) by (field).
    rewrite E. split; lra.
Qed.

(** X9.  In a successful prediction the confidence is within 0.005 of the
    first value of the mapping.  When the network's first ten scores lie
    between 0 and 1, every value of the mapping and the confidence lie
    between 0 and 100. *)
Theorem predict_confidence_range open_resized self path key p :
  predict open_resized self path key = Success p ->
  (exists k v rest,
     probabilities p = (k, v) :: rest /\
     Qabs (confidence p - v) <= 1 # 200) /\
  (forall model t scores,
     dict_get key (models self) = Some model ->
     preprocess_image open_resized path key = Ok t ->
     model t = Ok scores ->
     Forall (fun s => 0 <= s /\ s <= 1) (firstn 10 scores) ->
     Forall (fun kv => 0 <= snd kv /\ snd kv <= 100) (probabilities p) /\
     0 <= confidence p /\ confidence p <= 100).
Proof.
  intros H. apply predict_success_inv in H as (model & Hm & H).
  apply predict_body_inv in H
    as (t & scores & cfg & m & Ht & Hs & Hlen & _ & Hmax & ->).
  cbn [probabilities confidence].
  destruct (raw_probabilities scores) as [|x raw] eqn:Er; [discriminate|].
  cbn [py_max] in Hmax. injection Hmax as Hmax.
  destruct (sorted_desc_head Qltb snd x raw) as [rest Hhead].
  rewrite Hmax in Hhead. split.
  - exists (fst m), (snd m), rest. split; [rewrite Hhead; now destruct m|].
    apply py_round_2_error.
  - intros model' t' scores' Hm' Ht' Hs' Hrange.
    rewrite Hm in Hm'. injection Hm' as <-. rewrite Ht in Ht'.
    injection Ht' as <-. rewrite Hs in Hs'. injection Hs' as <-.
    assert (Hraw : Forall (fun kv : string * Q => 0 <= snd kv /\ snd kv <= 100)
                     (x :: raw)).
    { rewrite <- Er. unfold raw_probabilities. apply Forall_forall.
      intros [k v] Hin. apply in_combine_r in Hin.
      apply in_map_iff in Hin as (s & <- & Hin).
      rewrite Forall_forall in Hrange. destruct (Hrange s Hin) as [H0 H1].
      cbn [snd]. split; lra. }
    split; [|].
    + eapply Permutation_Forall; [|exact Hraw].
      symmetry. apply sorted_desc_perm.
    + assert (Hin : In m (x :: raw)).
      { rewrite <- Hmax. apply py_max_from_in;
          [exact Qltb_trans | exact Qltb_cotrans]. }
      rewrite Forall_forall in Hraw. destruct (Hraw m Hin) as [H0 H1].
      now apply py_round_2_bounds.
Qed.

Lemma predict_confidence_range_witness :
  exists p,
    predict (open_const (rgb_tile 128)) (rgb_only forest_scores)
      "tile.png" "rgb" = Success p /\
    0 <= confidence p /\ confidence p <= 100.
Proof.
  assert (H : exists p, predict (open_const (rgb_tile 128))
                          (rgb_only forest_scores) "tile.png" "rgb"
                        = Success p)
    by (eexists; vm_compute; reflexivity).
  destruct H as [p H]. exists p. split; [exact H|].
  assert (Ht : exists t, preprocess_image (open_const (rgb_tile 128))
                           "tile.png" "rgb" = Ok t)
    by (eexists; vm_compute; reflexivity).
  destruct Ht as [t Ht].
  destruct (predict_confidence_range _ _ _ _ _ H) as [_ Hr].
  apply (Hr (const_net forest_scores) t forest_scores eq_refl Ht eq_refl).
  unfold forest_scores. cbn [firstn].
  repeat constructor; unfold Qle; simpl; lia.
Defined.

(** ** More on [compare_all] *)

Lemma votes_length open_resized self path :
  (List.length (votes open_resized self path) <= 3)%nat.
Proof.
  unfold votes, MODEL_CONFIG. cbn [keys map fst flat_map].
  repeat match goal with
         | |- context [predict ?o ?s ?p ?k] => destruct (predict o s p k)
         end; simpl; lia.
Qed.

Lemma list_count_le_length x l : (list_count x l <= List.length l)%nat.
Proof. unfold list_count. apply count_occ_bound. Qed.

(** X10.  On the classifier the constructor builds, [compare_all] always
    returns a comparison, and with at most three voters the agreement takes
    one of five values: 0 when no variant succeeds (the consensus is then
    absent), and otherwise 100, 66.7, 50 or 33.3. *)
Theorem compare_all_agreement_values os_path_exists load_model dir
  open_resized path :
  exists cmp,
    compare_all open_resized
      (new_classifier os_path_exists load_model dir) path = Ok cmp /\
    cmp_success cmp = true /\
    ((consensus cmp = None /\ agreement cmp == 0) \/
     (exists c, consensus cmp = Some c /\
                (agreement cmp == 100 \/ agreement cmp == 667 # 10 \/
                 agreement cmp == 50 \/ agreement cmp == 333 # 10))).
Proof.
  set (self := new_classifier os_path_exists load_model dir).
  destruct (compare_all_spec open_resized self path
              (new_classifier_ordered _ _ _)) as (cmp & Hcmp & _ & Hv).
  exists cmp. split; [exact Hcmp|]. split.
  { unfold compare_all in Hcmp.
    destruct (compare_loop _ _ _ _ _) as [results|]; [|discriminate].
    cbn [bind] in Hcmp.
    destruct (entry_labels results); [now injection Hcmp as <-|].
    destruct (most_common_1 _) as [|[c n] rest]; [discriminate|].
    now injection Hcmp as <-. }
  pose proof (votes_length open_resized self path) as Hlen.
  destruct (votes open_resized self path) as [|v vs] eqn:Ev; [now left|].
  right. destruct Hv as (c & Hc & Hne & Hhd & Hagree).
  exists c. split; [exact Hc|].
  destruct (most_common_1 (Counter (v :: vs))) as [|[c' n] rest] eqn:Em;
    [congruence|].
  cbn [hd fst] in Hhd. subst c'.
  destruct (most_common_spec _ _ _ _ Em) as (Hin & _ & _ & _).
  apply list_count_pos in Hin.
  pose proof (list_count_le_length c (v :: vs)) as Hle.
  rewrite Hagree.
  remember (list_count c (v :: vs)) as k eqn:Ek.
  remember (List.length (v :: vs)) as len eqn:En.
  clear - Hin Hle Hlen.
  destruct len as [|[|[|[|len]]]]; try lia;
    destruct k as [|[|[|[|k]]]]; try lia;
    vm_compute; intuition reflexivity.
Qed.

(** ** The heat map *)

Lemma fold_max_attained l x :
  Exists (fun v => v == fold_left Qmax l x) (x :: l).
Proof.
  revert x. induction l as [|y l IH]; intros x; simpl.
  - left. reflexivity.
  - specialize (IH (Qmax x y)). inversion_clear IH as [? ? H|? ? H].
    + destruct (Q.max_dec x y) as [E|E].
      * left. apply (Qeq_trans _ (Qmax x y)); [now symmetry | exact H].
      * right. left.
        apply (Qeq_trans _ (Qmax x y)); [now symmetry | exact H].
    + right. now right.
Qed.

Lemma concat_map_px {A B} (f : A -> B) rows :
  List.concat (map_px f rows) = map f (List.concat rows).
Proof. unfold map_px. symmetry. apply concat_map. Qed.

(** X11.  The intensity map is normalised to the unit interval: negative
    samples are clipped to 0 and, unless the clipped map is all zero, every
    sample is divided by the largest one, which thereby becomes 1.  Only a
    map without samples makes the step fail. *)
Theorem normalize_heatmap_unit_range heatmap :
  (List.concat heatmap = [] ->
   exists msg, normalize_heatmap heatmap = Raise (ValueError msg)) /\
  (List.concat heatmap <> [] ->
   exists h,
     normalize_heatmap heatmap = Ok h /\
     Forall (fun v => 0 <= v /\ v <= 1) (List.concat h) /\
     (Exists (fun v => 0 < v) (List.concat heatmap) ->
      Exists (fun v => v == 1) (List.concat h))).
Proof.
  unfold normalize_heatmap, amax. cbn [samples].
  rewrite concat_map_px. split.
  - intros ->. cbn [map bind]. eexists. reflexivity.
  - intros Hne.
    destruct (map (fun v => Qmax v 0) (List.concat heatmap)) as [|x l] eqn:El.
    { destruct (List.concat heatmap); [congruence | discriminate]. }
    cbn [bind]. set (m := fold_left Qmax l x).
    assert (Hup : Forall (fun v => v <= m) (x :: l)) by apply fold_max_upper.
    assert (Hlo : Forall (fun v => 0 <= v) (x :: l)).
    { rewrite <- El. apply Forall_map. apply Forall_forall.
      intros v _. apply Q.le_max_r. }
    destruct (Qltb 0 m) eqn:E; eexists; (split; [reflexivity|]).
    + apply Qltb_lt in E. rewrite concat_map_px, concat_map_px, El. split.
      * apply Forall_map. rewrite Forall_forall in Hup, Hlo |- *.
        intros v Hv. specialize (Hup v Hv). specialize (Hlo v Hv). split.
        -- apply Qle_shift_div_l; [exact E | lra].
        -- apply Qle_shift_div_r; [exact E | lra].
      * intros _. apply Exists_exists.
        pose proof (fold_max_attained l x) as Hat.
        apply Exists_exists in Hat as (v & Hv & Hvm). fold m in Hvm.
        exists (v / m). split; [now apply (in_map (fun u => u / m))|].
        rewrite Hvm. field. intros C. rewrite C in E.
        now apply Qlt_irrefl in E.
    + apply Qltb_ge in E. rewrite concat_map_px, El. split.
      * rewrite Forall_forall in Hup, Hlo |- *.
        intros v Hv. specialize (Hup v Hv). specialize (Hlo v Hv).
        split; lra.
      * intros Hex. exfalso. apply Exists_exists in Hex as (v & Hv & Hpos).
        assert (Hin : In (Qmax v 0) (x :: l))
          by (rewrite <- El; now apply (in_map (fun u => Qmax u 0))).
        rewrite Forall_forall in Hup. specialize (Hup _ Hin).
        pose proof (Q.le_max_l v 0). lra.
Qed.

Lemma py_max_from_ext {A K K'} (ltb : K -> K -> bool) (ltb' : K' -> K' -> bool)
  (key : A -> K) (key' : A -> K') l b :
  (forall x y, ltb (key x) (key y) = ltb' (key' x) (key' y)) ->
  py_max_from ltb key b l = py_max_from ltb' key' b l.
Proof.
  intros H. revert b. induction l as [|x l IH]; intros b; simpl;
    [reflexivity|].
  rewrite H. apply IH.
Qed.

Lemma Qltb_scale_100 a b : Qltb (a * 100) (b * 100) = Qltb a b.
Proof.
  destruct (Qltb a b) eqn:E.
  - apply Qltb_lt in E. apply Qltb_lt. lra.
  - apply Qltb_ge in E. apply Qltb_ge. lra.
Qed.

Lemma Ok_inj {A} (a b : A) : Ok a = Ok b -> a = b.
Proof. now intros [= ->]. Qed.

Lemma Some_eq_inj {A} (a b : A) : Some a = Some b -> a = b.
Proof. now intros [= ->]. Qed.

(** With exactly ten scores, the index [np.argmax] finds names the label
    that [max] picks in the mapping of [predict]. *)
Lemma argmax_names_top_class scores idx m :
  List.length scores = 10%nat ->
  argmax scores = Ok idx ->
  py_max Qltb snd (raw_probabilities scores) = Some m ->
  nth_error CLASS_NAMES idx = Some (fst m).
Proof.
  intros Hlen.
  destruct scores as [|s0 [|s1 [|s2 [|s3 [|s4 [|s5 [|s6 [|s7 [|s8 [|s9
    [|]]]]]]]]]]]; try discriminate Hlen. clear Hlen.
  set (zs := [(1%nat, "Forest", s1); (2%nat, "HerbaceousVegetation", s2);
              (3%nat, "Highway", s3); (4%nat, "Industrial", s4);
              (5%nat, "Pasture", s5); (6%nat, "PermanentCrop", s6);
              (7%nat, "Residential", s7); (8%nat, "River", s8);
              (9%nat, "SeaLake", s9)]).
  set (z0 := (0%nat, "AnnualCrop", s0)).
  set (f1 := fun z : nat * string * Q => (fst (fst z), snd z)).
  set (f2 := fun z : nat * string * Q => (snd (fst z), snd z * 100)).
  unfold argmax, raw_probabilities, CLASS_NAMES.
  cbn [List.length seq combine firstn map py_max].
  change (py_max_from Qltb snd (0%nat, s0) _)
    with (py_max_from Qltb snd (f1 z0) (map f1 zs)).
  change (py_max_from Qltb snd ("AnnualCrop", s0 * 100) _)
    with (py_max_from Qltb snd (f2 z0) (map f2 zs)).
  rewrite (py_max_from_map Qltb snd snd f1 zs z0)
    by (apply Forall_forall; reflexivity).
  rewrite (py_max_from_map Qltb (fun z => snd z * 100) snd f2 zs z0)
    by (apply Forall_forall; reflexivity).
  rewrite (py_max_from_ext Qltb Qltb (fun z : nat * string * Q => snd z * 100)
             snd zs z0) by (intros; apply Qltb_scale_100).
  intros Hidx Hm. apply Ok_inj in Hidx. apply Some_eq_inj in Hm.
  subst idx m.
  pose proof (py_max_from_in Qltb (@snd (nat * string) Q)
                Qltb_trans Qltb_cotrans zs z0) as Hin.
  generalize dependent (py_max_from Qltb (@snd (nat * string) Q) z0 zs).
  intros z Hin. subst zs z0 f1 f2. cbv beta.
  repeat (destruct Hin as [<-|Hin]; [reflexivity|]). destruct Hin.
Qed.

Lemma heatmap_body_inv open_resized np_uint8_scaled resize_bilinear
  open_rgb_64 model path key h :
  heatmap_body open_resized np_uint8_scaled resize_bilinear open_rgb_64
    model path key = Ok h ->
  exists t scores idx cfg,
    preprocess_image open_resized path key = Ok t /\
    model t = Ok scores /\
    argmax scores = Ok idx /\
    nth_error CLASS_NAMES idx = Some (hm_predicted_class h) /\
    config_of key = Ok cfg /\ hm_model_used h = name cfg.
Proof.
  unfold heatmap_body.
  destruct (preprocess_image open_resized path key) as [t|] eqn:Et;
    [|discriminate].
  cbn [bind]. destruct (model t) as [scores|] eqn:Es; [|discriminate].
  cbn [bind]. destruct (argmax scores) as [idx|] eqn:Ei; [|discriminate].
  cbn [bind]. destruct (intensity t) as [hm|]; [|discriminate].
  cbn [bind]. destruct (normalize_heatmap hm) as [hn|]; [|discriminate].
  cbn [bind]. destruct (heatmap_colored _ _ hn) as [colored|]; [|discriminate].
  cbn [bind]. destruct (open_rgb_64 path) as [orig|]; [|discriminate].
  cbn [bind]. destruct (nth_error CLASS_NAMES idx) as [cls|] eqn:Ec;
    [|discriminate].
  cbn [bind]. destruct (config_of key) as [cfg|] eqn:Eg; [|discriminate].
  cbn [bind]. intros [= <-]. exists t, scores, idx, cfg.
  repeat split; reflexivity || assumption.
Qed.

(** X12.  When the network returns exactly ten scores, a heat map and a
    prediction made for the same image and variant name the same class and
    the same model. *)
Theorem heatmap_label_matches_predict open_resized np_uint8_scaled
  resize_bilinear open_rgb_64 self path key model t scores h p :
  dict_get key (models self) = Some model ->
  preprocess_image open_resized path key = Ok t ->
  model t = Ok scores ->
  List.length scores = 10%nat ->
  generate_heatmap open_resized np_uint8_scaled resize_bilinear open_rgb_64
    self path key = inl h ->
  predict open_resized self path key = Success p ->
  hm_predicted_class h = predicted_class p /\
  hm_model_used h = model_used p.
Proof.
  intros Hm Ht Hs Hlen Hh Hp.
  unfold generate_heatmap in Hh. rewrite Hm in Hh.
  destruct (heatmap_body _ _ _ _ model path key) as [h'|] eqn:Eh;
    [|discriminate].
  injection Hh as ->.
  apply heatmap_body_inv in Eh
    as (t1 & s1 & idx & cfg & Ht1 & Hs1 & Hidx & Hcls & Hcfg & Hname).
  rewrite Ht in Ht1. injection Ht1 as <-. rewrite Hs in Hs1.
  injection Hs1 as <-.
  apply predict_success_inv in Hp as (model' & Hm' & Hp).
  rewrite Hm in Hm'. injection Hm' as <-.
  apply predict_body_inv in Hp
    as (t2 & s2 & cfg2 & m & Ht2 & Hs2 & _ & Hcfg2 & Hmax & ->).
  rewrite Ht in Ht2. injection Ht2 as <-. rewrite Hs in Hs2.
  injection Hs2 as <-. rewrite Hcfg in Hcfg2. injection Hcfg2 as <-.
  cbn [predicted_class model_used]. split; [|exact Hname].
  pose proof (argmax_names_top_class scores idx m Hlen Hidx Hmax) as H.
  rewrite Hcls in H. apply Some_eq_inj in H. exact H.
Qed.

Lemma heatmap_label_matches_predict_witness :
  exists h p,
    generate_heatmap (open_const (rgb_tile 128)) truncate_scaled resize_same
      (open_rgb_const (gray_bytes 128)) (rgb_only forest_scores)
      "tile.png" "rgb" = inl h /\
    predict (open_const (rgb_tile 128)) (rgb_only forest_scores)
      "tile.png" "rgb" = Success p /\
    hm_predicted_class h = predicted_class p.
Proof.
  assert (Hh : exists h,
             generate_heatmap (open_const (rgb_tile 128)) truncate_scaled resize_same
               (open_rgb_const (gray_bytes 128)) (rgb_only forest_scores)
               "tile.png" "rgb" = inl h)
    by (eexists; vm_compute; reflexivity).
  assert (Hp : exists p,
             predict (open_const (rgb_tile 128)) (rgb_only forest_scores)
               "tile.png" "rgb" = Success p)
    by (eexists; vm_compute; reflexivity).
  assert (Ht : exists t, preprocess_image (open_const (rgb_tile 128))
                           "tile.png" "rgb" = Ok t)
    by (eexists; vm_compute; reflexivity).
  destruct Hh as [h Hh]. destruct Hp as [p Hp]. destruct Ht as [t Ht].
  exists h, p. split; [exact Hh|]. split; [exact Hp|].
  exact (proj1 (heatmap_label_matches_predict (open_const (rgb_tile 128))
                  truncate_scaled resize_same
                  (open_rgb_const (gray_bytes 128))
                  (rgb_only forest_scores) "tile.png" "rgb"
                  (const_net forest_scores) t forest_scores h p
                  eq_refl Ht eq_refl eq_refl Hh Hp)).
Defined.

(** ** Uploads and the series report *)

Lemma after_last_dot_none s :
  after_last_dot s = None <-> contains_dot s = false.
Proof.
  induction s as [|c s IH]; simpl; [tauto|].
  destruct (after_last_dot s) as [e|].
  - split; [discriminate|]. intros H. apply orb_false_iff in H as [_ H].
    apply IH in H. discriminate.
  - destruct (Ascii.eqb c "."%char); simpl; [split; discriminate|].
    split; intros _; [now apply IH | reflexivity].
Qed.

Lemma contains_dot_app base e :
  contains_dot (base +++ String "."%char e) = true.
Proof.
  induction base as [|b base IH]; simpl; [reflexivity|].
  rewrite IH. apply orb_true_r.
Qed.

Lemma after_last_dot_some s e :
  after_last_dot s = Some e <->
  exists base, s = base +++ String "."%char e /\ contains_dot e = false.
Proof.
  revert e. induction s as [|c s IH]; intros e; simpl.
  - split; [discriminate|]. intros ([|b base] & H & _); discriminate.
  - destruct (after_last_dot s) as [e'|] eqn:E.
    + split.
      * intros [= <-]. destruct (proj1 (IH e') eq_refl) as (base & -> & Hd).
        now exists (String c base).
      * intros (base & H & Hd). f_equal.
        destruct base as [|b base]; simpl in H; inversion H; subst.
        -- apply after_last_dot_none in Hd. congruence.
        -- assert (Hs : Some e' = Some e)
             by (apply IH; now exists base).
           now injection Hs.
    + apply after_last_dot_none in E.
      split.
      * destruct (Ascii.eqb_spec c "."%char) as [->|Hne]; [|discriminate].
        intros [= <-]. now exists EmptyString.
      * intros (base & H & Hd).
        destruct base as [|b base]; simpl in H; inversion H; subst.
        -- now rewrite Ascii.eqb_refl.
        -- rewrite contains_dot_app in E. discriminate.
Qed.

(** X13.  A file name is accepted exactly when it ends in a dot followed by
    a dot-free extension that, in lower case, is one of png, jpg, jpeg, tif
    and tiff: only what follows the last dot counts, letter case does not,
    and a name without a dot is refused. *)
Theorem allowed_file_spec name :
  allowed_file name = true <->
  exists base ext,
    name = base +++ String "."%char ext /\
    contains_dot ext = false /\
    In (lower ext) ALLOWED_EXTENSIONS.
Proof.
  unfold allowed_file. split.
  - destruct (after_last_dot name) as [ext|] eqn:E; [|discriminate].
    intros H. apply after_last_dot_some in E as (base & -> & Hd).
    exists base, ext. split; [reflexivity|]. split; [exact Hd|].
    apply existsb_exists in H as (x & Hin & Hx).
    apply String.eqb_eq in Hx. now subst.
  - intros (base & ext & -> & Hd & Hin).
    assert (E : after_last_dot (base +++ String "."%char ext) = Some ext)
      by (apply after_last_dot_some; now exists base).
    rewrite E. apply existsb_exists. exists (lower ext).
    split; [exact Hin | apply String.eqb_refl].
Qed.

(** X14.  The label synthesised for an upload names its position: reading
    the digits after the "T" back gives the position, so uploads at
    different positions never share a synthesised label. *)
Theorem synth_date_roundtrip i :
  position_of_label (synth_date i) = Some i /\
  forall j, synth_date i = synth_date j -> i = j.
Proof.
  assert (H : forall k, position_of_label (synth_date k) = Some k).
  { intros k. unfold synth_date, position_of_label. cbn [String.append].
    rewrite DecimalString.NilEmpty.usu. cbn [option_map].
    rewrite DecimalNat.Unsigned.of_to. f_equal. lia. }
  split; [apply H|]. intros j E.
  pose proof (H i) as Hi. rewrite E, H in Hi. now injection Hi.
Qed.

Lemma in_enumerate_from {A} (l : list A) a i x :
  In (i, x) (combine (seq a (List.length l)) l) <->
  (a <= i)%nat /\ nth_error l (i - a) = Some x.
Proof.
  revert a. induction l as [|y l IH]; intros a; simpl.
  - split; [tauto|]. intros [_ H]. now destruct (i - a)%nat.
  - rewrite IH. split.
    + intros [[= <- <-]|[Hle Hn]].
      * rewrite Nat.sub_diag. split; [lia | reflexivity].
      * split; [lia|]. replace (i - a)%nat with (S (i - S a)) by lia.
        exact Hn.
    + intros [Hle Hn]. destruct (Nat.eq_dec i a) as [->|Hne].
      * rewrite Nat.sub_diag in Hn. injection Hn as ->. now left.
      * right. split; [lia|].
        replace (i - a)%nat with (S (i - S a)) in Hn by lia. exact Hn.
Qed.

Lemma entries_sorted_from sp key dates (files : list FileStorage) a :
  let es := flat_map (entry_of_upload sp key dates)
              (combine (seq a (List.length files)) files) in
  StronglySorted lt (map se_index es) /\
  Forall (fun e => (a <= se_index e)%nat) es.
Proof.
  revert a. induction files as [|f files IH]; intros a; simpl.
  - split; constructor.
  - destruct (IH (S a)) as [Hs Hf].
    unfold entry_of_upload at 1 3. cbn [fst snd].
    assert (Hf' : Forall (fun e => (a <= se_index e)%nat)
                    (flat_map (entry_of_upload sp key dates)
                       (combine (seq (S a) (List.length files)) files))).
    { eapply Forall_impl; [|exact Hf]. intros e He. cbn beta in He. lia. }
    destruct (usable f); [|now split].
    destruct (sp a f key) as [[r|msg]|e]; [|now split|now split].
    cbn [app map se_index]. split.
    + constructor; [exact Hs|]. apply Forall_map.
      eapply Forall_impl; [|exact Hf]. intros e He. cbn beta in He. lia.
    + constructor; [cbn; lia | exact Hf'].
Qed.

(** X15.  The entries of a successful series report are exactly the uploads
    that have a usable name and were classified successfully, each with its
    position among the uploads, the label of that position and the
    classifier's answer, and they come in upload order.  An upload that is
    skipped does not shift the positions, hence the date labels, of the
    later ones. *)
Theorem analyze_series_entries sp rm request report :
  analyze_series sp rm request = Json report ->
  exists files key,
    req_images request = Some files /\
    key = match req_model request with Some m => m | None => "rgb" end /\
    (forall e,
       In e (sr_results report) <->
       exists f r,
         nth_error files (se_index e) = Some f /\
         usable f = true /\
         sp (se_index e) f key = Ok (Success r) /\
         e = mkEntry (se_index e) (date_label (req_dates request) (se_index e))
               (predicted_class r) (confidence r) (probabilities r)) /\
    StronglySorted lt (map se_index (sr_results report)).
Proof.
  intros H. apply analyze_series_inv in H
    as (files & key & Hfiles & Hkey & Hres & _).
  exists files, key. split; [exact Hfiles|]. split; [exact Hkey|].
  rewrite Hres. unfold enumerate. split.
  - intros e. rewrite in_flat_map. split.
    + intros ([i f] & Hin & He). apply in_enumerate_from in Hin as [_ Hn].
      rewrite Nat.sub_0_r in Hn. unfold entry_of_upload in He.
      cbn [fst snd] in He. destruct (usable f) eqn:Eu; [|destruct He].
      destruct (sp i f key) as [[r|msg]|e'] eqn:Er;
        [|destruct He|destruct He].
      destruct He as [<-|[]]. cbn [se_index]. now exists f, r.
    + intros (f & r & Hn & Hu & Hr & He). exists (se_index e, f). split.
      * apply in_enumerate_from. rewrite Nat.sub_0_r. split; [lia|exact Hn].
      * unfold entry_of_upload. cbn [fst snd]. rewrite Hu, Hr. now left.
  - apply (entries_sorted_from sp key (req_dates request) files 0).
Qed.

Lemma analyze_series_entries_witness :
  exists report,
    analyze_series predict_by_position remove_all two_uploads = Json report /\
    map se_index (sr_results report) = [0; 1]%nat.
Proof.
  assert (H : exists report,
             analyze_series predict_by_position remove_all two_uploads = Json report /\
             map se_index (sr_results report) = [0; 1]%nat)
    by (eexists; split; vm_compute; reflexivity).
  destruct H as (report & H & Hidx). exists report. split; [exact H|].
  destruct (analyze_series_entries _ _ _ _ H) as (files & key & _ & _ & _ & Hs).
  rewrite Hidx in Hs |- *. reflexivity.
Defined.

Lemma adjacent_changes_length results :
  (List.length (adjacent_changes results) <= List.length results - 1)%nat.
Proof.
  induction results as [|a [|b l] IH]; simpl; try lia.
  simpl in IH. destruct (negb (String.eqb (se_class a) (se_class b)));
    simpl; lia.
Qed.

(** X16.  A successful series report is consistent: it counts at least two
    images, at most one change less than images, its time line has one
    date, label and confidence per entry in entry order, and it names the
    registry's display name of the requested variant ("rgb" when none is
    requested). *)
Theorem analyze_series_report_consistent sp rm request report :
  analyze_series sp rm request = Json report ->
  (2 <= total_images report)%nat /\
  total_images report = List.length (sr_results report) /\
  change_count report = List.length (sr_changes report) /\
  (change_count report <= total_images report - 1)%nat /\
  tl_dates (sr_timeline report) = map se_date (sr_results report) /\
  tl_classes (sr_timeline report) = map se_class (sr_results report) /\
  tl_confidences (sr_timeline report)
  = map se_confidence (sr_results report) /\
  sr_model_used report
  = registry_name (match req_model request with Some m => m | None => "rgb" end).
Proof.
  intros H.
  destruct (analyze_series_inv _ _ _ _ H)
    as (files & key & _ & Hkey & _ & Hlen & Hch & Hcount & Htotal & Hd & Hc
        & Hf & Hm).
  split; [now rewrite Htotal|]. split; [exact Htotal|].
  split; [exact Hcount|]. split.
  { rewrite Hcount, Htotal, Hch, detect_changes_adjacent.
    apply adjacent_changes_length. }
  rewrite <- Hkey. repeat split; assumption.
Qed.

Lemma analyze_series_report_consistent_witness :
  exists report,
    analyze_series predict_by_position remove_all two_uploads = Json report /\
    total_images report = 2%nat /\ change_count report = 1%nat /\
    sr_model_used report = "RGB Model".
Proof.
  assert (H : exists report,
             analyze_series predict_by_position remove_all two_uploads = Json report /\
             List.length (sr_results report) = 2%nat /\
             List.length (sr_changes report) = 1%nat)
    by (eexists; repeat split; vm_compute; reflexivity).
  destruct H as (report & H & L2 & L1). exists report. split; [exact H|].
  destruct (analyze_series_report_consistent _ _ _ _ H)
    as (_ & Ht & Hc & _ & _ & _ & _ & Hm).
  rewrite Ht, Hc, Hm, L2, L1. repeat split; reflexivity.
Defined.

Lemma process_files_raise_from sp (files : list FileStorage) a key dates
  acc saved e :
  process_files sp (combine (seq a (List.length files)) files) key dates
    acc saved = Raise e ->
  exists i f,
    (a <= i)%nat /\ nth_error files (i - a) = Some f /\
    usable f = true /\ sp i f key = Raise e /\
    forall j g,
      (a <= j < i)%nat -> nth_error files (j - a) = Some g ->
      usable g = true -> exists r, sp j g key = Ok r.
Proof.
  revert a acc saved.
  induction files as [|f files IH]; intros a acc saved; [discriminate|].
  cbn [List.length seq combine process_files].
  assert (Hstep : forall acc' saved',
            (usable f = false \/ exists r, sp a f key = Ok r) ->
            process_files sp (combine (seq (S a) (List.length files)) files)
              key dates acc' saved' = Raise e ->
            exists i f0,
              (a <= i)%nat /\ nth_error (f :: files) (i - a) = Some f0 /\
              usable f0 = true /\ sp i f0 key = Raise e /\
              forall j g,
                (a <= j < i)%nat -> nth_error (f :: files) (j - a) = Some g ->
                usable g = true -> exists r, sp j g key = Ok r).
  { intros acc' saved' Hf H.
    apply IH in H as (i & f0 & Hle & Hn & Hu & Hs & Hbefore).
    exists i, f0. split; [lia|].
    replace (i - a)%nat with (S (i - S a)) by lia.
    split; [exact Hn|]. split; [exact Hu|]. split; [exact Hs|].
    intros j g Hj Hg Hug. destruct (Nat.eq_dec j a) as [->|Hne].
    - rewrite Nat.sub_diag in Hg. injection Hg as <-.
      destruct Hf as [Hf|Hf]; [congruence | exact Hf].
    - replace (j - a)%nat with (S (j - S a)) in Hg by lia.
      apply (Hbefore j g); [lia | exact Hg | exact Hug]. }
  destruct (String.eqb (filename f) "" || negb (allowed_file (filename f)))%bool
    eqn:Eu.
  - apply Hstep. left. unfold usable.
    apply orb_true_iff in Eu as [->|Eu]; [reflexivity|].
    apply negb_true_iff in Eu. rewrite Eu. apply andb_false_r.
  - assert (Hu : usable f = true).
    { unfold usable. apply orb_false_iff in Eu as [E1 E2].
      apply negb_false_iff in E2. now rewrite E1, E2. }
    destruct (sp a f key) as [[r|msg]|e'] eqn:Es; cbn [bind].
    + apply Hstep. right. now eexists.
    + apply Hstep. right. now eexists.
    + intros [= <-]. exists a, f. rewrite Nat.sub_diag.
      split; [lia|]. split; [reflexivity|]. split; [exact Hu|].
      split; [exact Es|]. intros j g Hj. lia.
Qed.

(** X17.  A refusal of the series analysis is one of two kinds.  Status 400
    carries one of four reasons: no upload part, fewer than two uploads, a
    variant that is not in the registry, or, after every usable upload has
    been saved and the saved files removed, fewer than two classified
    images.  Status 500 carries the text of an exception: that of the first
    usable upload that could not be saved, every usable upload before it
    having been saved, or that of removing the saved files. *)
Theorem analyze_series_refusals sp rm request status msg :
  analyze_series sp rm request = JsonError status msg ->
  (status = 400%nat /\
   ((req_images request = None /\ msg = "No images provided") \/
    (exists files,
       req_images request = Some files /\ (List.length files < 2)%nat /\
       msg = "At least 2 images required for time-series analysis") \/
    (exists files key,
       req_images request = Some files /\ (2 <= List.length files)%nat /\
       key = match req_model request with Some m => m | None => "rgb" end /\
       dict_get key MODEL_CONFIG = None /\
       msg = "Invalid model. Choose from: rgb, rgb_nir, ndvi") \/
    (exists files key,
       req_images request = Some files /\ (2 <= List.length files)%nat /\
       key = match req_model request with Some m => m | None => "rgb" end /\
       rm (saved_uploads (enumerate files)) = Ok tt /\
       (List.length (flat_map (entry_of_upload sp key (req_dates request))
                       (enumerate files)) < 2)%nat /\
       msg = "Could not process enough images"))) \/
  (status = 500%nat /\
   exists files key e,
     req_images request = Some files /\ (2 <= List.length files)%nat /\
     key = match req_model request with Some m => m | None => "rgb" end /\
     msg = str e /\
     ((exists i f,
         nth_error files i = Some f /\ usable f = true /\
         sp i f key = Raise e /\
         forall j g,
           (j < i)%nat -> nth_error files j = Some g -> usable g = true ->
           exists r, sp j g key = Ok r) \/
      rm (saved_uploads (enumerate files)) = Raise e)).
Proof.
  unfold analyze_series.
  destruct (req_images request) as [files|].
  2:{ intros [= <- <-]. left. split; [reflexivity|]. now left. }
  destruct (Nat.ltb (List.length files) 2) eqn:E2.
  { intros [= <- <-]. left. split; [reflexivity|]. right. left.
    apply Nat.ltb_lt in E2. now exists files. }
  apply Nat.ltb_ge in E2.
  set (key := match req_model request with Some m => m | None => "rgb" end).
  unfold dict_mem, series_body, config_of.
  destruct (dict_get key MODEL_CONFIG) as [c|] eqn:Ek; cbn [negb].
  2:{ intros [= <- <-]. left. split; [reflexivity|]. right. right. left.
      exists files, key. repeat split; auto. }
  destruct (process_files sp (enumerate files) key (req_dates request) [] [])
    as [[results fps]|e] eqn:Ep; cbn [bind fst snd].
  - apply process_files_ok in Ep as [-> ->]. cbn [app].
    destruct (rm (saved_uploads (enumerate files))) as [[]|e] eqn:Er;
      cbn [bind].
    + destruct (Nat.ltb _ 2) eqn:E; [|discriminate].
      intros [= <- <-]. left. split; [reflexivity|]. right. right. right.
      apply Nat.ltb_lt in E. exists files, key. repeat split; auto.
    + intros [= <- <-]. right. split; [reflexivity|].
      exists files, key, e. repeat split; auto.
  - intros [= <- <-]. right. split; [reflexivity|].
    exists files, key, e. repeat split; auto. left.
    apply process_files_raise_from in Ep
      as (i & f & _ & Hn & Hu & Hs & Hbefore).
    rewrite Nat.sub_0_r in Hn. exists i, f. repeat split; auto.
    intros j g Hj Hg Hug. apply (Hbefore j g); [lia| |exact Hug].
    now rewrite Nat.sub_0_r.
Qed.

Lemma analyze_series_refusals_witness :
  analyze_series predict_by_position remove_all one_good_upload
  = JsonError 400 "Could not process enough images" /\
  exists e,
    analyze_series disk_is_full remove_all two_uploads
    = JsonError 500 (str e) /\
    disk_is_full 0 (mkFile "may.png" "bytes") "rgb" = Raise e.
Proof.
  assert (H : analyze_series predict_by_position remove_all one_good_upload
              = JsonError 400 "Could not process enough images")
    by (vm_compute; reflexivity).
  assert (H' : analyze_series disk_is_full remove_all two_uploads
               = JsonError 500 "[Errno 28] No space left on device")
    by (vm_compute; reflexivity).
  split; [exact H|].
  destruct (analyze_series_refusals _ _ _ _ _ H) as [[_ _]|[Hs _]];
    [|discriminate Hs].
  destruct (analyze_series_refusals _ _ _ _ _ H') as [[Hs _]|[_ Hex]];
    [discriminate Hs|].
  destruct Hex as (files & key & e & Hf & _ & Hk & Hmsg & Hcause).
  exists e. rewrite <- Hmsg. split; [exact H'|].
  destruct Hcause as [(i & f & _ & _ & Hsp & _)|Hrm]; [|discriminate Hrm].
  unfold disk_is_full in *. exact Hsp.
Defined.
(** ** What [predict] reports when it fails *)

Lemma class_probabilities_raise preds names i acc e :
  (i <= List.length preds)%nat ->
  class_probabilities preds names i acc = Raise e ->
  e = IndexError (out_of_bounds (List.length preds) (List.length preds)).
Proof.
  revert i acc. induction names as [|c names IH]; intros i acc Hi; simpl;
    [discriminate|].
  unfold index. destruct (nth_error preds i) as [v|] eqn:E; cbn [bind].
  - apply IH.
    assert (H : nth_error preds i <> None) by congruence.
    apply nth_error_Some in H. lia.
  - apply nth_error_None in E. intros [= <-].
    replace i with (List.length preds) by lia. reflexivity.
Qed.

(** The exceptions of [preprocess_image]: the registry lookup, the decoder,
    or the maximum of an array without samples. *)
Lemma preprocess_image_raise open_resized path key e :
  preprocess_image open_resized path key = Raise e ->
  (config_of key = Raise e /\ e = KeyError key) \/
  (exists cfg,
     config_of key = Ok cfg /\ open_resized path (64, 64)%nat = Raise e) \/
  e = ValueError
        "zero-size array to reduction operation maximum which has no identity".
Proof.
  unfold preprocess_image.
  destruct (config_of key) as [cfg|e'] eqn:Ec; cbn [bind].
  - destruct (config_input_size _ _ Ec) as [-> ->].
    destruct (open_resized path (64, 64)%nat) as [arr|e'] eqn:Eo; cbn [bind].
    + unfold normalize, amax.
      destruct (samples (convert_channels key arr)); cbn [bind];
        [|discriminate].
      intros [= <-]. now right; right.
    + intros [= <-]. right. left. now exists cfg.
  - intros [= <-]. left. split; [reflexivity|].
    unfold config_of, dict_item in Ec.
    destruct (dict_get key MODEL_CONFIG); [discriminate|]. now injection Ec.
Qed.

(** The exceptions the [try] block of [predict] can end with. *)
Lemma predict_body_raise open_resized model path key e :
  predict_body open_resized model path key = Raise e <->
  preprocess_image open_resized path key = Raise e \/
  (exists t,
     preprocess_image open_resized path key = Ok t /\ model t = Raise e) \/
  (exists t scores,
     preprocess_image open_resized path key = Ok t /\
     model t = Ok scores /\ (List.length scores < 10)%nat /\
     e = IndexError
           (out_of_bounds (List.length scores) (List.length scores))).
Proof.
  split.
  - intros H.
    destruct (preprocess_image open_resized path key) as [t|e'] eqn:Et.
    2:{ left. unfold predict_body in H. rewrite Et in H. cbn [bind] in H.
        now injection H as <-. }
    right. destruct (model t) as [scores|e'] eqn:Es.
    2:{ left. exists t. split; [reflexivity|]. unfold predict_body in H.
        rewrite Et in H. cbn [bind] in H. rewrite Es in H. cbn [bind] in H.
        injection H as <-. exact Es. }
    right. exists t, scores. split; [reflexivity|]. split; [exact Es|].
    destruct (Nat.lt_ge_cases (List.length scores) 10) as [Hlt|Hge].
    + split; [exact Hlt|]. unfold predict_body in H. rewrite Et in H.
      cbn [bind] in H. rewrite Es in H. cbn [bind] in H.
      destruct (class_probabilities scores CLASS_NAMES 0 []) as [d|e'] eqn:Ed.
      * apply class_probabilities_raw in Ed as [_ Hlen]. lia.
      * cbn [bind] in H. injection H as <-.
        apply (class_probabilities_raise scores CLASS_NAMES 0 []);
          [lia | exact Ed].
    + destruct (predict_body_run open_resized model path key t scores
                  Et Es Hge) as [p Hp].
      congruence.
  - intros [H|[(t & Ht & Hs)|(t & scores & Ht & Hs & Hlen & ->)]];
      unfold predict_body.
    + now rewrite H.
    + rewrite Ht. cbn [bind]. now rewrite Hs.
    + rewrite Ht. cbn [bind]. rewrite Hs. cbn [bind].
      destruct (class_probabilities scores CLASS_NAMES 0 []) as [d|e'] eqn:Ed.
      * apply class_probabilities_raw in Ed as [_ Hge]. lia.
      * cbn [bind]. f_equal.
        apply (class_probabilities_raise scores CLASS_NAMES 0 []);
          [lia | exact Ed].
Qed.

(** The message of a missing model starts with a capital M; no message the
    classifier's own code raises does. *)
Lemma own_exceptions_differ key n :
  str (KeyError key) <> not_loaded key /\
  str (ValueError
         "zero-size array to reduction operation maximum which has no identity")
  <> not_loaded key /\
  str (IndexError (out_of_bounds n n)) <> not_loaded key.
Proof. repeat split; discriminate. Qed.

(** Every failure of [predict] with its cause. *)
Lemma predict_failure_cases open_resized self path key msg :
  predict open_resized self path key = Failure msg <->
  (dict_get key (models self) = None /\ msg = not_loaded key) \/
  (exists model e,
     dict_get key (models self) = Some model /\
     preprocess_image open_resized path key = Raise e /\ msg = str e) \/
  (exists model t e,
     dict_get key (models self) = Some model /\
     preprocess_image open_resized path key = Ok t /\
     model t = Raise e /\ msg = str e) \/
  (exists model t scores,
     dict_get key (models self) = Some model /\
     preprocess_image open_resized path key = Ok t /\
     model t = Ok scores /\ (List.length scores < 10)%nat /\
     msg = out_of_bounds (List.length scores) (List.length scores)).
Proof.
  unfold predict. split.
  - destruct (dict_get key (models self)) as [model|] eqn:Em.
    + destruct (predict_body open_resized model path key) as [p|e] eqn:Eb;
        [discriminate|].
      intros [= <-]. right.
      apply predict_body_raise in Eb
        as [H|[(t & Ht & Hs)|(t & scores & Ht & Hs & Hlen & ->)]].
      * left. now exists model, e.
      * right. left. now exists model, t, e.
      * right. right. now exists model, t, scores.
    + intros [= <-]. now left.
  - intros [[-> ->]|[(model & e & -> & He & ->)|[(model & t & e & -> & Ht & He & ->)
      |(model & t & scores & -> & Ht & Hs & Hlen & ->)]]].
    + reflexivity.
    + now rewrite (proj2 (predict_body_raise _ _ _ _ e) (or_introl He)).
    + rewrite (proj2 (predict_body_raise open_resized model path key e));
        [reflexivity|].
      right. left. now exists t.
    + rewrite (proj2 (predict_body_raise open_resized model path key
                        (IndexError (out_of_bounds (List.length scores)
                                       (List.length scores)))));
        [reflexivity|].
      right. right. now exists t, scores.
Qed.

(** X7.  [predict] fails with a given message in four cases only, and in
    each of them with that message: the variant is not loaded and the
    message is the "not loaded" one; preprocessing raised and the message is
    the text of its exception; the network raised and the message is the
    text of its exception; the network returned [n] scores, fewer than the
    ten classes, and the message is numpy's for index [n] out of bounds of
    an array of size [n]. *)
Theorem predict_failure_messages open_resized self path key msg :
  predict open_resized self path key = Failure msg <->
  (dict_get key (models self) = None /\ msg = not_loaded key) \/
  (exists model e,
     dict_get key (models self) = Some model /\
     preprocess_image open_resized path key = Raise e /\ msg = str e) \/
  (exists model t e,
     dict_get key (models self) = Some model /\
     preprocess_image open_resized path key = Ok t /\
     model t = Raise e /\ msg = str e) \/
  (exists model t scores,
     dict_get key (models self) = Some model /\
     preprocess_image open_resized path key = Ok t /\
     model t = Ok scores /\ (List.length scores < 10)%nat /\
     msg = "index " +++ decimal (List.length scores)
           +++ " is out of bounds for axis 0 with size "
           +++ decimal (List.length scores)).
Proof. exact (predict_failure_cases open_resized self path key msg). Qed.

Lemma predict_failure_messages_witness :
  predict (open_const (rgb_tile 128)) (rgb_only [1 # 2; 1 # 4; 1 # 4; 0; 0])
    "tile.png" "rgb"
  = Failure "index 5 is out of bounds for axis 0 with size 5".
Proof.
  assert (Ht : exists t, preprocess_image (open_const (rgb_tile 128))
                           "tile.png" "rgb" = Ok t)
    by (eexists; vm_compute; reflexivity).
  destruct Ht as [t Ht].
  apply (proj2 (predict_failure_messages (open_const (rgb_tile 128))
                  (rgb_only [1 # 2; 1 # 4; 1 # 4; 0; 0]) "tile.png" "rgb"
                  "index 5 is out of bounds for axis 0 with size 5")).
  right. right. right.
  exists (const_net [1 # 2; 1 # 4; 1 # 4; 0; 0]), t, [1 # 2; 1 # 4; 1 # 4; 0; 0].
  repeat split; [exact Ht | simpl; lia].
Defined.

(** C6, as amended.  For a variant of the registry, [get_available_models]
    has exactly one entry, whose [loaded] flag is false exactly when the
    variant is absent from [self.models].  With the flag false [predict]
    returns the "not loaded" error as a value; with the flag true it runs
    the [try] block of the loaded network.  The "not loaded" error comes
    back in three cases only: the flag is false, or the image decoder raised
    an exception whose text is that very message, or the loaded network did;
    no exception of the classifier's own code has that text.  The answer for
    a variant depends on that variant's entry of [self.models] only: the
    absence of one variant leaves the others as they are. *)
Theorem availability_matches_predict open_resized self key :
  In key (keys MODEL_CONFIG) ->
  exists info,
    In info (get_available_models self) /\
    info_key info = key /\
    (forall info', In info' (get_available_models self) ->
                   info_key info' = key -> info' = info) /\
    (loaded info = false <-> dict_get key (models self) = None) /\
    (loaded info = true <-> exists model, dict_get key (models self) = Some model) /\
    forall path,
      (loaded info = false ->
       predict open_resized self path key = Failure (not_loaded key)) /\
      (loaded info = true ->
       exists model,
         dict_get key (models self) = Some model /\
         predict open_resized self path key
         = match predict_body open_resized model path key with
           | Ok p => Success p
           | Raise e => Failure (str e)
           end) /\
      (predict open_resized self path key = Failure (not_loaded key) ->
       loaded info = false \/
       (exists e,
          open_resized path (64, 64)%nat = Raise e /\
          str e = not_loaded key) \/
       (exists model t e,
          dict_get key (models self) = Some model /\
          preprocess_image open_resized path key = Ok t /\
          model t = Raise e /\ str e = not_loaded key)) /\
      (forall self',
         dict_get key (models self') = dict_get key (models self) ->
         predict open_resized self' path key
         = predict open_resized self path key).
Proof.
  intros Hkey.
  set (info := fun k c => mkInfo k (name c) (description c)
                            (dict_mem k (models self))).
  assert (Hex : exists c, In (key, c) MODEL_CONFIG).
  { apply in_map_iff in Hkey as ([k c] & <- & HI). now exists c. }
  destruct Hex as [c Hc]. exists (info key c).
  assert (Hmem : dict_mem key (models self) = false
                 <-> dict_get key (models self) = None).
  { unfold dict_mem. destruct (dict_get key (models self)); split;
      congruence. }
  split; [|split; [reflexivity|split; [|split; [exact Hmem|split]]]].
  - rewrite get_available_models_eq.
    apply in_map_iff. now exists (key, c).
  - intros info' HI Hk. rewrite get_available_models_eq in HI.
    simpl in HI, Hc. subst info.
    destruct HI as [<-|[<-|[<-|[]]]]; simpl in Hk; subst key;
      destruct Hc as [Hc|[Hc|[Hc|[]]]]; try discriminate Hc;
      injection Hc as <-; reflexivity.
  - cbn [loaded info]. unfold dict_mem.
    destruct (dict_get key (models self)) as [model|]; split;
      try congruence; [now exists model | now intros [? ?]].
  - intros path. cbn [loaded info].
    split; [apply predict_not_loaded|]. split; [apply predict_loaded|]. split.
    + intros Hp. apply predict_failure_cases in Hp
        as [[Hn _]|[(model & e & Hm & He & Hs)|[(model & t & e & Hm & Ht & He & Hs)
           |(model & t & scores & Hm & Ht & Hs & Hlen & Hmsg)]]].
      * left. now apply Hmem.
      * right. left.
        apply preprocess_image_raise in He as [[_ ->]|[(cfg & _ & Ho)| ->]].
        -- exfalso. now apply (own_exceptions_differ key 0).
        -- now exists e.
        -- exfalso. now apply (own_exceptions_differ key 0).
      * right. right. now exists model, t, e.
      * exfalso.
        apply (proj2 (proj2 (own_exceptions_differ key (List.length scores)))).
        symmetry. exact Hmsg.
    + intros self' Heq. unfold predict. now rewrite Heq.
Qed.

Lemma availability_matches_predict_witness :
  exists absent present,
    In absent (get_available_models (rgb_only forest_scores)) /\
    info_key absent = "ndvi" /\ loaded absent = false /\
    predict (open_const (rgb_tile 128)) (rgb_only forest_scores)
      "tile.png" "ndvi" = Failure (not_loaded "ndvi") /\
    In present (get_available_models (rgb_only forest_scores)) /\
    info_key present = "rgb" /\ loaded present = true /\
    predict (open_const (rgb_tile 128)) (rgb_only forest_scores)
      "tile.png" "rgb" <> Failure (not_loaded "rgb").
Proof.
  assert (Hndvi : In "ndvi" (keys MODEL_CONFIG)) by (simpl; tauto).
  assert (Hrgb : In "rgb" (keys MODEL_CONFIG)) by (simpl; tauto).
  destruct (availability_matches_predict (open_const (rgb_tile 128))
              (rgb_only forest_scores) "ndvi" Hndvi)
    as (absent & Hin & Hk & _ & Hfalse & _ & Hp).
  destruct (availability_matches_predict (open_const (rgb_tile 128))
              (rgb_only forest_scores) "rgb" Hrgb)
    as (present & Hin' & Hk' & _ & Hfalse' & Htrue' & Hp').
  exists absent, present.
  assert (Hl : loaded absent = false) by (apply Hfalse; reflexivity).
  assert (Hl' : loaded present = true).
  { apply Htrue'. eexists. reflexivity. }
  split; [exact Hin|]. split; [exact Hk|]. split; [exact Hl|].
  split; [now apply (Hp "tile.png")|].
  split; [exact Hin'|]. split; [exact Hk'|]. split; [exact Hl'|].
  intros Hf. destruct (Hp' "tile.png") as (_ & _ & Honly & _).
  destruct (Honly Hf) as [H|[(e & He & _)|(model & t & e & Hm & _ & He & _)]].
  - congruence.
  - discriminate He.
  - injection Hm as <-. discriminate He.
Defined.

(** C6, as stated, fails in its "only when" half: a variant that is listed
    as loaded gives the "not loaded" error when its network raises an
    exception with that text, since [predict] reports every exception as a
    bare message. *)
Lemma loaded_variant_reports_not_loaded :
  exists info,
    In info (get_available_models rgb_misreporting) /\
    info_key info = "rgb" /\ loaded info = true /\
    predict (open_const (rgb_tile 128)) rgb_misreporting "tile.png" "rgb"
    = Failure (not_loaded "rgb").
Proof.
  eexists. split; [left; reflexivity|]. split; [reflexivity|].
  split; [reflexivity|]. vm_compute. reflexivity.
Qed.
